(** * TiaCAD core: a shallow embedding of the build engine

    The development follows the Python sources of [tiacad_core]:

    - [part.py]                      (module [PartModel])
    - [parser/metadata_utils.py]     (module [MetadataUtils])
    - [parser/parameter_resolver.py] (module [ParameterResolver])
    - [parser/boolean_builder.py]    (module [BooleanBuilder])
    - [dag/model_graph.py]           (module [ModelGraphM])
    - [dag/graph_builder.py]         (module [GraphBuilder])
    - [dag/visualizer.py]            (module [GraphVisualizer])
    - [selector_resolver.py]         (module [SelectorResolver])

    Python objects that the code only passes around or calls into (the
    CadQuery kernel, [simpleeval], [hashlib], [time.time], the builtin
    [str]) are parameters of the sections that use them; [networkx] and
    [json] are modelled from their documentation.  A method that can
    raise returns a [result]; a method that changes an object takes the
    object and returns the changed one.  Part I holds the definitions,
    Part II the theorems. *)

From Stdlib Require Import String Ascii List ZArith Lia Bool Arith.
From Stdlib Require Import DecimalString Sorting.Permutation Sorting.Sorted.
From stdpp Require Import base option list strings gmap sets.

Import ListNotations.
Set Warnings "-register-all".
Local Open Scope string_scope.
Local Open Scope list_scope.

(* ===================================================================== *)
(** * Part I: definitions                                                 *)
(* ===================================================================== *)

(** ** Python strings

    A [str] is modelled as a [string] of ASCII characters; the helper
    functions below are the [str] methods and the regular expressions the
    sources use, written out over the character list. *)

Module PyStr.

Definition chars (s : string) : list ascii := list_ascii_of_string s.
Definition of_chars (l : list ascii) : string := string_of_list_ascii l.

Definition ascii_eqb (a b : ascii) : bool := Ascii.eqb a b.
Arguments ascii_eqb : simpl never.

(** [str.isspace] on ASCII: space, [\t \n \v \f \r] and [\x1c .. \x1f]. *)
Definition is_space (c : ascii) : bool :=
  let n := nat_of_ascii c in
  (n =? 32)%nat || ((9 <=? n)%nat && (n <=? 13)%nat)
  || ((28 <=? n)%nat && (n <=? 31)%nat).

Definition is_digit (c : ascii) : bool :=
  let n := nat_of_ascii c in (48 <=? n)%nat && (n <=? 57)%nat.

Definition is_alpha_ (c : ascii) : bool :=
  let n := nat_of_ascii c in
  ((65 <=? n)%nat && (n <=? 90)%nat) || ((97 <=? n)%nat && (n <=? 122)%nat)
  || (n =? 95)%nat.

(** [\w] on ASCII. *)
Definition is_word (c : ascii) : bool := is_alpha_ c || is_digit c.

Fixpoint lstrip_chars (l : list ascii) : list ascii :=
  match l with
  | c :: r => if is_space c then lstrip_chars r else l
  | [] => []
  end.

Definition rstrip_chars (l : list ascii) : list ascii :=
  rev (lstrip_chars (rev l)).

(** [s.strip()] *)
Definition strip (s : string) : string :=
  of_chars (rstrip_chars (lstrip_chars (chars s))).

(** [s.startswith(p)] *)
Fixpoint starts_with_chars (p l : list ascii) : bool :=
  match p, l with
  | [], _ => true
  | a :: p', b :: l' => ascii_eqb a b && starts_with_chars p' l'
  | _ :: _, [] => false
  end.

Definition startswith (s p : string) : bool :=
  starts_with_chars (chars p) (chars s).


(** [c in s] for a one-character [c]. *)
Definition contains_char (c : ascii) (s : string) : bool :=
  existsb (ascii_eqb c) (chars s).

(** [s.replace(c, '')] for a one-character [c]. *)
Definition remove_char (c : ascii) (s : string) : string :=
  of_chars (List.filter (fun a => negb (ascii_eqb c a)) (chars s)).

(** [sub in s] *)
Fixpoint contains_chars (sub l : list ascii) : bool :=
  starts_with_chars sub l ||
  match l with
  | [] => false
  | _ :: r => contains_chars sub r
  end.

Definition contains (sub s : string) : bool :=
  contains_chars (chars sub) (chars s).

(** [s[n:]] *)
Definition drop_prefix (n : nat) (s : string) : string :=
  of_chars (drop n (chars s)).

(** [sep.join(l)] *)
Fixpoint join (sep : string) (l : list string) : string :=
  match l with
  | [] => ""
  | [x] => x
  | x :: r => x +:+ sep +:+ join sep r
  end.

(** [str(n)] for an [int]. *)
Definition of_Z (z : Z) : string := NilZero.string_of_int (Z.to_int z).

Fixpoint digits_value (acc : Z) (l : list ascii) : Z :=
  match l with
  | [] => acc
  | c :: r => digits_value (10 * acc + Z.of_nat (nat_of_ascii c - 48)) r
  end.

(** Digits of an [int] literal: decimal digits, single underscores
    allowed between digits. *)
Fixpoint int_digits (prev_digit : bool) (l : list ascii) : option (list ascii) :=
  match l with
  | [] => if prev_digit then Some [] else None
  | c :: r =>
      if is_digit c then
        match int_digits true r with
        | Some ds => Some (c :: ds)
        | None => None
        end
      else if ascii_eqb c "_"%char then
        if prev_digit then
          match r with
          | d :: _ => if is_digit d then int_digits false r else None
          | [] => None
          end
        else None
      else None
  end.

(** [int(s)]: surrounding whitespace is ignored, one optional sign,
    then digits; [None] stands for [ValueError]. *)
Definition parse_int (s : string) : option Z :=
  match chars (strip s) with
  | [] => None
  | c :: r =>
      if ascii_eqb c "-"%char then
        match int_digits false r with
        | Some ds => Some (- digits_value 0 ds)%Z
        | None => None
        end
      else if ascii_eqb c "+"%char then
        match int_digits false r with
        | Some ds => Some (digits_value 0 ds)
        | None => None
        end
      else
        match int_digits false (c :: r) with
        | Some ds => Some (digits_value 0 ds)
        | None => None
        end
  end.

(** Lexicographic order on strings by character code ([s1 < s2]). *)
Fixpoint lt_chars (a b : list ascii) : bool :=
  match a, b with
  | [], [] => false
  | [], _ :: _ => true
  | _ :: _, [] => false
  | x :: a', y :: b' =>
      if (nat_of_ascii x <? nat_of_ascii y)%nat then true
      else if (nat_of_ascii y <? nat_of_ascii x)%nat then false
      else lt_chars a' b'
  end.

Definition ltb (a b : string) : bool := lt_chars (chars a) (chars b).
Definition leb (a b : string) : bool := negb (ltb b a).

(** The one-character string [\n]. *)
Definition newline : string := String (ascii_of_nat 10) "".

End PyStr.

(** ** Document values

    The pre-parsed document is a tree of YAML/JSON values.  A [float] is
    represented by its [repr]; the embedding never computes with floats
    (arithmetic happens inside the expression evaluator and the CAD
    kernel, which are parameters).  A mapping keeps its insertion order. *)

Inductive yaml : Type :=
| YNull
| YBool (b : bool)
| YInt (z : Z)
| YFloat (repr : string)
| YStr (s : string)
| YList (l : list yaml)
| YDict (d : list (string * yaml)).

Module Dict.
Section Dict.
Context {V : Type}.

(** [d[k]] / [d.get(k)] *)
Fixpoint get (k : string) (d : list (string * V)) : option V :=
  match d with
  | [] => None
  | (k', v) :: r => if String.eqb k k' then Some v else get k r
  end.

(** [k in d] *)
Definition mem (k : string) (d : list (string * V)) : bool :=
  match get k d with Some _ => true | None => false end.

(** [d[k] = v]: an existing key keeps its position. *)
Fixpoint set (k : string) (v : V) (d : list (string * V)) : list (string * V) :=
  match d with
  | [] => [(k, v)]
  | (k', v') :: r =>
      if String.eqb k k' then (k, v) :: r else (k', v') :: set k v r
  end.

(** [d.update(e)] *)
Definition update (d e : list (string * V)) : list (string * V) :=
  fold_left (fun acc kv => set (fst kv) (snd kv) acc) e d.

Definition keys (d : list (string * V)) : list string := map fst d.
End Dict.
End Dict.

(** ** Outcomes of Python calls: a value or a raised exception. *)

Inductive result (E A : Type) : Type :=
| Ok (a : A)
| Raise (e : E).
Arguments Ok {E A} a.
Arguments Raise {E A} e.

Definition bind_result {E A B} (r : result E A) (k : A -> result E B) : result E B :=
  match r with
  | Ok a => k a
  | Raise e => Raise e
  end.

Definition is_ok {E A} (r : result E A) : bool :=
  match r with Ok _ => true | Raise _ => false end.

(** ** [part.py]: parts and the object store

    [Part] is a mutable dataclass whose [geometry], [metadata] and
    [transform_history] fields hold references to Python objects.  The
    store keeps one table per kind of object; a reference is the index of
    the object in its table, so two fields alias exactly when their
    references are equal. *)

Module PartModel.
Section Part.
(** The backend geometry object (a CadQuery Workplane or a mock). *)
Variable Geometry : Type.
(** A tracked position, a triple of floats. *)
Variable Position : Type.
(** [utils.geometry.get_center]; the module is not part of the
    sources at hand.  [None] stands for a raised exception. *)
Variable utils_get_center : Geometry -> option Position.

Definition ref := nat.

Record TransformEntry := mkTransformEntry {
    entry_type : string;
    entry_params : yaml;
    entry_position_before : option Position
  }.

Record Part := mkPart {
    name : string;
    geometry : ref;
    metadata : ref;
    transform_history : ref;
    current_position : option Position
  }.

Record store := mkStore {
    geometries : list Geometry;
    dicts : list (list (string * yaml));
    histories : list (list TransformEntry)
  }.

Definition empty_store : store := mkStore [] [] [].

Definition alloc_geometry (g : Geometry) (h : store) : ref * store :=
  (length (geometries h),
   mkStore (geometries h ++ [g]) (dicts h) (histories h)).

Definition alloc_dict (d : list (string * yaml)) (h : store) : ref * store :=
  (length (dicts h),
   mkStore (geometries h) (dicts h ++ [d]) (histories h)).

Definition alloc_history (l : list TransformEntry) (h : store) : ref * store :=
  (length (histories h),
   mkStore (geometries h) (dicts h) (histories h ++ [l])).

Definition set_dict (r : ref) (d : list (string * yaml)) (h : store) : store :=
  mkStore (geometries h) (<[r := d]> (dicts h)) (histories h).

Definition set_history (r : ref) (l : list TransformEntry) (h : store) : store :=
  mkStore (geometries h) (dicts h) (<[r := l]> (histories h)).

Definition set_geometry (r : ref) (g : Geometry) (h : store) : store :=
  mkStore (<[r := g]> (geometries h)) (dicts h) (histories h).

(** [Part._calculate_center] with [backend=None]. *)
Definition _calculate_center (geom : ref) (h : store) : option Position :=
  match geometries h !! geom with
  | Some g => utils_get_center g
  | None => None
  end.

(** The generated [__init__] followed by [__post_init__]: the fields
    are stored as given (references are not copied), and a missing
    position is computed from the geometry.  [None]: an exception. *)
Definition Part_init (nm : string) (geom md hist : ref)
    (pos : option Position) (h : store) : option Part :=
  match pos with
  | Some p => Some (mkPart nm geom md hist (Some p))
  | None =>
      match _calculate_center geom h with
      | Some c => Some (mkPart nm geom md hist (Some c))
      | None => None
      end
  end.

(** [Part.update_position] *)
Definition update_position (self : Part) (new_position : Position) : Part :=
  mkPart (name self) (geometry self) (metadata self)
         (transform_history self) (Some new_position).

(** [Part.add_transform]: appends to the history list in place. *)
Definition add_transform (self : Part) (transform_type : string)
    (params : yaml) (h : store) : store :=
  match histories h !! transform_history self with
  | Some l =>
      set_history (transform_history self)
        (l ++ [mkTransformEntry transform_type params (current_position self)]) h
  | None => h
  end.

(** [Part.clone]: [new_geometry = self.geometry] binds the same
    object; [metadata.copy()] and [transform_history.copy()] build
    new objects with the same entries. *)
Definition clone (self : Part) (new_name : string) (h : store)
    : option (Part * store) :=
  let new_geometry := geometry self in
  match dicts h !! metadata self, histories h !! transform_history self with
  | Some md, Some hist =>
      let '(md_ref, h1) := alloc_dict md h in
      let '(hist_ref, h2) := alloc_history hist h1 in
      match Part_init new_name new_geometry md_ref hist_ref
                      (current_position self) h2 with
      | Some p => Some (p, h2)
      | None => None
      end
  | _, _ => None
  end.

(** What a duplicating clone would do with the geometry: a fresh
    object holding the same shape (used only to state the
    difference). *)
Definition geometry_is_duplicate (self p : Part) (h h' : store) : Prop :=
  geometry p <> geometry self /\
  length (geometries h) <= geometry p /\
  geometries h' !! geometry p = geometries h !! geometry self.

(** [PartRegistry._parts]: [name -> Part], in insertion order. *)
Definition PartRegistry := list (string * Part).

(** The exceptions of [PartRegistry], with their messages. *)
Inductive registry_error :=
| RegistryValueError (msg : string)
| RegistryKeyError (msg : string).

(** [PartRegistry.__init__] *)
Definition PartRegistry_init : PartRegistry := [].

(** [PartRegistry.add] *)
Definition PartRegistry_add (part : Part) (self : PartRegistry)
    : result registry_error PartRegistry :=
  if Dict.mem (name part) self then
    Raise (RegistryValueError
             ("Part '" +:+ name part +:+ "' already exists in registry"))
  else Ok (Dict.set (name part) part self).

(** [PartRegistry.get] *)
Definition PartRegistry_get (nm : string) (self : PartRegistry)
    : result registry_error Part :=
  match Dict.get nm self with
  | None =>
      let available := PyStr.join ", " (Dict.keys self) in
      Raise (RegistryKeyError
               ("Part '" +:+ nm +:+ "' not found." +:+ PyStr.newline
                +:+ "Available parts: " +:+ available))
  | Some part => Ok part
  end.

(** [PartRegistry.exists] and [__contains__] *)
Definition PartRegistry_exists (nm : string) (self : PartRegistry) : bool :=
  Dict.mem nm self.

(** [PartRegistry.list_parts] *)
Definition PartRegistry_list_parts (self : PartRegistry) : list string :=
  Dict.keys self.

(** [PartRegistry.clear] *)
Definition PartRegistry_clear (self : PartRegistry) : PartRegistry := [].

(** [PartRegistry.__len__] *)
Definition PartRegistry_len (self : PartRegistry) : nat := length self.

(** The calls that change a registry; a call that raises leaves it as
    it was. *)
Inductive registry_op :=
| RegistryAdd (part : Part)
| RegistryClear.

Definition registry_apply (self : PartRegistry) (op : registry_op)
    : PartRegistry :=
  match op with
  | RegistryAdd part =>
      match PartRegistry_add part self with
      | Ok self' => self'
      | Raise _ => self
      end
  | RegistryClear => PartRegistry_clear self
  end.

Definition registry_run (ops : list registry_op) : PartRegistry :=
  fold_left registry_apply ops PartRegistry_init.

(** [Part.get_center] *)
Definition get_center (self : Part) (h : store) : option Position :=
  _calculate_center (geometry self) h.

End Part.

Arguments mkPart {Position}.
Arguments name {Position}.
Arguments geometry {Position}.
Arguments metadata {Position}.
Arguments transform_history {Position}.
Arguments current_position {Position}.
Arguments mkStore {Geometry Position}.
Arguments geometries {Geometry Position}.
Arguments dicts {Geometry Position}.
Arguments histories {Geometry Position}.
Arguments clone {Geometry Position}.
Arguments Part_init {Geometry Position}.
Arguments alloc_geometry {Geometry Position}.
Arguments alloc_dict {Geometry Position}.
Arguments alloc_history {Geometry Position}.
Arguments set_geometry {Geometry Position}.
Arguments set_dict {Geometry Position}.
Arguments set_history {Geometry Position}.
Arguments add_transform {Geometry Position}.
Arguments geometry_is_duplicate {Geometry Position}.
Arguments PartRegistry_init {Position}.
Arguments PartRegistry_add {Position}.
Arguments PartRegistry_get {Position}.
Arguments PartRegistry_exists {Position}.
Arguments PartRegistry_list_parts {Position}.
Arguments PartRegistry_clear {Position}.
Arguments PartRegistry_len {Position}.
Arguments RegistryAdd {Position}.
Arguments RegistryClear {Position}.
Arguments registry_apply {Position}.
Arguments registry_run {Position}.

(** A store with one box, and the part named ["original"] built on it
    (the fixture of [test_clone_part]). *)
Definition box_store : store string (Z * Z * Z) :=
  mkStore ["box(10,10,10)"] [[("color", YStr "red")]] [[]].
Definition box_part : Part (Z * Z * Z) :=
  mkPart "original" 0 0 0 (Some (0, 0, 0)%Z).
Definition box_center (g : string) : option (Z * Z * Z) := Some (0, 0, 0)%Z.
End PartModel.

(** ** [parser/metadata_utils.py] *)

Module MetadataUtils.

Definition PROPAGATING_METADATA : list string :=
  ["color"; "material"; "transparency"; "texture"; "finish"].

Definition OPERATION_SPECIFIC_METADATA : list string :=
  ["primitive_type"; "source"; "operation_type"; "boolean_op";
   "pattern_type"; "pattern_index"; "grid_position"; "angle"].

Definition in_list (k : string) (l : list string) : bool :=
  existsb (String.eqb k) l.

(** The loop [for key in PROPAGATING_METADATA: if key in source: ...]. *)
Fixpoint copy_keys (keys : list string) (source result : list (string * yaml))
    : list (string * yaml) :=
  match keys with
  | [] => result
  | key :: rest =>
      match Dict.get key source with
      | Some v => copy_keys rest source (Dict.set key v result)
      | None => copy_keys rest source result
      end
  end.

(** A dict is truthy when it is neither [None] nor empty. *)
Definition truthy_dict (d : option (list (string * yaml))) : bool :=
  match d with
  | Some (_ :: _) => true
  | _ => false
  end.

Definition copy_propagating_metadata
    (source_metadata : option (list (string * yaml)))
    (target_metadata : list (string * yaml))
    (overrides : option (list (string * yaml))) : list (string * yaml) :=
  let result := target_metadata in
  let result :=
    match source_metadata with
    | Some ((_ :: _) as src) => copy_keys PROPAGATING_METADATA src result
    | _ => result
    end in
  match overrides with
  | Some ((_ :: _) as ov) => Dict.update result ov
  | _ => result
  end.

(** [merge_metadata], called with any number of dicts and the flag
    [prefer_last]: the loop
    [for metadata in dicts: if metadata: result.update(metadata)]. *)
Definition merge_metadata
    (metadata_dicts : list (option (list (string * yaml))))
    (prefer_last : bool) : list (string * yaml) :=
  let dicts := if prefer_last then metadata_dicts else rev metadata_dicts in
  fold_left
    (fun result metadata =>
       match metadata with
       | Some ((_ :: _) as md) => Dict.update result md
       | _ => result
       end)
    dicts [].

(** The value of [k] in the first of [dicts] that binds it. *)
Fixpoint first_binding (k : string) (dicts : list (option (list (string * yaml))))
    : option yaml :=
  match dicts with
  | [] => None
  | d :: rest =>
      match d ≫= Dict.get k with
      | Some v => Some v
      | None => first_binding k rest
      end
  end.

(** A Python dict binds each key once. *)
Definition proper_dict (d : option (list (string * yaml))) : Prop :=
  NoDup (Dict.keys (default [] d)).

End MetadataUtils.

(** ** [parser/parameter_resolver.py] *)

Module ParameterResolver.

(** *** The pattern [EXPR_PATTERN = \$\{([^}]+)\}]

      [tokens s] cuts [s] at the non-overlapping matches that
      [EXPR_PATTERN.finditer] reports, left to right: [TExpr g] is a
      match with group [g], [TChar c] a character outside every match. *)

Inductive token :=
  | TChar (c : ascii)
  | TExpr (group : string).

(** [[^}]+\}] read at the head of [l]: the group and the rest. *)
Fixpoint take_group (l : list ascii) : option (list ascii * list ascii) :=
  match l with
  | [] => None
  | c :: r =>
      if PyStr.ascii_eqb c "}"%char then Some ([], r)
      else match take_group r with
           | Some (g, rest) => Some (c :: g, rest)
           | None => None
           end
  end.

Fixpoint tokens_fuel (fuel : nat) (l : list ascii) : list token :=
  match fuel with
  | O => []
  | S fuel' =>
      match l with
      | [] => []
      | c :: r =>
          match l with
          | "$"%char :: "{"%char :: body =>
              match take_group body with
              | Some (g :: gs, rest) =>
                  TExpr (PyStr.of_chars (g :: gs)) :: tokens_fuel fuel' rest
              | _ => TChar c :: tokens_fuel fuel' r
              end
          | _ => TChar c :: tokens_fuel fuel' r
          end
      end
  end.

Definition tokens (s : string) : list token :=
  tokens_fuel (S (String.length s)) (PyStr.chars s).

Definition is_expr (t : token) : bool :=
  match t with TExpr _ => true | TChar _ => false end.

(** *** Errors: the messages of [ParameterResolutionError] *)

Inductive error :=
  | NameNotFound (name expression : string)
      (* "Parameter '{name}' not found in expression: {expression}" *)
  | InvalidExpr (expression msg : string)
      (* "Invalid expression: {expression}\n{msg}" *)
  | DivisionByZero (expression : string)
      (* "Division by zero in expression: {expression}" *)
  | EvalError (expression msg : string)
      (* "Error evaluating expression '{expression}': {msg}" *)
  | ParameterNotFound (name : string) (available : list string)
      (* "Parameter '{name}' not found. Available parameters: [...]" *)
  | CircularReference (cycle : list string).
      (* "Circular reference detected: a -> b -> a" *)

(** What a call of [simpleeval.simple_eval] does: return a value or
    raise one of the exceptions [_evaluate_expression] tells apart. *)
Inductive eval_outcome :=
  | EvalValue (v : yaml)
  | NameNotDefined (name : string)
  | InvalidExpression (msg : string)
  | ZeroDivisionError
  | OtherException (msg : string).

Record resolver := mkResolver {
    raw_parameters : list (string * yaml);
    resolved_cache : list (string * yaml);
    resolution_stack : list string
  }.

(** [ParameterResolver.__init__] *)
Definition init (parameters : list (string * yaml)) : resolver :=
  mkResolver parameters [] [].

Definition on_stack (name : string) (st : resolver) : bool :=
  existsb (String.eqb name) (resolution_stack st).

Definition push (name : string) (st : resolver) : resolver :=
  mkResolver (raw_parameters st) (resolved_cache st)
             (resolution_stack st ++ [name]).

Definition pop (st : resolver) : resolver :=
  mkResolver (raw_parameters st) (resolved_cache st)
             (removelast (resolution_stack st)).

Definition cache_set (name : string) (v : yaml) (st : resolver) : resolver :=
  mkResolver (raw_parameters st) (Dict.set name v (resolved_cache st))
             (resolution_stack st).

(** A method call takes the resolver and gives back the outcome and
    the resolver after the call; [None] means that the recursion
    budget of the model is used up. *)
Definition M (A : Type) : Type :=
  resolver -> option (result error A * resolver).

Definition ret {A} (a : A) : M A := fun st => Some (Ok a, st).
Definition raise {A} (e : error) : M A := fun st => Some (Raise e, st).
Definition bind {A B} (m : M A) (k : A -> M B) : M B :=
  fun st =>
    match m st with
    | None => None
    | Some (Ok a, st') => k a st'
    | Some (Raise e, st') => Some (Raise e, st')
    end.

(** [[self.resolve(item) for item in value]] *)
Fixpoint resolve_items (resolve : yaml -> M yaml) (l : list yaml)
    : M (list yaml) :=
  match l with
  | [] => ret []
  | x :: r =>
      bind (resolve x) (fun v =>
      bind (resolve_items resolve r) (fun vs => ret (v :: vs)))
  end.

(** [{key: self.resolve(val) for key, val in value.items()}] *)
Fixpoint resolve_values (resolve : yaml -> M yaml) (d : list (string * yaml))
    : M (list (string * yaml)) :=
  match d with
  | [] => ret []
  | (k, x) :: r =>
      bind (resolve x) (fun v =>
      bind (resolve_values resolve r) (fun vs => ret ((k, v) :: vs)))
  end.

(** No string of the value, at any depth, holds a match of
    [EXPR_PATTERN]. *)
Fixpoint expression_free (v : yaml) : bool :=
  match v with
  | YStr s => negb (existsb is_expr (tokens s))
  | YList l => forallb expression_free l
  | YDict d => forallb (fun kv => expression_free (snd kv)) d
  | _ => true
  end.

(** Every binding of the first cache is a binding of the second. *)
Definition cache_extends (st st' : resolver) : Prop :=
  forall k v, Dict.get k (resolved_cache st) = Some v ->
              Dict.get k (resolved_cache st') = Some v.

(** No parameter that is being resolved has a cached value. *)
Definition stack_uncached (st : resolver) : Prop :=
  forall n, on_stack n st = true -> Dict.get n (resolved_cache st) = None.

(** What a call that returns leaves behind: the raw parameters and the
    stack as they were, a cache that has kept its bindings, and still no
    cached value for a parameter that is being resolved. *)
Definition memo_step (st st' : resolver) : Prop :=
  raw_parameters st' = raw_parameters st /\
  resolution_stack st' = resolution_stack st /\
  cache_extends st st' /\
  stack_uncached st'.

(** [gp] behaves as [get_parameter] does with respect to the cache. *)
Definition memo_call (gp : string -> M yaml) : Prop :=
  forall name st r st',
    stack_uncached st -> gp name st = Some (r, st') ->
    memo_step st st' /\
    forall v, r = Ok v -> Dict.get name (resolved_cache st') = Some v.

Section Resolver.
(** [simple_eval(expression, names=names, functions=self.functions)];
    the library is external to the repository. *)
Variable simple_eval : string -> list (string * yaml) -> eval_outcome.
(** The builtin [str]. *)
Variable py_str : yaml -> string.

Section Body.
(** The recursive call of [get_parameter] made from
    [_build_names_dict]. *)
Variable get_parameter_rec : string -> M yaml.

(** The loop of [_build_names_dict]. *)
Fixpoint build_names_loop (params : list string)
    (names : list (string * yaml)) (st : resolver)
    : option (list (string * yaml) * resolver) :=
  match params with
  | [] => Some (names, st)
  | param_name :: rest =>
      if on_stack param_name st then build_names_loop rest names st
      else
        match Dict.get param_name (resolved_cache st) with
        | Some v => build_names_loop rest (Dict.set param_name v names) st
        | None =>
            match get_parameter_rec param_name st with
            | None => None
            | Some (Ok v, st') =>
                build_names_loop rest (Dict.set param_name v names) st'
            | Some (Raise _, st') => build_names_loop rest names st'
            end
        end
  end.

Definition _build_names_dict (st : resolver)
    : option (list (string * yaml) * resolver) :=
  build_names_loop (Dict.keys (raw_parameters st)) [] st.

Definition _evaluate_expression (expression : string) : M yaml :=
  fun st =>
    match _build_names_dict st with
    | None => None
    | Some (names, st') =>
        Some (match simple_eval expression names with
              | EvalValue v => Ok v
              | NameNotDefined n => Raise (NameNotFound n expression)
              | InvalidExpression m => Raise (InvalidExpr expression m)
              | ZeroDivisionError => Raise (DivisionByZero expression)
              | OtherException m => Raise (EvalError expression m)
              end, st')
    end.

(** The substitution loop of [_resolve_string]; the matches are
    visited from the last to the first, so the tokens come
    reversed and [acc] is the text to the right. *)
Fixpoint substitute (rev_tokens : list token) (acc : string) : M string :=
  match rev_tokens with
  | [] => ret acc
  | TChar c :: r => substitute r (String c acc)
  | TExpr g :: r =>
      bind (_evaluate_expression (PyStr.strip g))
           (fun evaluated => substitute r (py_str evaluated +:+ acc))
  end.

Definition _resolve_string (value : string) : M yaml :=
  let toks := tokens value in
  if existsb is_expr toks then
    match toks with
    | [TExpr g] => _evaluate_expression (PyStr.strip g)
    | _ => bind (substitute (rev toks) "") (fun s => ret (YStr s))
    end
  else ret (YStr value).

Fixpoint resolve (value : yaml) : M yaml :=
  match value with
  | YNull | YBool _ | YInt _ | YFloat _ => ret value
  | YStr s => _resolve_string s
  | YList l => bind (resolve_items resolve l) (fun vs => ret (YList vs))
  | YDict d => bind (resolve_values resolve d) (fun vs => ret (YDict vs))
  end.

(** One call of [get_parameter]; the [finally] clause pops the
    stack on both exits. *)
Definition get_parameter_body (name : string) : M yaml :=
  fun st =>
    match Dict.get name (resolved_cache st) with
    | Some v => Some (Ok v, st)
    | None =>
        match Dict.get name (raw_parameters st) with
        | None =>
            Some (Raise (ParameterNotFound name
                           (Dict.keys (raw_parameters st))), st)
        | Some raw_value =>
            if on_stack name st then
              Some (Raise (CircularReference
                             (resolution_stack st ++ [name])), st)
            else
              match resolve raw_value (push name st) with
              | None => None
              | Some (Ok resolved_value, st') =>
                  Some (Ok resolved_value,
                        pop (cache_set name resolved_value st'))
              | Some (Raise e, st') => Some (Raise e, pop st')
              end
        end
    end.
End Body.

Fixpoint get_parameter (fuel : nat) (name : string) : M yaml :=
  match fuel with
  | O => fun _ => None
  | S fuel' => get_parameter_body (get_parameter fuel') name
  end.

(** [ParameterResolver.resolve] as called from outside. *)
Definition resolve_value (fuel : nat) (value : yaml) : M yaml :=
  resolve (get_parameter fuel) value.

(** [ParameterResolver.resolve_all] *)
Fixpoint resolve_all_loop (fuel : nat) (names : list string)
    : M (list (string * yaml)) :=
  match names with
  | [] => ret []
  | n :: rest =>
      bind (get_parameter fuel n) (fun v =>
      bind (resolve_all_loop fuel rest) (fun vs => ret ((n, v) :: vs)))
  end.

Definition resolve_all (fuel : nat) : M (list (string * yaml)) :=
  fun st => resolve_all_loop fuel (Dict.keys (raw_parameters st)) st.

(** The number of parameters that are not being resolved: each
    nested [get_parameter] pushes one of them. *)
Definition pending (st : resolver) : nat :=
  length (List.filter (fun n => negb (on_stack n st))
                      (Dict.keys (raw_parameters st))).

(** [e] cannot be evaluated unless [target] is bound: without it,
    [simple_eval] raises [NameNotDefined target]. *)
Definition needs (e target : string) : Prop :=
  forall names, Dict.get target names = None ->
                simple_eval e names = NameNotDefined target.

(** The expression of a string value that [_resolve_string]
    evaluates first: the last match. *)
Definition first_evaluated (s : string) : option string :=
  match List.filter is_expr (rev (tokens s)) with
  | TExpr g :: _ => Some (PyStr.strip g)
  | _ => None
  end.

(** Parameter [p] refers to parameter [q]: its raw value is a string
    whose first evaluated expression needs [q]. *)
Definition refers_to (params : list (string * yaml)) (p q : string) : Prop :=
  exists s e, Dict.get p params = Some (YStr s) /\
              first_evaluated s = Some e /\ needs e q.

(** Every parameter of [cyc] refers to a parameter of [cyc]. *)
Definition cyclic (params : list (string * yaml)) (cyc : list string) : Prop :=
  forall p, In p cyc -> exists q, In q cyc /\ refers_to params p q.

(** What a call leaves alone: the raw parameters and, once it has
    returned, the resolution stack. *)
Definition frame (st : resolver) : list (string * yaml) * list string :=
  (raw_parameters st, resolution_stack st).

(** No parameter of [cyc] has a cached value. *)
Definition cache_avoids (cyc : list string) (st : resolver) : Prop :=
  forall p, In p cyc -> Dict.get p (resolved_cache st) = None.

(** The behaviour of [get_parameter] on resolvers with frame [F]: it
    returns, restores the frame, caches no parameter of [cyc], and for
    a parameter of [cyc] that is not being resolved it raises the
    name-not-found error of the expression evaluated first. *)
Definition call_spec (cyc : list string)
    (F : list (string * yaml) * list string) (gp : string -> M yaml) : Prop :=
  forall name st,
    frame st = F -> cache_avoids cyc st ->
    exists r st',
      gp name st = Some (r, st') /\ frame st' = F /\ cache_avoids cyc st' /\
      (In name cyc -> on_stack name st = false ->
       exists q s e, In q cyc /\ Dict.get name (fst F) = Some (YStr s) /\
                     first_evaluated s = Some e /\ needs e q /\
                     r = Raise (NameNotFound q e)).

(** [pending] in terms of the frame. *)
Definition pending_frame (F : list (string * yaml) * list string) : nat :=
  length (List.filter (fun n => negb (existsb (String.eqb n) (snd F)))
                      (Dict.keys (fst F))).

End Resolver.

End ParameterResolver.

(** ** A reference evaluator for integer arithmetic

    [simpleeval] itself is a parameter of [ParameterResolver].  For
    closed examples the development instantiates it with the evaluator
    below, which covers the integer fragment of the expression language:
    literals, parameter names, [+ - * / // %], unary signs and
    parentheses, evaluated operand by operand from left to right as the
    library does.  Operands that are not integers, and inexact
    quotients of [/], are outside the fragment and reported as
    [OtherException]. *)

Module ArithEval.
Import ParameterResolver.

Inductive tok :=
  | KNum (z : Z)
  | KName (s : string)
  | KPlus | KMinus | KTimes | KDiv | KFloorDiv | KMod
  | KLParen | KRParen.

Definition flush (pending : list ascii) : option (list tok) :=
  match rev pending with
  | [] => Some []
  | (c :: _) as w =>
      if PyStr.is_digit c then
        if forallb PyStr.is_digit w then Some [KNum (PyStr.digits_value 0 w)]
        else None
      else Some [KName (PyStr.of_chars w)]
  end.

Definition cons_toks (a : option (list tok)) (b : option (list tok))
    : option (list tok) :=
  match a, b with
  | Some x, Some y => Some (x ++ y)
  | _, _ => None
  end.

(** [pending] holds the current word, last character first. *)
Fixpoint lex (l : list ascii) (pending : list ascii) : option (list tok) :=
  match l with
  | [] => flush pending
  | c :: r =>
      if PyStr.is_word c then lex r (c :: pending)
      else
        let sym (t : list tok) (rest : list ascii) :=
          cons_toks (flush pending) (cons_toks (Some t) (lex rest [])) in
        if PyStr.is_space c then sym [] r
        else if PyStr.ascii_eqb c "+"%char then sym [KPlus] r
        else if PyStr.ascii_eqb c "-"%char then sym [KMinus] r
        else if PyStr.ascii_eqb c "*"%char then sym [KTimes] r
        else if PyStr.ascii_eqb c "%"%char then sym [KMod] r
        else if PyStr.ascii_eqb c "("%char then sym [KLParen] r
        else if PyStr.ascii_eqb c ")"%char then sym [KRParen] r
        else if PyStr.ascii_eqb c "/"%char then
          match r with
          | c2 :: r2 =>
              if PyStr.ascii_eqb c2 "/"%char then sym [KFloorDiv] r2
              else sym [KDiv] r
          | [] => sym [KDiv] r
          end
        else None
  end.

Inductive binop := Add | Sub | Mul | Div | FloorDiv | Mod.

Inductive expr :=
  | Num (z : Z)
  | Name (s : string)
  | Neg (e : expr)
  | BinOp (op : binop) (l r : expr).

Definition additive (t : tok) : option binop :=
  match t with KPlus => Some Add | KMinus => Some Sub | _ => None end.

Definition multiplicative (t : tok) : option binop :=
  match t with
  | KTimes => Some Mul | KDiv => Some Div
  | KFloorDiv => Some FloorDiv | KMod => Some Mod
  | _ => None
  end.

(** Recursive descent; [fuel] bounds the nesting. *)
Fixpoint parse_sum (fuel : nat) (ts : list tok) : option (expr * list tok) :=
  match fuel with
  | O => None
  | S fuel' =>
      let parse_atom (ts : list tok) : option (expr * list tok) :=
        match ts with
        | KNum z :: r => Some (Num z, r)
        | KName s :: r => Some (Name s, r)
        | KLParen :: r =>
            match parse_sum fuel' r with
            | Some (e, KRParen :: r') => Some (e, r')
            | _ => None
            end
        | _ => None
        end in
      let fix parse_unary (n : nat) (ts : list tok) : option (expr * list tok) :=
        match n with
        | O => None
        | S n' =>
            match ts with
            | KMinus :: r =>
                match parse_unary n' r with
                | Some (e, r') => Some (Neg e, r')
                | None => None
                end
            | KPlus :: r => parse_unary n' r
            | _ => parse_atom ts
            end
        end in
      let fix product_tail (n : nat) (acc : expr) (ts : list tok)
          : option (expr * list tok) :=
        match n with
        | O => None
        | S n' =>
            match ts with
            | t :: r =>
                match multiplicative t with
                | Some op =>
                    match parse_unary fuel r with
                    | Some (e, r') => product_tail n' (BinOp op acc e) r'
                    | None => None
                    end
                | None => Some (acc, ts)
                end
            | [] => Some (acc, ts)
            end
        end in
      let parse_product (ts : list tok) : option (expr * list tok) :=
        match parse_unary fuel ts with
        | Some (e, r) => product_tail fuel e r
        | None => None
        end in
      let fix sum_tail (n : nat) (acc : expr) (ts : list tok)
          : option (expr * list tok) :=
        match n with
        | O => None
        | S n' =>
            match ts with
            | t :: r =>
                match additive t with
                | Some op =>
                    match parse_product r with
                    | Some (e, r') => sum_tail n' (BinOp op acc e) r'
                    | None => None
                    end
                | None => Some (acc, ts)
                end
            | [] => Some (acc, ts)
            end
        end in
      match parse_product ts with
      | Some (e, r) => sum_tail fuel e r
      | None => None
      end
  end.

Definition parse (s : string) : option expr :=
  match lex (PyStr.chars s) [] with
  | Some ts =>
      match parse_sum (S (length ts)) ts with
      | Some (e, []) => Some e
      | _ => None
      end
  | None => None
  end.

Definition apply_binop (op : binop) (a b : Z) : eval_outcome :=
  match op with
  | Add => EvalValue (YInt (a + b))
  | Sub => EvalValue (YInt (a - b))
  | Mul => EvalValue (YInt (a * b))
  | FloorDiv =>
      if (b =? 0)%Z then ZeroDivisionError else EvalValue (YInt (a / b))
  | Mod =>
      if (b =? 0)%Z then ZeroDivisionError else EvalValue (YInt (a mod b))
  | Div =>
      if (b =? 0)%Z then ZeroDivisionError
      else if ((a mod b =? 0) && (Z.abs (a / b) <? 10 ^ 16))%Z
           then EvalValue (YFloat (PyStr.of_Z (a / b) +:+ ".0"))
           else OtherException "inexact quotient"
  end.

Fixpoint eval (names : list (string * yaml)) (e : expr) : eval_outcome :=
  match e with
  | Num z => EvalValue (YInt z)
  | Name s =>
      match Dict.get s names with
      | Some v => EvalValue v
      | None => NameNotDefined s
      end
  | Neg e1 =>
      match eval names e1 with
      | EvalValue (YInt a) => EvalValue (YInt (- a))
      | EvalValue _ => OtherException "operand is not an integer"
      | other => other
      end
  | BinOp op l r =>
      match eval names l with
      | EvalValue lv =>
          match eval names r with
          | EvalValue rv =>
              match lv, rv with
              | YInt a, YInt b => apply_binop op a b
              | _, _ => OtherException "operand is not an integer"
              end
          | other => other
          end
      | other => other
      end
  end.

Definition simple_eval (expression : string) (names : list (string * yaml))
    : eval_outcome :=
  match parse (PyStr.strip expression) with
  | Some e => eval names e
  | None => OtherException "invalid syntax"
  end.

(** [str] on the scalars of the fragment. *)
Definition py_str (v : yaml) : string :=
  match v with
  | YNull => "None"
  | YBool true => "True"
  | YBool false => "False"
  | YInt z => PyStr.of_Z z
  | YFloat r => r
  | YStr s => s
  | YList _ => "[...]"
  | YDict _ => "{...}"
  end.

Definition get_parameter := ParameterResolver.get_parameter simple_eval py_str.

(** The parameter maps used as examples. *)
Definition params_chain : list (string * yaml) :=
  [("a", YInt 10); ("b", YStr "${a * 2}"); ("c", YStr "${b + a}")].
Definition params_cycle3 : list (string * yaml) :=
  [("a", YStr "${b}"); ("b", YStr "${c}"); ("c", YStr "${a}")].

End ArithEval.

(** ** [parser/boolean_builder.py] *)

Module BooleanBuilder.
Import PartModel.

(** *** Pattern expansion *)

(** The messages of [BooleanBuilderError]. *)
Inductive error_kind :=
| PatternNoMatch (pattern : string) (available : list string)
  (* "Pattern '{item}' matched no parts. Available parts: ..." *)
| InvalidPatternDict
  (* "Invalid pattern dict: ... Expected 'pattern' or 'range' key" *)
| InvalidItemType
  (* "Invalid part list item type: ... Expected str or dict" *)
| InvalidRangeSyntax (range_spec : string)
| RangeNoMatch (range_spec : string) (available : list string)
| InvalidRangeFormat (range_part : string)
| RangeBackwards (start stop : Z)
| RangeMissingPart (range_spec part_name : string) (available : list string)
| MissingOperationField (name : string)
| UnknownOperation (name : string)
| MissingField (name field : string)
| NotAList (name field : string)
| TooFewInputs (name : string) (n : nat)
| EmptySubtract (name : string)
| PartNotFound (name : string) (part : yaml) (available : list string)
| CombineFailed (name part : string)
| OperationFailed (name : string).
  (* "Boolean operation '{operation}' failed for '{name}': ..." *)

(** An exception inside the builder: a [BooleanBuilderError] or any
    other Python exception ([TypeError], [ValueError], a kernel
    failure). *)
Inductive exn :=
| BBE (k : error_kind)
| PyExc.

(** The key of [sorted(matches, key=sort_key)]: [(0, int(suffix))] or
    [(1, suffix)]. *)
Inductive sort_key_t :=
| NumericKey (n : Z)
| TextKey (suffix : string).

Definition sort_key (prefix name : string) : sort_key_t :=
  let suffix := PyStr.drop_prefix (String.length prefix) name in
  match PyStr.parse_int suffix with
  | Some n => NumericKey n
  | None => TextKey suffix
  end.

(** Tuple comparison [k1 <= k2]. *)
Definition key_le (k1 k2 : sort_key_t) : bool :=
  match k1, k2 with
  | NumericKey a, NumericKey b => (a <=? b)%Z
  | NumericKey _, TextKey _ => true
  | TextKey _, NumericKey _ => false
  | TextKey s, TextKey t => PyStr.leb s t
  end.

(** [sorted] is stable: an element goes before the first element whose
    key is not smaller. *)
Fixpoint insert_sorted (prefix x : string) (l : list string) : list string :=
  match l with
  | [] => [x]
  | y :: r =>
      if key_le (sort_key prefix x) (sort_key prefix y) then x :: y :: r
      else y :: insert_sorted prefix x r
  end.

Fixpoint sorted_by_key (prefix : string) (l : list string) : list string :=
  match l with
  | [] => []
  | x :: r => insert_sorted prefix x (sorted_by_key prefix r)
  end.


(** [_find_pattern_matches] over [registry.list_parts()]. *)
Definition _find_pattern_matches (all_parts : list string) (prefix : string)
    : list string :=
  let matches := List.filter (fun p => PyStr.startswith p prefix) all_parts in
  sorted_by_key prefix matches.

(** [re.match(r'^(.+?)\[(.+?)\]$', range_spec)]: the two groups. *)
Definition is_newline (c : ascii) : bool := PyStr.ascii_eqb c "010"%char.

Fixpoint split_at_bracket (seen : list ascii) (l : list ascii)
    : option (list ascii * list ascii) :=
  match l with
  | [] => None
  | c :: r =>
      if PyStr.ascii_eqb c "["%char then
        match seen with
        | [] => split_at_bracket [c] r
        | _ :: _ => Some (rev seen, r)
        end
      else split_at_bracket (c :: seen) r
  end.

Definition match_range_spec (range_spec : string) : option (string * string) :=
  let l := PyStr.chars range_spec in
  let l := match rev l with
           | nl :: r => if is_newline nl then rev r else l
           | [] => l
           end in
  match rev l with
  | close :: rcore =>
      if PyStr.ascii_eqb close "]"%char then
        let core := rev rcore in
        if existsb is_newline core then None
        else
          match split_at_bracket [] core with
          | Some (base, (_ :: _) as part) =>
              Some (PyStr.of_chars base, PyStr.of_chars part)
          | _ => None
          end
      else None
  | [] => None
  end.

(** [re.match(r'^(\d+)\.\.(\d+)$', range_part)] *)
Fixpoint split_dots (seen : list ascii) (l : list ascii)
    : option (list ascii * list ascii) :=
  match l with
  | "."%char :: "."%char :: r => Some (rev seen, r)
  | c :: r => if PyStr.is_digit c then split_dots (c :: seen) r else None
  | [] => None
  end.

Definition match_numeric_range (range_part : string) : option (Z * Z) :=
  match split_dots [] (PyStr.chars range_part) with
  | Some ((_ :: _) as a, (_ :: _) as b) =>
      if forallb PyStr.is_digit b
      then Some (PyStr.digits_value 0 a, PyStr.digits_value 0 b)
      else None
  | _ => None
  end.

(** The loop [for i in range(start, end + 1)] of [_expand_range_spec]. *)
Fixpoint range_names (all_parts : list string) (range_spec base_name : string)
    (i : Z) (count : nat) : result exn (list string) :=
  match count with
  | O => Ok []
  | S count' =>
      let part_name := base_name +:+ "_" +:+ PyStr.of_Z i in
      if existsb (String.eqb part_name) all_parts then
        bind_result (range_names all_parts range_spec base_name (i + 1) count')
                    (fun rest => Ok (part_name :: rest))
      else Raise (BBE (RangeMissingPart range_spec part_name all_parts))
  end.

Definition _expand_range_spec (all_parts : list string) (range_spec : string)
    : result exn (list string) :=
  match match_range_spec range_spec with
  | None => Raise (BBE (InvalidRangeSyntax range_spec))
  | Some (base_name, range_part) =>
      if String.eqb range_part "*" then
        match _find_pattern_matches all_parts (base_name +:+ "_") with
        | [] => Raise (BBE (RangeNoMatch range_spec all_parts))
        | matches => Ok matches
        end
      else
        match match_numeric_range range_part with
        | None => Raise (BBE (InvalidRangeFormat range_part))
        | Some (start, stop) =>
            if (stop <? start)%Z then Raise (BBE (RangeBackwards start stop))
            else range_names all_parts range_spec base_name start
                             (Z.to_nat (stop + 1 - start))
        end
  end.

Section Expand.
(** The builtin [str], used by the f-strings. *)
Variable py_str : yaml -> string.

(** One iteration of the loop of [_expand_part_list]: the names that
    [item] contributes. *)
Definition expand_item (all_parts : list string) (item : yaml)
    : result exn (list string) :=
  match item with
  | YStr item =>
      if PyStr.contains_char "*"%char item then
        let pattern_prefix := PyStr.remove_char "*"%char item in
        match _find_pattern_matches all_parts pattern_prefix with
        | [] => Raise (BBE (PatternNoMatch item all_parts))
        | matches => Ok matches
        end
      else Ok [item]
  | YDict d =>
      match Dict.get "pattern" d with
      | Some pattern_name =>
          let pattern_name := py_str pattern_name in
          match _find_pattern_matches all_parts (pattern_name +:+ "_") with
          | [] => Raise (BBE (PatternNoMatch pattern_name all_parts))
          | matches => Ok matches
          end
      | None =>
          match Dict.get "range" d with
          | Some (YStr range_spec) => _expand_range_spec all_parts range_spec
          | Some _ => Raise PyExc
          | None => Raise (BBE InvalidPatternDict)
          end
      end
  | _ => Raise (BBE InvalidItemType)
  end.

Fixpoint _expand_part_list (all_parts : list string) (part_list : list yaml)
    : result exn (list string) :=
  match part_list with
  | [] => Ok []
  | item :: rest =>
      bind_result (expand_item all_parts item) (fun names =>
      bind_result (_expand_part_list all_parts rest) (fun more =>
      Ok (names ++ more)))
  end.

End Expand.

(** *** Executing an operation *)

(** Errors that leave [execute_boolean_operation]. *)
Inductive error :=
| ResolutionError (e : ParameterResolver.error)
| BooleanBuilderError (k : error_kind).

Section Execute.
Variable Geometry : Type.
Variable Position : Type.
Variable utils_get_center : Geometry -> option Position.
(** The kernel calls [a.union(b)], [a.cut(b)] and [a.intersect(b)];
    [None] stands for an exception of the kernel. *)
Variable geom_union : Geometry -> Geometry -> option Geometry.
Variable geom_cut : Geometry -> Geometry -> option Geometry.
Variable geom_intersect : Geometry -> Geometry -> option Geometry.
Variable simple_eval : string -> list (string * yaml) -> ParameterResolver.eval_outcome.
Variable py_str : yaml -> string.
(** Recursion budget handed to the parameter resolver. *)
Variable fuel : nat.

Record builder := mkBuilder {
  registry : PartRegistry Position;
  objects : store Geometry Position;
  resolver : ParameterResolver.resolver
}.

(** [registry.list_parts()] *)
Definition list_parts (b : builder) : list string := Dict.keys (registry b).

(** [registry.exists(x)] for an arbitrary value [x]: a list or a
    mapping is unhashable, a scalar that is not a string is never a
    key. *)
Definition registry_exists (b : builder) (x : yaml) : result exn bool :=
  match x with
  | YStr s => Ok (Dict.mem s (registry b))
  | YList _ | YDict _ => Raise PyExc
  | _ => Ok false
  end.

Definition part_geometry (b : builder) (p : Part Position) : option Geometry :=
  geometries (objects b) !! geometry p.

(** The first loop of [_execute_union] and [_execute_intersection]:
    look every input up. *)
Fixpoint retrieve_parts (b : builder) (mk : string -> error_kind)
    (inputs : list string) : result exn (list (Part Position)) :=
  match inputs with
  | [] => Ok []
  | input_name :: rest =>
      match Dict.get input_name (registry b) with
      | None => Raise (BBE (mk input_name))
      | Some p =>
          bind_result (retrieve_parts b mk rest) (fun ps => Ok (p :: ps))
      end
  end.

(** The second loop: fold the kernel operation over the other parts. *)
Fixpoint combine_parts (b : builder) (op : Geometry -> Geometry -> option Geometry)
    (name : string) (acc : Geometry) (parts : list (Part Position))
    : result exn Geometry :=
  match parts with
  | [] => Ok acc
  | part :: rest =>
      match part_geometry b part with
      | None => Raise PyExc
      | Some g =>
          match op acc g with
          | Some acc' => combine_parts b op name acc' rest
          | None => Raise (BBE (CombineFailed name (PartModel.name part)))
          end
      end
  end.

Definition execute_inputs (b : builder)
    (op : Geometry -> Geometry -> option Geometry)
    (name : string) (spec : list (string * yaml)) : result exn Geometry :=
  match Dict.get "inputs" spec with
  | None => Raise (BBE (MissingField name "inputs"))
  | Some (YList inputs) =>
      bind_result (_expand_part_list py_str (list_parts b) inputs) (fun inputs =>
      if (length inputs <? 2)%nat then
        Raise (BBE (TooFewInputs name (length inputs)))
      else
        bind_result
          (retrieve_parts b (fun i => PartNotFound name (YStr i) (list_parts b)) inputs)
          (fun parts =>
             match parts with
             | [] => Raise PyExc
             | first :: others =>
                 match part_geometry b first with
                 | None => Raise PyExc
                 | Some g => combine_parts b op name g others
                 end
             end))
  | Some _ => Raise (BBE (NotAList name "inputs"))
  end.

Definition _execute_union := fun b => execute_inputs b geom_union.
Definition _execute_intersection := fun b => execute_inputs b geom_intersect.

(** The loop of [_execute_difference]. *)
Fixpoint subtract_parts (b : builder) (name : string) (acc : Geometry)
    (subtract_list : list string) : result exn Geometry :=
  match subtract_list with
  | [] => Ok acc
  | subtract_name :: rest =>
      match Dict.get subtract_name (registry b) with
      | None =>
          Raise (BBE (PartNotFound name (YStr subtract_name) (list_parts b)))
      | Some part =>
          match part_geometry b part with
          | None => Raise PyExc
          | Some g =>
              match geom_cut acc g with
              | Some acc' => subtract_parts b name acc' rest
              | None => Raise (BBE (CombineFailed name subtract_name))
              end
          end
      end
  end.

Definition _execute_difference (b : builder) (name : string)
    (spec : list (string * yaml)) : result exn Geometry :=
  match Dict.get "base" spec with
  | None => Raise (BBE (MissingField name "base"))
  | Some base_name =>
      match Dict.get "subtract" spec with
      | None => Raise (BBE (MissingField name "subtract"))
      | Some (YList subtract_list) =>
          bind_result (_expand_part_list py_str (list_parts b) subtract_list)
            (fun subtract_list =>
          match subtract_list with
          | [] => Raise (BBE (EmptySubtract name))
          | _ :: _ =>
              bind_result (registry_exists b base_name) (fun found =>
              if negb found then
                Raise (BBE (PartNotFound name base_name (list_parts b)))
              else
                match base_name with
                | YStr base =>
                    match Dict.get base (registry b) with
                    | Some base_part =>
                        match part_geometry b base_part with
                        | Some g => subtract_parts b name g subtract_list
                        | None => Raise PyExc
                        end
                    | None => Raise PyExc
                    end
                | _ => Raise PyExc
                end)
          end)
      | Some _ => Raise (BBE (NotAList name "subtract"))
      end
  end.

(** "Get source part for metadata inheritance" (lines 272-292). *)
Definition source_part (b : builder) (operation : yaml)
    (resolved_spec : list (string * yaml)) : result exn (option (Part Position)) :=
  match operation with
  | YStr "difference" | YStr "intersection" =>
      match Dict.get "base" resolved_spec with
      | Some base_name =>
          bind_result (registry_exists b base_name) (fun found =>
          match base_name with
          | YStr base => Ok (if found then Dict.get base (registry b) else None)
          | _ => Ok None
          end)
      | None => Ok None
      end
  | YStr "union" =>
      match Dict.get "inputs" resolved_spec with
      | Some (YList (first_input :: _)) =>
          match first_input with
          | YStr first =>
              if negb (PyStr.contains_char "*"%char first)
              then Ok (Dict.get first (registry b))
              else Ok None
          | _ => Ok None
          end
      | _ => Ok None
      end
  | _ => Ok None
  end.

Definition boolean_target (operation : yaml) : list (string * yaml) :=
  [("operation_type", YStr "boolean"); ("boolean_op", operation)].

(** The body of the [try] block. *)
Definition execute_body (b : builder) (name : string) (operation : yaml)
    (resolved_spec : list (string * yaml)) : result exn builder :=
  bind_result
    (match operation with
     | YStr "union" => _execute_union b name resolved_spec
     | YStr "difference" => _execute_difference b name resolved_spec
     | YStr "intersection" => _execute_intersection b name resolved_spec
     | _ => Raise (BBE (UnknownOperation name))
     end)
    (fun geom =>
  bind_result (source_part b operation resolved_spec) (fun source =>
  let source_metadata :=
    match source with
    | Some p => dicts (objects b) !! metadata p
    | None => None
    end in
  let md :=
    MetadataUtils.copy_propagating_metadata
      source_metadata (boolean_target operation) None in
  let '(geom_ref, h1) := alloc_geometry geom (objects b) in
  let '(md_ref, h2) := alloc_dict md h1 in
  let '(hist_ref, h3) := alloc_history [] h2 in
  match Part_init utils_get_center name geom_ref md_ref hist_ref None h3 with
  | None => Raise PyExc
  | Some result_part =>
      if Dict.mem name (registry b) then Raise PyExc
      else Ok (mkBuilder (registry b ++ [(name, result_part)]) h3 (resolver b))
  end)).

Definition execute_boolean_operation (name : string)
    (spec : list (string * yaml)) (b : builder)
    : option (result error builder) :=
  match ParameterResolver.resolve_value simple_eval py_str fuel
          (YDict spec) (resolver b) with
  | None => None
  | Some (Raise e, _) => Some (Raise (ResolutionError e))
  | Some (Ok (YDict resolved_spec), r') =>
      let b := mkBuilder (registry b) (objects b) r' in
      match Dict.get "operation" resolved_spec with
      | None => Some (Raise (BooleanBuilderError (MissingOperationField name)))
      | Some operation =>
          match execute_body b name operation resolved_spec with
          | Ok b' => Some (Ok b')
          | Raise (BBE k) => Some (Raise (BooleanBuilderError k))
          | Raise PyExc => Some (Raise (BooleanBuilderError (OperationFailed name)))
          end
      end
  | Some (Ok _, _) => Some (Raise (BooleanBuilderError (OperationFailed name)))
  end.

(** The metadata of the part registered under [name], read through the
    object store. *)
Definition metadata_of (b : builder) (name : string)
    : option (list (string * yaml)) :=
  match Dict.get name (registry b) with
  | Some p => dicts (objects b) !! metadata p
  | None => None
  end.

End Execute.

(** The source of the appearance metadata as the specification words
    it: the part named by [base] for a difference or an intersection,
    the part named by the first input for a union unless that input is a
    wildcard (or a mapping, which names no part). *)
Definition specified_source {Position : Type} (reg : PartRegistry Position)
    (operation : yaml) (resolved_spec : list (string * yaml))
    : option (Part Position) :=
  let named (field : option yaml) :=
    match field with
    | Some (YStr part_name) => Dict.get part_name reg
    | _ => None
    end in
  match operation with
  | YStr "difference" | YStr "intersection" =>
      named (Dict.get "base" resolved_spec)
  | YStr "union" =>
      match Dict.get "inputs" resolved_spec with
      | Some (YList (YStr first :: _)) =>
          if PyStr.contains_char "*"%char first then None
          else Dict.get first reg
      | _ => None
      end
  | _ => None
  end.

(** A kernel for the examples: shapes are terms, every call succeeds. *)
Definition ex_combine (op : string) (a b : string) : option string :=
  Some ("(" +:+ a +:+ " " +:+ op +:+ " " +:+ b +:+ ")").
Definition ex_center (g : string) : option (Z * Z * Z) := Some (0, 0, 0)%Z.

(** A plate (red) and two holes, and a difference taken with a
    wildcard (scenario 3 of the specification). *)
Definition ex_builder : builder string (Z * Z * Z) :=
  mkBuilder string (Z * Z * Z)
    [("plate", mkPart "plate" 0 0 0 (Some (0, 0, 0)%Z));
     ("hole_0", mkPart "hole_0" 1 1 1 (Some (5, 0, 0)%Z));
     ("hole_1", mkPart "hole_1" 2 2 2 (Some (-5, 0, 0)%Z))]
    (mkStore ["box"; "cyl0"; "cyl1"]
             [[("primitive_type", YStr "box"); ("color", YStr "red")];
              [("primitive_type", YStr "cylinder"); ("color", YStr "blue")];
              [("primitive_type", YStr "cylinder")]]
             [[]; []; []])
    (ParameterResolver.init []).

Definition ex_difference : list (string * yaml) :=
  [("operation", YStr "difference"); ("base", YStr "plate");
   ("subtract", YList [YStr "hole_*"])].

Definition ex_union_wildcard : list (string * yaml) :=
  [("operation", YStr "union"); ("inputs", YList [YStr "hole_*"])].

Definition ex_execute :=
  execute_boolean_operation string (Z * Z * Z) ex_center
    (ex_combine "|") (ex_combine "-") (ex_combine "&")
    ArithEval.simple_eval ArithEval.py_str 1.


End BooleanBuilder.

(** ** [dag/model_graph.py] *)

Module ModelGraphM.

Inductive NodeType := PARAMETER | PART | OPERATION | REFERENCE | SKETCH.

(** [NodeType.value] *)
Definition NodeType_value (t : NodeType) : string :=
  match t with
  | PARAMETER => "parameter"
  | PART => "part"
  | OPERATION => "operation"
  | REFERENCE => "reference"
  | SKETCH => "sketch"
  end.

(** A timestamp is a float, kept by its [repr]. *)
Definition pyfloat := string.

(** A float is falsy when it is zero. *)
Definition float_truthy (f : pyfloat) : bool :=
  negb (String.eqb f "0.0" || String.eqb f "-0.0").

Record GraphNode := mkGraphNode {
  node_id : string;
  node_type : NodeType;
  name : string;
  spec : yaml;
  hash_value : option string;
  last_built : option pyfloat;
  is_valid : bool;
  is_pattern : bool;
  metadata : list (string * yaml)
}.

(** [GraphNode.__post_init__]: [false] stands for [ValueError]. *)
Definition GraphNode_post_init (n : GraphNode) : bool :=
  PyStr.contains_char ":"%char (node_id n)
  && PyStr.startswith (node_id n) (NodeType_value (node_type n) +:+ ":").

(** [nx.DiGraph]: the nodes and the edges, each in insertion order. *)
Record DiGraph := mkDiGraph {
  g_nodes : list string;
  g_edges : list (string * string)
}.

Definition has_node (g : DiGraph) (n : string) : bool :=
  existsb (String.eqb n) (g_nodes g).

Definition edge_eqb (e1 e2 : string * string) : bool :=
  String.eqb (fst e1) (fst e2) && String.eqb (snd e1) (snd e2).

Definition has_edge (g : DiGraph) (u v : string) : bool :=
  existsb (edge_eqb (u, v)) (g_edges g).

(** [DiGraph.add_node] *)
Definition nx_add_node (n : string) (g : DiGraph) : DiGraph :=
  if has_node g n then g else mkDiGraph (g_nodes g ++ [n]) (g_edges g).

(** [DiGraph.add_edge(u, v)]: missing end points are added. *)
Definition nx_add_edge (u v : string) (g : DiGraph) : DiGraph :=
  let g := nx_add_node v (nx_add_node u g) in
  if has_edge g u v then g else mkDiGraph (g_nodes g) (g_edges g ++ [(u, v)]).

(** [G.successors(v)] / [G.predecessors(v)] *)
Definition successors (g : DiGraph) (v : string) : list string :=
  map snd (List.filter (fun e => String.eqb (fst e) v) (g_edges g)).

Definition predecessors (g : DiGraph) (v : string) : list string :=
  map fst (List.filter (fun e => String.eqb (snd e) v) (g_edges g)).

(** Modelled from the documentation of [networkx.simple_cycles]: the
    elementary circuits of the graph, each as the list of its nodes, a
    self-loop as a one-node list.  The library (third party) is not in
    the sources; the order in which it lists the circuits is not
    specified, and the model lists them by their first node in
    insertion order.

    [cycles_through g allowed s fuel path v] walks from [v], which was
    reached from [s] along [path] (latest node first), through nodes of
    [allowed] that are not on the walk, and reports the walk whenever an
    edge leads back to [s]. *)
Fixpoint cycles_through (g : DiGraph) (allowed : list string) (s : string)
    (fuel : nat) (path : list string) (v : string) : list (list string) :=
  match fuel with
  | O => []
  | S fuel' =>
      flat_map
        (fun w =>
           if String.eqb w s then [rev (v :: path)]
           else if existsb (String.eqb w) allowed
                   && negb (existsb (String.eqb w) (v :: path))
                then cycles_through g allowed s fuel' (v :: path) w
                else [])
        (successors g v)
  end.

Fixpoint cycles_in (g : DiGraph) (nodes : list string) : list (list string) :=
  match nodes with
  | [] => []
  | s :: rest =>
      cycles_through g rest s (S (length rest)) [] s ++ cycles_in g rest
  end.

Definition simple_cycles (g : DiGraph) : list (list string) :=
  cycles_in g (g_nodes g).

Record ModelGraph := mkModelGraph {
  graph : DiGraph;
  nodes : list (string * GraphNode);
  valid_nodes : gset string
}.

(** [ModelGraph.__init__] *)
Definition empty : ModelGraph := mkModelGraph (mkDiGraph [] []) [] ∅.

Inductive py_error :=
| ValueError (msg : string).

Definition add_node (node : GraphNode) (self : ModelGraph)
    : result py_error ModelGraph :=
  if Dict.mem (node_id node) (nodes self) then
    Raise (ValueError ("Node '" +:+ node_id node +:+ "' already exists in graph"))
  else
    Ok (mkModelGraph
          (nx_add_node (node_id node) (graph self))
          (Dict.set (node_id node) node (nodes self))
          (if is_valid node then {[node_id node]} ∪ valid_nodes self
           else valid_nodes self)).

Definition add_dependency (dependent dependency : string) (self : ModelGraph)
    : result py_error ModelGraph :=
  if negb (Dict.mem dependent (nodes self)) then
    Raise (ValueError ("Dependent node '" +:+ dependent +:+ "' not found in graph"))
  else if negb (Dict.mem dependency (nodes self)) then
    Raise (ValueError ("Dependency node '" +:+ dependency +:+ "' not found in graph"))
  else
    Ok (mkModelGraph (nx_add_edge dependency dependent (graph self))
                     (nodes self) (valid_nodes self)).

(** [detect_cycles]: the model of [simple_cycles] raises nothing, so
    the [except] branch is never taken. *)
Definition detect_cycles (self : ModelGraph) : list (list string) :=
  simple_cycles (graph self).

Definition set_is_valid (b : bool) (n : GraphNode) : GraphNode :=
  mkGraphNode (node_id n) (node_type n) (name n) (spec n) (hash_value n)
              (last_built n) b (is_pattern n) (metadata n).

Definition set_last_built (t : pyfloat) (n : GraphNode) : GraphNode :=
  mkGraphNode (node_id n) (node_type n) (name n) (spec n) (hash_value n)
              (Some t) (is_valid n) (is_pattern n) (metadata n).

Definition mark_invalid (node_id : string) (self : ModelGraph) : ModelGraph :=
  match Dict.get node_id (nodes self) with
  | Some n =>
      mkModelGraph (graph self)
                   (Dict.set node_id (set_is_valid false n) (nodes self))
                   (valid_nodes self ∖ {[node_id]})
  | None => self
  end.

(** [mark_valid(node_id, timestamp)]; [now] is the reading of
    [time.time()] used when [timestamp] is falsy. *)
Definition mark_valid (node_id : string) (timestamp : option pyfloat)
    (now : pyfloat) (self : ModelGraph) : ModelGraph :=
  match Dict.get node_id (nodes self) with
  | Some n =>
      let stamp :=
        match timestamp with
        | Some t => if float_truthy t then t else now
        | None => now
        end in
      mkModelGraph (graph self)
                   (Dict.set node_id (set_last_built stamp (set_is_valid true n))
                             (nodes self))
                   ({[node_id]} ∪ valid_nodes self)
  | None => self
  end.

(** [get_invalid_nodes] *)
Definition get_invalid_nodes (self : ModelGraph) : gset string :=
  list_to_set (map fst (List.filter (fun kv => negb (is_valid (snd kv)))
                                    (nodes self))).

(** [__contains__] *)
Definition contains (self : ModelGraph) (node_id : string) : bool :=
  Dict.mem node_id (nodes self).

(** The calls that change the validity bookkeeping. *)
Inductive graph_op :=
| OpAddNode (node : GraphNode)
| OpMarkInvalid (node_id : string)
| OpMarkValid (node_id : string) (timestamp : option pyfloat) (now : pyfloat).

(** A call that raises leaves the graph as it was. *)
Definition apply_op (self : ModelGraph) (op : graph_op) : ModelGraph :=
  match op with
  | OpAddNode node =>
      match add_node node self with
      | Ok self' => self'
      | Raise _ => self
      end
  | OpMarkInvalid node_id => mark_invalid node_id self
  | OpMarkValid node_id timestamp now => mark_valid node_id timestamp now self
  end.

Definition run_ops (ops : list graph_op) (self : ModelGraph) : ModelGraph :=
  fold_left apply_op ops self.

(** [valid_nodes] holds exactly the ids whose stored node is valid. *)
Definition valid_nodes_consistent (self : ModelGraph) : Prop :=
  forall id, id ∈ valid_nodes self <->
             exists n, Dict.get id (nodes self) = Some n /\ is_valid n = true.

(** *** Paths and cycles of a [DiGraph] *)

Definition edge (g : DiGraph) (u v : string) : Prop := In (u, v) (g_edges g).

(** [walk g u l v]: the edges [u -> l_1 -> ... -> l_n -> v]. *)
Fixpoint walk (g : DiGraph) (u : string) (l : list string) (v : string) : Prop :=
  match l with
  | [] => edge g u v
  | x :: r => edge g u x /\ walk g x r v
  end.

(** The graph has a cycle: some node reaches itself. *)
Definition has_cycle (g : DiGraph) : Prop :=
  exists v l, walk g v l v.

(** [c] lists the nodes of an elementary circuit: no node twice, an
    edge from each node to the next and from the last to the first. *)
Definition elementary_cycle (g : DiGraph) (c : list string) : Prop :=
  match c with
  | [] => False
  | s :: r => List.NoDup c /\ walk g s r s
  end.

(** Every edge joins two nodes of the graph (what [add_edge]
    maintains). *)
Definition wf_graph (g : DiGraph) : Prop :=
  forall u v, edge g u v -> In u (g_nodes g) /\ In v (g_nodes g).

(** [l] is a path: an edge from each node to the next. *)
Fixpoint is_path (g : DiGraph) (l : list string) : Prop :=
  match l with
  | [] => True
  | u :: r =>
      match r with
      | [] => True
      | v :: _ => edge g u v /\ is_path g r
      end
  end.

(** *** Queries *)

(** [G.predecessors(n)] and [G.successors(n)] as networkx documents
    them: [NetworkXError] ([None]) for a node that is not in the
    graph. *)
Definition nx_predecessors (g : DiGraph) (n : string) : option (list string) :=
  if has_node g n then Some (predecessors g n) else None.

Definition nx_successors (g : DiGraph) (n : string) : option (list string) :=
  if has_node g n then Some (successors g n) else None.

(** [ModelGraph.get_dependencies] *)
Definition get_dependencies (node_id : string) (self : ModelGraph)
    : option (gset string) :=
  if negb (Dict.mem node_id (nodes self)) then Some ∅
  else list_to_set <$> nx_predecessors (graph self) node_id.

(** [ModelGraph.get_dependents] *)
Definition get_dependents (node_id : string) (self : ModelGraph)
    : option (gset string) :=
  if negb (Dict.mem node_id (nodes self)) then Some ∅
  else list_to_set <$> nx_successors (graph self) node_id.

Definition NodeType_eqb (a b : NodeType) : bool :=
  match a, b with
  | PARAMETER, PARAMETER | PART, PART | OPERATION, OPERATION
  | REFERENCE, REFERENCE | SKETCH, SKETCH => true
  | _, _ => false
  end.

(** [for node_type in NodeType]: the members in definition order. *)
Definition all_node_types : list NodeType :=
  [PARAMETER; PART; OPERATION; REFERENCE; SKETCH].

(** [counts[node.node_type] += 1] *)
Definition increment (t : NodeType) (counts : list (NodeType * nat))
    : list (NodeType * nat) :=
  map (fun tc => if NodeType_eqb t (fst tc) then (fst tc, S (snd tc)) else tc)
      counts.

(** [ModelGraph.get_node_count_by_type] *)
Definition get_node_count_by_type (self : ModelGraph) : list (NodeType * nat) :=
  fold_left (fun counts kv => increment (node_type (snd kv)) counts)
            (nodes self)
            (map (fun t => (t, 0)) all_node_types).

(** [counts[t]] *)
Fixpoint count_of (t : NodeType) (counts : list (NodeType * nat)) : option nat :=
  match counts with
  | [] => None
  | (t', c) :: rest => if NodeType_eqb t t' then Some c else count_of t rest
  end.

(** [ModelGraph.__len__] *)
Definition len (self : ModelGraph) : nat := length (nodes self).

(** The calls that build and change a graph; a call that raises
    leaves the graph as it was. *)
Inductive api_call :=
| CallAddNode (node : GraphNode)
| CallAddDependency (dependent dependency : string)
| CallMarkInvalid (node_id : string)
| CallMarkValid (node_id : string) (timestamp : option pyfloat) (now : pyfloat).

Definition apply_call (self : ModelGraph) (c : api_call) : ModelGraph :=
  match c with
  | CallAddNode node =>
      match add_node node self with
      | Ok self' => self'
      | Raise _ => self
      end
  | CallAddDependency dependent dependency =>
      match add_dependency dependent dependency self with
      | Ok self' => self'
      | Raise _ => self
      end
  | CallMarkInvalid node_id => mark_invalid node_id self
  | CallMarkValid node_id timestamp now => mark_valid node_id timestamp now self
  end.

Definition run_calls (calls : list api_call) : ModelGraph :=
  fold_left apply_call calls empty.

(** The networkx graph and the node table describe the same nodes, in
    the same order, each once, and every edge joins two of them. *)
Definition graph_consistent (self : ModelGraph) : Prop :=
  g_nodes (graph self) = Dict.keys (nodes self) /\
  List.NoDup (Dict.keys (nodes self)) /\
  wf_graph (graph self).

End ModelGraphM.

(** ** [dag/graph_builder.py] *)

Module GraphBuilder.
Import ModelGraphM.

(** *** [json.dumps(spec, sort_keys=True)] *)

Definition hex_digit (n : nat) : ascii :=
  ascii_of_nat (if (n <? 10)%nat then 48 + n else 87 + n).

(** [json.encoder.encode_basestring_ascii] on one character. *)
(** The characters [0x22] (double quote) and [0x5c] (backslash). *)
Definition dquote : ascii := ascii_of_nat 34.
Definition backslash : ascii := ascii_of_nat 92.

Definition json_escape_char (c : ascii) : list ascii :=
  let n := nat_of_ascii c in
  if (n =? 34)%nat then [backslash; dquote]
  else if (n =? 92)%nat then [backslash; backslash]
  else if (n =? 10)%nat then [backslash; "n"%char]
  else if (n =? 13)%nat then [backslash; "r"%char]
  else if (n =? 9)%nat then [backslash; "t"%char]
  else if (n =? 8)%nat then [backslash; "b"%char]
  else if (n =? 12)%nat then [backslash; "f"%char]
  else if ((32 <=? n) && (n <=? 126))%nat then [c]
  else [backslash; "u"%char; "0"%char; "0"%char;
        hex_digit (n / 16); hex_digit (n mod 16)].

Definition json_string (s : string) : string :=
  PyStr.of_chars ([dquote] ++ flat_map json_escape_char (PyStr.chars s)
                  ++ [dquote]).

(** [float.__repr__], with the three spellings JSON changes. *)
Definition json_float (repr : string) : string :=
  if String.eqb repr "nan" then "NaN"
  else if String.eqb repr "inf" then "Infinity"
  else if String.eqb repr "-inf" then "-Infinity"
  else repr.

(** [sorted(items)] on items with distinct keys: insertion by key. *)
Fixpoint insert_item (kv : string * string) (l : list (string * string))
    : list (string * string) :=
  match l with
  | [] => [kv]
  | kv' :: r =>
      if PyStr.leb (fst kv) (fst kv') then kv :: kv' :: r
      else kv' :: insert_item kv r
  end.

Fixpoint sort_items (l : list (string * string)) : list (string * string) :=
  match l with
  | [] => []
  | kv :: r => insert_item kv (sort_items r)
  end.

Definition json_member (kv : string * string) : string :=
  json_string (fst kv) +:+ ": " +:+ snd kv.

(** The values of a mapping are encoded first and the members sorted
    afterwards; the encoder sorts first, with the same text as result. *)
Fixpoint json_dumps (v : yaml) : string :=
  match v with
  | YNull => "null"
  | YBool true => "true"
  | YBool false => "false"
  | YInt z => PyStr.of_Z z
  | YFloat r => json_float r
  | YStr s => json_string s
  | YList l =>
      "[" +:+ PyStr.join ", "
                ((fix items (l : list yaml) : list string :=
                    match l with
                    | [] => []
                    | x :: r => json_dumps x :: items r
                    end) l) +:+ "]"
  | YDict d =>
      "{" +:+ PyStr.join ", "
                (map json_member
                   (sort_items
                      ((fix items (d : list (string * yaml)) : list (string * string) :=
                          match d with
                          | [] => []
                          | (k, x) :: r => (k, json_dumps x) :: items r
                          end) d))) +:+ "}"
  end.


(** *** Identifiers referenced from [${...}] expressions *)

(** [re.findall(r'\b[a-zA-Z_][a-zA-Z0-9_]*\b', expr)]: the maximal runs
    of word characters that do not start with a digit.  [word] is the
    current run, last character first. *)
Definition close_word (word : list ascii) : list string :=
  match rev word with
  | [] => []
  | (c :: _) as w => if PyStr.is_alpha_ c then [PyStr.of_chars w] else []
  end.

Fixpoint identifiers_from (l : list ascii) (word : list ascii) : list string :=
  match l with
  | [] => close_word word
  | c :: r =>
      if PyStr.is_word c then identifiers_from r (c :: word)
      else close_word word ++ identifiers_from r []
  end.

Definition identifiers (expr : string) : list string :=
  identifiers_from (PyStr.chars expr) [].

(** [PARAM_PATTERN.findall(value)]: the groups of the matches. *)
Definition param_groups (value : string) : list string :=
  flat_map (fun t => match t with
                     | ParameterResolver.TExpr g => [g]
                     | ParameterResolver.TChar _ => []
                     end)
           (ParameterResolver.tokens value).

(** [_find_parameter_refs]; the Python set is listed in the order of
    first occurrence, duplicates included (the edges added from it do
    not depend on order or multiplicity). *)
Fixpoint _find_parameter_refs (obj : yaml) : list string :=
  match obj with
  | YStr value => flat_map identifiers (param_groups value)
  | YDict d =>
      (fix values (d : list (string * yaml)) : list string :=
         match d with
         | [] => []
         | (_, v) :: r => _find_parameter_refs v ++ values r
         end) d
  | YList l =>
      (fix items (l : list yaml) : list string :=
         match l with
         | [] => []
         | x :: r => _find_parameter_refs x ++ items r
         end) l
  | _ => []
  end.

Section Builder.
(** [hashlib.sha256(s.encode()).hexdigest()] *)
Variable sha256_hexdigest : string -> string.
(** The builtin [str], used by the f-strings. *)
Variable py_str : yaml -> string.

Definition _hash_spec (spec : yaml) : string :=
  let json_str := json_dumps spec in
  PyStr.of_chars (take 16 (PyStr.chars (sha256_hexdigest json_str))).

Inductive error :=
| GraphBuilderError (msg : string)
| PythonError.

Record builder := mkBuilder {
  graph : ModelGraph;
  parameter_names : list string
}.

Definition init : builder := mkBuilder ModelGraphM.empty [].

Definition lift (r : result py_error ModelGraph) (b : builder)
    : result error builder :=
  match r with
  | Ok g => Ok (mkBuilder g (parameter_names b))
  | Raise _ => Raise PythonError
  end.

(** A section of the document: [.items()] needs a mapping. *)
Definition section_items (yaml_data : list (string * yaml)) (key : string)
    : result error (list (string * yaml)) :=
  match Dict.get key yaml_data with
  | None => Ok []
  | Some (YDict d) => Ok d
  | Some _ => Raise PythonError
  end.

Definition new_node (kind : NodeType) (name : string) (spec : yaml)
    (hash : string) (is_pattern : bool) : GraphNode :=
  mkGraphNode (NodeType_value kind +:+ ":" +:+ name) kind name spec
              (Some hash) None true is_pattern [].

Fixpoint _add_parameter_nodes (parameters : list (string * yaml)) (b : builder)
    : result error builder :=
  match parameters with
  | [] => Ok b
  | (param_name, param_value) :: rest =>
      let b := mkBuilder (graph b) (parameter_names b ++ [param_name]) in
      let node := new_node PARAMETER param_name
                    (YDict [("value", param_value)])
                    (_hash_spec param_value) false in
      bind_result (lift (add_node node (graph b)) b)
                  (_add_parameter_nodes rest)
  end.

Fixpoint add_spec_nodes (kind : NodeType) (entries : list (string * yaml))
    (b : builder) : result error builder :=
  match entries with
  | [] => Ok b
  | (name, spec) :: rest =>
      let node := new_node kind name spec (_hash_spec spec) false in
      bind_result (lift (add_node node (graph b)) b)
                  (add_spec_nodes kind rest)
  end.

Definition _add_sketch_nodes := add_spec_nodes SKETCH.
Definition _add_part_nodes := add_spec_nodes PART.
Definition _add_reference_nodes := add_spec_nodes REFERENCE.

Definition pattern_types : list string :=
  ["pattern"; "circular"; "linear"; "grid"].

Fixpoint _add_operation_nodes (operations : list (string * yaml)) (b : builder)
    : result error builder :=
  match operations with
  | [] => Ok b
  | (op_name, op_spec) :: rest =>
      match op_spec with
      | YDict d =>
          let is_pattern :=
            match Dict.get "type" d with
            | Some (YStr t) => MetadataUtils.in_list t pattern_types
            | _ => false
            end in
          let node := new_node OPERATION op_name op_spec
                        (_hash_spec op_spec) is_pattern in
          bind_result (lift (add_node node (graph b)) b)
                      (_add_operation_nodes rest)
      | _ => Raise PythonError
      end
  end.

Definition add_dep (dependent dependency : string) (b : builder)
    : result error builder :=
  lift (add_dependency dependent dependency (graph b)) b.

(** The loop [for ref_param in refs] of the five extraction methods;
    [skip] is the name excluded by [ref_param != param_name]. *)
Fixpoint add_parameter_deps (dependent_id : string) (skip : option string)
    (refs : list string) (b : builder) : result error builder :=
  match refs with
  | [] => Ok b
  | ref_param :: rest =>
      if MetadataUtils.in_list ref_param (parameter_names b)
         && negb (match skip with
                  | Some param_name => String.eqb ref_param param_name
                  | None => false
                  end)
      then bind_result (add_dep dependent_id ("parameter:" +:+ ref_param) b)
                       (add_parameter_deps dependent_id skip rest)
      else add_parameter_deps dependent_id skip rest b
  end.

Fixpoint _extract_parameter_dependencies (parameters : list (string * yaml))
    (b : builder) : result error builder :=
  match parameters with
  | [] => Ok b
  | (param_name, param_value) :: rest =>
      let dependent_id := "parameter:" +:+ param_name in
      let refs := _find_parameter_refs param_value in
      bind_result (add_parameter_deps dependent_id (Some param_name) refs b)
                  (_extract_parameter_dependencies rest)
  end.

Fixpoint _extract_sketch_dependencies (sketches : list (string * yaml))
    (b : builder) : result error builder :=
  match sketches with
  | [] => Ok b
  | (sketch_name, sketch_spec) :: rest =>
      let dependent_id := "sketch:" +:+ sketch_name in
      bind_result (add_parameter_deps dependent_id None
                     (_find_parameter_refs sketch_spec) b)
                  (_extract_sketch_dependencies rest)
  end.

(** ['key' in spec] followed by [spec['key']], for a spec of any type:
    a mapping gives the entry; a string or a list that contains the key
    cannot be indexed by it; a scalar supports neither. *)
Definition lookup_field (key : string) (spec : yaml)
    : result error (option yaml) :=
  match spec with
  | YDict d => Ok (Dict.get key d)
  | YStr s => if PyStr.contains key s then Raise PythonError else Ok None
  | YList l =>
      if existsb (fun x => match x with
                           | YStr s => String.eqb s key
                           | _ => false
                           end) l
      then Raise PythonError else Ok None
  | _ => Raise PythonError
  end.

(** [part_id in self.graph] then [operation_id in self.graph]. *)
Definition add_part_or_operation_dep (dependent_id : string) (part_name : yaml)
    (b : builder) : result error builder :=
  let part_id := "part:" +:+ py_str part_name in
  let operation_id := "operation:" +:+ py_str part_name in
  if contains (graph b) part_id then add_dep dependent_id part_id b
  else if contains (graph b) operation_id then add_dep dependent_id operation_id b
  else Ok b.

Fixpoint _extract_part_dependencies (parts : list (string * yaml)) (b : builder)
    : result error builder :=
  match parts with
  | [] => Ok b
  | (part_name, part_spec) :: rest =>
      let dependent_id := "part:" +:+ part_name in
      bind_result (add_parameter_deps dependent_id None
                     (_find_parameter_refs part_spec) b) (fun b =>
      bind_result (lookup_field "sketch" part_spec) (fun sketch =>
      bind_result
        (match sketch with
         | Some sketch_name =>
             let sketch_id := "sketch:" +:+ py_str sketch_name in
             if contains (graph b) sketch_id
             then add_dep dependent_id sketch_id b
             else Ok b
         | None => Ok b
         end)
        (_extract_part_dependencies rest)))
  end.

(** A value can be put into a [set] unless it is a list or a mapping. *)
Definition hashable (v : yaml) : bool :=
  match v with
  | YList _ | YDict _ => false
  | _ => true
  end.

(** [part_refs.add(op_spec[key])] *)
Definition add_ref (key : string) (op_spec : list (string * yaml))
    (part_refs : list yaml) : result error (list yaml) :=
  match Dict.get key op_spec with
  | Some v => if hashable v then Ok (part_refs ++ [v]) else Raise PythonError
  | None => Ok part_refs
  end.

(** [part_refs.update(op_spec[key])] when the entry is a list. *)
Definition update_refs (key : string) (op_spec : list (string * yaml))
    (part_refs : list yaml) : result error (list yaml) :=
  match Dict.get key op_spec with
  | Some (YList items) =>
      if forallb hashable items then Ok (part_refs ++ items)
      else Raise PythonError
  | _ => Ok part_refs
  end.

(** [_extract_operation_part_refs]; the set is listed in the order in
    which the fields are read. *)
Definition _extract_operation_part_refs (op_spec : list (string * yaml))
    : result error (list yaml) :=
  bind_result (add_ref "input" op_spec []) (fun refs =>
  bind_result (update_refs "inputs" op_spec refs) (fun refs =>
  bind_result (add_ref "base" op_spec refs) (fun refs =>
  bind_result (update_refs "parts" op_spec refs) (fun refs =>
  bind_result (update_refs "subtract" op_spec refs) (fun refs =>
  bind_result (update_refs "union" op_spec refs) (fun refs =>
  add_ref "tool" op_spec refs)))))).

Fixpoint add_part_deps (dependent_id : string) (part_refs : list yaml)
    (b : builder) : result error builder :=
  match part_refs with
  | [] => Ok b
  | part_name :: rest =>
      bind_result (add_part_or_operation_dep dependent_id part_name b)
                  (add_part_deps dependent_id rest)
  end.

Fixpoint _extract_operation_dependencies (operations : list (string * yaml))
    (b : builder) : result error builder :=
  match operations with
  | [] => Ok b
  | (op_name, op_spec) :: rest =>
      let dependent_id := "operation:" +:+ op_name in
      match op_spec with
      | YDict d =>
          bind_result (add_parameter_deps dependent_id None
                         (_find_parameter_refs op_spec) b) (fun b =>
          bind_result (_extract_operation_part_refs d) (fun part_refs =>
          bind_result (add_part_deps dependent_id part_refs b)
                      (_extract_operation_dependencies rest)))
      | _ => Raise PythonError
      end
  end.

Fixpoint _extract_reference_dependencies (references : list (string * yaml))
    (b : builder) : result error builder :=
  match references with
  | [] => Ok b
  | (ref_name, ref_spec) :: rest =>
      let dependent_id := "reference:" +:+ ref_name in
      bind_result (add_parameter_deps dependent_id None
                     (_find_parameter_refs ref_spec) b) (fun b =>
      bind_result (lookup_field "part" ref_spec) (fun part =>
      bind_result
        (match part with
         | Some part_name => add_part_or_operation_dep dependent_id part_name b
         | None => Ok b
         end)
        (_extract_reference_dependencies rest)))
  end.

(** Phases 1 and 2 of [build_graph]. *)
Definition construct (yaml_data : list (string * yaml)) : result error builder :=
  bind_result (section_items yaml_data "parameters") (fun parameters =>
  bind_result (_add_parameter_nodes parameters init) (fun b =>
  bind_result (section_items yaml_data "sketches") (fun sketches =>
  bind_result (_add_sketch_nodes sketches b) (fun b =>
  bind_result (section_items yaml_data "parts") (fun parts =>
  bind_result (_add_part_nodes parts b) (fun b =>
  bind_result (section_items yaml_data "operations") (fun operations =>
  bind_result (_add_operation_nodes operations b) (fun b =>
  bind_result (section_items yaml_data "references") (fun references =>
  bind_result (_add_reference_nodes references b) (fun b =>
  bind_result (_extract_parameter_dependencies parameters b) (fun b =>
  bind_result (_extract_sketch_dependencies sketches b) (fun b =>
  bind_result (_extract_part_dependencies parts b) (fun b =>
  bind_result (_extract_operation_dependencies operations b) (fun b =>
  _extract_reference_dependencies references b)))))))))))))).

Definition circular_message (cycle : list string) : string :=
  "Circular dependency detected: "
  +:+ PyStr.join " -> " (cycle ++ [hd "" cycle]).

(** Phase 3 of [build_graph]. *)
Definition validate (b : builder) : result error ModelGraph :=
  match detect_cycles (graph b) with
  | [] => Ok (graph b)
  | cycle :: _ => Raise (GraphBuilderError (circular_message cycle))
  end.

Definition build_graph (yaml_data : list (string * yaml))
    : result error ModelGraph :=
  bind_result (construct yaml_data) validate.

End Builder.

(** The declaration a node was made from: the raw value for a
    parameter (stored under ["value"] in [spec]), the spec itself for
    the other kinds. *)
Definition declared_spec (n : GraphNode) : yaml :=
  match node_type n, spec n with
  | PARAMETER, YDict [("value", v)] => v
  | _, s => s
  end.

(** Where an edge of a constructed graph comes from: a parameter is
    reached only from another parameter named in its value; every other
    edge ends in a sketch, part, operation or reference. *)
Definition edge_origin (parameters : list (string * yaml)) (u v : string) : Prop :=
  (exists p val r,
      In (p, val) parameters /\ v = "parameter:" +:+ p /\
      u = "parameter:" +:+ r /\ In r (_find_parameter_refs val) /\
      In r (Dict.keys parameters) /\ r <> p)
  \/ PyStr.startswith v "parameter:" = false.

(** The facts kept while the graph is constructed. *)
Definition builder_invariant (NodeOk : GraphNode -> Prop)
    (EdgeOk : string -> string -> Prop) (b : builder) : Prop :=
  wf_graph (ModelGraphM.graph (graph b)) /\
  (forall id n, Dict.get id (nodes (graph b)) = Some n -> NodeOk n) /\
  (forall u v, edge (ModelGraphM.graph (graph b)) u v -> EdgeOk u v).

(** A node as the builder makes them. *)
Definition builder_node (n : GraphNode) : Prop :=
  exists kind name spec hash is_pattern,
    n = new_node kind name spec hash is_pattern.

(** The ids of the nodes made for one section of the document. *)
Definition section_ids (kind : NodeType) (entries : list (string * yaml))
    : list string :=
  map (fun kv => NodeType_value kind +:+ ":" +:+ fst kv) entries.


Definition identity_digest (s : string) : string := s.

Definition doc_chain : list (string * yaml) :=
  [("parameters", YDict [("a", YInt 10); ("b", YStr "${a * 2}");
                         ("c", YStr "${b + a}")]);
   ("parts", YDict [("base", YDict [("primitive", YStr "box");
                                    ("width", YStr "${c}")])]);
   ("operations", YDict [("moved", YDict [("type", YStr "transform");
                                           ("input", YStr "base")])])].

End GraphBuilder.

(** ** [dag/visualizer.py]: roots and leaves *)

Module GraphVisualizer.
Import ModelGraphM.

(** [[nid for nid in graph.nodes if not query(nid)]]: the ids whose
    query result is the empty set; [None] if a query raises. *)
Fixpoint select_empty (query : string -> ModelGraph -> option (gset string))
    (graph : ModelGraph) (ids : list string) : option (list string) :=
  match ids with
  | [] => Some []
  | nid :: rest =>
      match query nid graph with
      | None => None
      | Some s =>
          match select_empty query graph rest with
          | None => None
          | Some l => Some (if decide (s = ∅) then nid :: l else l)
          end
      end
  end.

(** [roots] of [list_roots]: the nodes with no dependencies. *)
Definition roots (graph : ModelGraph) : option (list string) :=
  select_empty get_dependencies graph (Dict.keys (nodes graph)).

(** [leaves] of [list_leaves]: the nodes with no dependents. *)
Definition leaves (graph : ModelGraph) : option (list string) :=
  select_empty get_dependents graph (Dict.keys (nodes graph)).

End GraphVisualizer.

(** ** [selector_resolver.py] *)

Module SelectorResolver.

Inductive FeatureType := FACE | EDGE | VERTEX.

Inductive error :=
| InvalidSimpleSelector (selector : string)
  (* "Invalid simple selector: '...'" *)
| CadQueryError (selector : string)
  (* "CadQuery error with selector '...': ..." *)
| UnsupportedFeatureType
| InvalidAndExpression (selector : string)
| InvalidOrExpression (selector : string)
| BackendFailure.
  (* an exception of the kernel that the resolver does not catch *)

(** [SIMPLE_SELECTOR = ^[><|#][XYZ]$]; [$] also matches before a final
    newline. *)
Definition is_selector_op (c : ascii) : bool :=
  existsb (PyStr.ascii_eqb c) [">"%char; "<"%char; "|"%char; "#"%char].

Definition is_axis (c : ascii) : bool :=
  existsb (PyStr.ascii_eqb c) ["X"%char; "Y"%char; "Z"%char].

Definition matches_simple (selector : string) : bool :=
  match PyStr.chars selector with
  | [o; a] => is_selector_op o && is_axis a
  | [o; a; nl] => is_selector_op o && is_axis a && BooleanBuilder.is_newline nl
  | _ => false
  end.

(** [NOT_COMBINATOR = ^not\s+]: the text after the match, if any. *)
Definition match_not (selector : string) : option string :=
  match PyStr.chars selector with
  | "n"%char :: "o"%char :: "t"%char :: c :: r =>
      if PyStr.is_space c then Some (PyStr.of_chars (PyStr.lstrip_chars r))
      else None
  | _ => None
  end.

(** [re.compile(r'\s+word\s+').split(selector)]; [cur] is the part
    being read, last character first. *)
Fixpoint split_combinator (fuel : nat) (word : list ascii) (l : list ascii)
    (cur : list ascii) : list string :=
  match fuel with
  | O => [PyStr.of_chars (rev cur ++ l)]
  | S fuel' =>
      match l with
      | [] => [PyStr.of_chars (rev cur)]
      | c :: r =>
          if PyStr.is_space c then
            let after_ws := PyStr.lstrip_chars l in
            if PyStr.starts_with_chars word after_ws then
              match drop (length word) after_ws with
              | a :: rest =>
                  if PyStr.is_space a then
                    PyStr.of_chars (rev cur)
                    :: split_combinator fuel' word (PyStr.lstrip_chars (a :: rest)) []
                  else split_combinator fuel' word r (c :: cur)
              | [] => split_combinator fuel' word r (c :: cur)
              end
            else split_combinator fuel' word r (c :: cur)
          else split_combinator fuel' word r (c :: cur)
      end
  end.

Definition split_on (word selector : string) : list string :=
  split_combinator (String.length selector) (PyStr.chars word)
                   (PyStr.chars selector) [].

Definition _has_not (selector : string) : bool :=
  match match_not selector with Some _ => true | None => false end.
Definition _has_and (selector : string) : bool :=
  (1 <? length (split_on "and" selector))%nat.
Definition _has_or (selector : string) : bool :=
  (1 <? length (split_on "or" selector))%nat.

Section Resolver.
(** The features of the kernel: CadQuery faces and edges, hashable and
    compared by the kernel's equality. *)
Context {Feature : Type} `{Countable Feature}.

(** The geometry handed to [SelectorResolver.__init__]:
    [faces sel] is [geometry.faces(sel)] read as a list ([vals()], or
    the single [val()]), [faces None] is [geometry.faces().vals()];
    [edges] likewise.  [None] as result stands for an exception. *)
Record Geometry := mkGeometry {
  faces : option string -> option (list Feature);
  edges : option string -> option (list Feature)
}.

Variable geometry : Geometry.

(** The kernel call for a feature kind; vertices have none. *)
Definition select_features (feature_type : FeatureType) (selector : option string)
    : option (list Feature) :=
  match feature_type with
  | FACE => faces geometry selector
  | EDGE => edges geometry selector
  | VERTEX => None
  end.

Definition _resolve_simple (selector : string) (feature_type : FeatureType)
    : result error (list Feature) :=
  if negb (matches_simple selector) then Raise (InvalidSimpleSelector selector)
  else
    match feature_type with
    | FACE =>
        match faces geometry (Some selector) with
        | Some l => Ok l
        | None => Raise (CadQueryError selector)
        end
    | EDGE =>
        match edges geometry (Some selector) with
        | Some l => Ok l
        | None => Raise (CadQueryError selector)
        end
    | VERTEX => Raise (CadQueryError selector)
    end.

(** [list(set(a) - set(b))] and friends; the order in which Python
    lists a set is not specified, the model lists it as [elements]. *)
Definition set_difference (a b : list Feature) : list Feature :=
  elements ((list_to_set a : gset Feature) ∖ list_to_set b).
Definition set_intersection (a b : list Feature) : list Feature :=
  elements ((list_to_set a : gset Feature) ∩ list_to_set b).
Definition set_union (a b : list Feature) : list Feature :=
  elements ((list_to_set a : gset Feature) ∪ list_to_set b).

Definition all_features (feature_type : FeatureType)
    : result error (list Feature) :=
  match feature_type with
  | FACE =>
      match faces geometry None with
      | Some l => Ok l
      | None => Raise BackendFailure
      end
  | EDGE =>
      match edges geometry None with
      | Some l => Ok l
      | None => Raise BackendFailure
      end
  | VERTEX => Raise UnsupportedFeatureType
  end.

Section Body.
(** The recursive calls of [resolve]. *)
Variable resolve_rec : string -> FeatureType -> option (result error (list Feature)).

Definition _resolve_not (selector : string) (feature_type : FeatureType)
    : option (result error (list Feature)) :=
  let inner_selector :=
    PyStr.strip (match match_not selector with
                 | Some rest => rest
                 | None => selector
                 end) in
  match all_features feature_type with
  | Raise e => Some (Raise e)
  | Ok all =>
      match resolve_rec inner_selector feature_type with
      | None => None
      | Some (Raise e) => Some (Raise e)
      | Some (Ok matching) => Some (Ok (set_difference all matching))
      end
  end.

Definition resolve_pair (word : string) (bad : string -> error)
    (combine : list Feature -> list Feature -> list Feature)
    (selector : string) (feature_type : FeatureType)
    : option (result error (list Feature)) :=
  match split_on word selector with
  | [left_part; right_part] =>
      match resolve_rec (PyStr.strip left_part) feature_type with
      | None => None
      | Some (Raise e) => Some (Raise e)
      | Some (Ok left_results) =>
          match resolve_rec (PyStr.strip right_part) feature_type with
          | None => None
          | Some (Raise e) => Some (Raise e)
          | Some (Ok right_results) => Some (Ok (combine left_results right_results))
          end
      end
  | _ => Some (Raise (bad selector))
  end.

Definition _resolve_and := resolve_pair "and" InvalidAndExpression set_intersection.
Definition _resolve_or := resolve_pair "or" InvalidOrExpression set_union.

Definition resolve_body (selector : string) (feature_type : FeatureType)
    : option (result error (list Feature)) :=
  let selector := PyStr.strip selector in
  if _has_not selector then _resolve_not selector feature_type
  else if _has_and selector then _resolve_and selector feature_type
  else if _has_or selector then _resolve_or selector feature_type
  else Some (_resolve_simple selector feature_type).
End Body.

Fixpoint resolve_fuel (fuel : nat) (selector : string) (feature_type : FeatureType)
    : option (result error (list Feature)) :=
  match fuel with
  | O => None
  | S fuel' => resolve_body (resolve_fuel fuel') selector feature_type
  end.

(** Every recursive call is on a strictly shorter selector. *)
Definition resolve (selector : string) (feature_type : FeatureType)
    : option (result error (list Feature)) :=
  resolve_fuel (S (String.length selector)) selector feature_type.

End Resolver.

(** What the regular expressions and [strip] do with a simple selector
    and with its negation (checked on all twelve below). *)
Definition simple_selector_facts (s : string) : bool :=
  String.eqb (PyStr.strip s) s
  && negb (_has_not s) && negb (_has_and s) && negb (_has_or s)
  && matches_simple s
  && String.eqb (PyStr.strip ("not " +:+ s)) ("not " +:+ s)
  && match match_not ("not " +:+ s) with
     | Some rest => String.eqb (PyStr.strip rest) s
     | None => false
     end.

(** The twelve simple selectors. *)
Definition simple_selectors : list string :=
  [">X"; ">Y"; ">Z"; "<X"; "<Y"; "<Z"; "|X"; "|Y"; "|Z"; "#X"; "#Y"; "#Z"].

(** An operand of a combinator that is one word: no white space, not
    empty and none of the words [not], [and], [or].  Each simple
    selector is one, and so is a misspelt one such as [top]. *)
Definition whitespace_free (s : string) : bool :=
  forallb (fun c => negb (PyStr.is_space c)) (PyStr.chars s).

Definition plain_operand (s : string) : bool :=
  whitespace_free s && negb (existsb (String.eqb s) [""; "not"; "and"; "or"]).

(** A 10 x 10 x 10 box: faces numbered [0..5], [5] the top ([>Z]) and
    [4] the bottom ([<Z]). *)
Definition box_faces (sel : option string) : option (list nat) :=
  match sel with
  | None => Some [0; 1; 2; 3; 4; 5]
  | Some ">Z" => Some [5]
  | Some "<Z" => Some [4]
  | Some _ => None
  end.
Definition box : Geometry := mkGeometry box_faces (fun _ => None).

End SelectorResolver.

(* ===================================================================== *)
(** * Part II: theorems                                                   *)
(* ===================================================================== *)

(** ** Dictionaries *)

Lemma dict_get_set_eq {V} (k : string) (v : V) d :
  Dict.get k (Dict.set k v d) = Some v.
Proof.
  induction d as [|[k' v'] d IH]; simpl.
  - by rewrite String.eqb_refl.
  - destruct (String.eqb k k') eqn:E; simpl.
    + by rewrite String.eqb_refl.
    + by rewrite E.
Qed.

Lemma dict_get_set_ne {V} (k k' : string) (v : V) d :
  k <> k' -> Dict.get k' (Dict.set k v d) = Dict.get k' d.
Proof.
  intros Hne. induction d as [|[k0 v0] d IH]; simpl.
  - destruct (String.eqb k' k) eqn:E; [|done].
    apply String.eqb_eq in E. congruence.
  - destruct (String.eqb k k0) eqn:E; simpl.
    + apply String.eqb_eq in E. subst k0.
      destruct (String.eqb k' k) eqn:E'; [|done].
      apply String.eqb_eq in E'. congruence.
    + by rewrite IH.
Qed.

Lemma dict_get_set {V} (k k' : string) (v : V) d :
  Dict.get k' (Dict.set k v d) = if String.eqb k' k then Some v else Dict.get k' d.
Proof.
  destruct (String.eqb k' k) eqn:E.
  - apply String.eqb_eq in E. subst. apply dict_get_set_eq.
  - apply String.eqb_neq in E. apply dict_get_set_ne. congruence.
Qed.

Lemma dict_mem_get {V} (k : string) (d : list (string * V)) :
  Dict.mem k d = true <-> exists v, Dict.get k d = Some v.
Proof.
  unfold Dict.mem. destruct (Dict.get k d); split; eauto; try done.
  intros [v Hv]. done.
Qed.

Lemma dict_get_app_fresh {V} (k k' : string) (v : V) d :
  Dict.get k d = None ->
  Dict.get k' (d ++ [(k, v)]) = if String.eqb k' k then Some v else Dict.get k' d.
Proof.
  induction d as [|[k0 v0] d IH]; simpl; intros Hk.
  - done.
  - destruct (String.eqb k k0) eqn:E; [done|].
    destruct (String.eqb k' k0) eqn:E'.
    + apply String.eqb_eq in E'. subst k0.
      rewrite String.eqb_sym in E. by rewrite E.
    + by apply IH.
Qed.

(** ** [Part.clone] *)

Section CloneFacts.
Context {Geometry Position : Type}.
Variable utils_get_center : Geometry -> option Position.

(** Whatever the part and the store, a successful [clone] hands out the
    geometry reference of the original and allocates no geometry, while
    metadata and history are fresh objects with the old contents. *)
Lemma clone_fields (self p : PartModel.Part Position) new_name
    (h h' : PartModel.store Geometry Position) :
  PartModel.clone utils_get_center self new_name h = Some (p, h') ->
  PartModel.name p = new_name /\
  PartModel.geometry p = PartModel.geometry self /\
  PartModel.geometries h' = PartModel.geometries h /\
  PartModel.metadata p = length (PartModel.dicts h) /\
  PartModel.dicts h' !! PartModel.metadata p
    = PartModel.dicts h !! PartModel.metadata self /\
  PartModel.transform_history p = length (PartModel.histories h) /\
  PartModel.histories h' !! PartModel.transform_history p
    = PartModel.histories h !! PartModel.transform_history self.
Proof.
  unfold PartModel.clone.
  destruct (PartModel.dicts h !! PartModel.metadata self) as [md|] eqn:Hmd; [|done].
  destruct (PartModel.histories h !! PartModel.transform_history self)
    as [hist|] eqn:Hh; [|done].
  simpl. unfold PartModel.Part_init.
  destruct (PartModel.current_position self) as [pos|].
  - intros [= <- <-]. simpl.
    rewrite !list_lookup_middle by done. done.
  - destruct (PartModel._calculate_center _ _ _ _ _) as [c|]; [|done].
    intros [= <- <-]. simpl.
    rewrite !list_lookup_middle by done. done.
Qed.

Lemma clone_never_duplicates (self p : PartModel.Part Position) new_name
    (h h' : PartModel.store Geometry Position) :
  PartModel.clone utils_get_center self new_name h = Some (p, h') ->
  ~ PartModel.geometry_is_duplicate self p h h'.
Proof.
  intros Hc [Hne _]. apply clone_fields in Hc. tauto.
Qed.
End CloneFacts.

(** C1 (the code departs from the claim).  At the part ["original"] of
    the test fixture, [clone] returns a part whose geometry reference is
    the one of the original: no geometry object is created, so the
    handle is an alias and not a duplicate, and a change made to the
    geometry through the clone is seen through the original.  Metadata
    and transform history are fresh objects with the same contents. *)
Theorem clone_aliases_geometry :
  exists p h',
    PartModel.clone PartModel.box_center PartModel.box_part "copy"
                    PartModel.box_store = Some (p, h') /\
    PartModel.geometry p = PartModel.geometry PartModel.box_part /\
    PartModel.geometries h' = PartModel.geometries PartModel.box_store /\
    ~ PartModel.geometry_is_duplicate PartModel.box_part p PartModel.box_store h' /\
    (forall g, PartModel.geometries
                 (PartModel.set_geometry (PartModel.geometry p) g h')
                 !! PartModel.geometry PartModel.box_part = Some g) /\
    PartModel.metadata p <> PartModel.metadata PartModel.box_part /\
    PartModel.dicts h' !! PartModel.metadata p
      = PartModel.dicts PartModel.box_store
          !! PartModel.metadata PartModel.box_part /\
    PartModel.transform_history p
      <> PartModel.transform_history PartModel.box_part /\
    PartModel.histories h' !! PartModel.transform_history p
      = PartModel.histories PartModel.box_store
          !! PartModel.transform_history PartModel.box_part.
Proof.
  eexists _, _. split; [reflexivity|]. simpl.
  repeat split; try done.
  intros [Hne _]. by apply Hne.
Qed.

(** ** [ModelGraph]: the valid set and the validity flags *)

Section ValidNodes.
Import ModelGraphM.

Lemma add_node_consistent node g g' :
  valid_nodes_consistent g ->
  add_node node g = Ok g' ->
  valid_nodes_consistent g'.
Proof.
  intros Hc. unfold add_node.
  destruct (Dict.mem (node_id node) (nodes g)) eqn:Hmem; [done|].
  intros [= <-]. intros id. simpl.
  rewrite dict_get_set.
  destruct (String.eqb id (node_id node)) eqn:E.
  - apply String.eqb_eq in E. subst id.
    destruct (is_valid node) eqn:Hv.
    + split; [eauto|set_solver].
    + split.
      * intros Hin. apply Hc in Hin as (n & Hn & _).
        assert (Dict.mem (node_id node) (nodes g) = true)
          by (apply dict_mem_get; eauto).
        congruence.
      * intros (n & [= <-] & Hn). congruence.
  - apply String.eqb_neq in E.
    destruct (is_valid node); [|apply Hc].
    rewrite elem_of_union, elem_of_singleton. rewrite <- (Hc id). tauto.
Qed.

Lemma mark_invalid_consistent id g :
  valid_nodes_consistent g -> valid_nodes_consistent (mark_invalid id g).
Proof.
  intros Hc. unfold mark_invalid.
  destruct (Dict.get id (nodes g)) as [n|] eqn:Hn; [|done].
  intros id'. simpl. rewrite dict_get_set.
  rewrite elem_of_difference, elem_of_singleton.
  destruct (String.eqb id' id) eqn:E.
  - apply String.eqb_eq in E. subst id'. split; [tauto|].
    intros (n' & [= <-] & Hv). done.
  - apply String.eqb_neq in E. rewrite (Hc id'). tauto.
Qed.

Lemma mark_valid_consistent id ts now g :
  valid_nodes_consistent g -> valid_nodes_consistent (mark_valid id ts now g).
Proof.
  intros Hc. unfold mark_valid.
  destruct (Dict.get id (nodes g)) as [n|] eqn:Hn; [|done].
  intros id'. simpl. rewrite dict_get_set.
  rewrite elem_of_union, elem_of_singleton.
  destruct (String.eqb id' id) eqn:E.
  - apply String.eqb_eq in E. subst id'. split; [|tauto].
    intros _. eauto.
  - apply String.eqb_neq in E. rewrite (Hc id'). tauto.
Qed.

Lemma apply_op_consistent g op :
  valid_nodes_consistent g -> valid_nodes_consistent (apply_op g op).
Proof.
  intros Hc. destruct op as [node|id|id ts now]; simpl.
  - destruct (add_node node g) as [g'|e] eqn:Ha; [|done].
    by eapply add_node_consistent.
  - by apply mark_invalid_consistent.
  - by apply mark_valid_consistent.
Qed.

Lemma run_ops_consistent ops g :
  valid_nodes_consistent g -> valid_nodes_consistent (run_ops ops g).
Proof.
  unfold run_ops. revert g.
  induction ops as [|op ops IH]; intros g Hc; simpl; [done|].
  apply IH. by apply apply_op_consistent.
Qed.

Lemma empty_consistent : valid_nodes_consistent empty.
Proof.
  intros id. simpl. split; [set_solver|]. intros (n & Hn & _). done.
Qed.

(** C10.  From a new [ModelGraph], after any sequence of [add_node],
    [mark_invalid] and [mark_valid] calls, [valid_nodes] is exactly the
    set of ids whose stored node has [is_valid] set.  On such a graph
    [mark_invalid] takes the id out of the set and clears the flag of
    the node (if there is one); [mark_valid] puts the id of an existing
    node into the set, sets its flag and stamps [last_built] with the
    given time, or with the clock when the given time is missing or
    zero. *)
Theorem valid_nodes_matches_flags (ops : list graph_op) :
  let g := run_ops ops empty in
  valid_nodes_consistent g /\
  (forall id,
     let g' := mark_invalid id g in
     (id ∉ valid_nodes g') /\
     is_valid <$> Dict.get id (nodes g')
       = (fun _ => false) <$> Dict.get id (nodes g)) /\
  (forall id ts now,
     let g' := mark_valid id ts now g in
     let stamp := match ts with
                  | Some t => if float_truthy t then t else now
                  | None => now
                  end in
     (id ∈ valid_nodes g' <-> is_Some (Dict.get id (nodes g))) /\
     is_valid <$> Dict.get id (nodes g')
       = (fun _ => true) <$> Dict.get id (nodes g) /\
     last_built <$> Dict.get id (nodes g')
       = (fun _ => Some stamp) <$> Dict.get id (nodes g)).
Proof.
  intros g.
  assert (Hc : valid_nodes_consistent g)
    by (apply run_ops_consistent, empty_consistent).
  split; [exact Hc|]. split.
  - intros id g'. subst g'. unfold mark_invalid.
    destruct (Dict.get id (nodes g)) as [n|] eqn:Hn; simpl.
    + rewrite dict_get_set_eq. split; [set_solver|done].
    + rewrite Hn. split; [|done].
      intros Hin. apply Hc in Hin as (n & Hn' & _). congruence.
  - intros id ts now g' stamp. subst g'. unfold mark_valid.
    destruct (Dict.get id (nodes g)) as [n|] eqn:Hn; simpl.
    + rewrite dict_get_set_eq. simpl. split; [|done].
      split; [eauto|set_solver].
    + rewrite Hn. simpl. split; [|done].
      split.
      * intros Hin. apply Hc in Hin as (n & Hn' & _). congruence.
      * intros [x Hx]. done.
Qed.
End ValidNodes.

(** ** Metadata propagation *)

Section Metadata.
Import MetadataUtils.

Lemma copy_keys_get keys source result k :
  Dict.get k (copy_keys keys source result)
  = if in_list k keys then
      match Dict.get k source with
      | Some v => Some v
      | None => Dict.get k result
      end
    else Dict.get k result.
Proof.
  revert result. induction keys as [|key keys IH]; intros result; simpl; [done|].
  unfold in_list in *. simpl.
  destruct (String.eqb k key) eqn:E; simpl.
  - apply String.eqb_eq in E. subst key.
    destruct (Dict.get k source) as [v|] eqn:Hs.
    + rewrite IH. rewrite dict_get_set_eq. by destruct (existsb _ _).
    + rewrite IH. by destruct (existsb _ _).
  - destruct (Dict.get key source) as [v|] eqn:Hs; rewrite IH.
    + rewrite dict_get_set_ne; [done|].
      apply String.eqb_neq in E. congruence.
    + done.
Qed.

Lemma dict_update_get (d e : list (string * yaml)) k :
  NoDup (Dict.keys e) ->
  Dict.get k (Dict.update d e)
  = match Dict.get k e with
    | Some v => Some v
    | None => Dict.get k d
    end.
Proof.
  unfold Dict.update, Dict.keys. revert d.
  induction e as [|[k' v'] e IH]; intros d Hnd; simpl; [done|].
  inversion Hnd as [|? ? Hnotin Hnd']; subst.
  rewrite IH by done.
  destruct (String.eqb k k') eqn:E.
  - apply String.eqb_eq in E. subst k'.
    assert (Dict.get k e = None) as ->.
    { clear -Hnotin. induction e as [|[k0 v0] e IH]; simpl in *; [done|].
      destruct (String.eqb k k0) eqn:E.
      - apply String.eqb_eq in E. subst. exfalso. apply Hnotin. by left.
      - apply IH. intros Hin. apply Hnotin. by right. }
    apply dict_get_set_eq.
  - destruct (Dict.get k e); [done|].
    apply dict_get_set_ne. apply String.eqb_neq in E. congruence.
Qed.

(** What [copy_propagating_metadata] binds a key to: the override if
    there is one; else, for an appearance key present in the source, the
    source's value; else the operation-specific value. *)
Lemma copy_propagating_metadata_get source target overrides k :
  NoDup (Dict.keys (default [] overrides)) ->
  Dict.get k (copy_propagating_metadata source target overrides)
  = match overrides ≫= Dict.get k with
    | Some v => Some v
    | None =>
        if in_list k PROPAGATING_METADATA then
          match source ≫= Dict.get k with
          | Some v => Some v
          | None => Dict.get k target
          end
        else Dict.get k target
    end.
Proof.
  intros Hnd. unfold copy_propagating_metadata.
  set (r := match source with
            | Some ((_ :: _) as src) => copy_keys PROPAGATING_METADATA src target
            | _ => target
            end).
  assert (Hr : Dict.get k r
               = if in_list k PROPAGATING_METADATA then
                   match source ≫= Dict.get k with
                   | Some v => Some v
                   | None => Dict.get k target
                   end
                 else Dict.get k target).
  { subst r. destruct source as [[|kv src]|].
    - destruct (in_list k PROPAGATING_METADATA); reflexivity.
    - apply copy_keys_get.
    - destruct (in_list k PROPAGATING_METADATA); reflexivity. }
  destruct overrides as [[|kv ov]|]; try exact Hr.
  fold r. rewrite (dict_update_get r (kv :: ov) k Hnd).
  change (Some (kv :: ov) ≫= Dict.get k) with (Dict.get k (kv :: ov)).
  destruct (Dict.get k (kv :: ov)); [done|]. exact Hr.
Qed.
End Metadata.

Section BooleanMetadata.
Import PartModel BooleanBuilder.
Context {Geometry Position : Type}.
Variable utils_get_center : Geometry -> option Position.
Variables geom_union geom_cut geom_intersect : Geometry -> Geometry -> option Geometry.
Variable simple_eval : string -> list (string * yaml) -> ParameterResolver.eval_outcome.
Variable py_str : yaml -> string.
Variable fuel : nat.

Local Abbreviation builder := (BooleanBuilder.builder Geometry Position).
Local Abbreviation execute_body :=
  (BooleanBuilder.execute_body Geometry Position utils_get_center
     geom_union geom_cut geom_intersect py_str).
Local Abbreviation execute_boolean_operation :=
  (BooleanBuilder.execute_boolean_operation Geometry Position utils_get_center
     geom_union geom_cut geom_intersect simple_eval py_str fuel).

Lemma registry_exists_ok (b : builder) x found :
  registry_exists _ _ b x = Ok found ->
  match x with
  | YStr s => found = Dict.mem s (registry _ _ b)
  | _ => found = false
  end.
Proof. destruct x; simpl; intros [= <-]; done. Qed.

(** The source chosen by the code is the one the specification names. *)
Lemma source_part_specified (b : builder) operation resolved_spec src :
  source_part _ _ b operation resolved_spec = Ok src ->
  src = specified_source (registry _ _ b) operation resolved_spec.
Proof.
  unfold source_part, specified_source.
  assert (Hbase :
    match Dict.get "base" resolved_spec with
    | Some base_name =>
        bind_result (registry_exists _ _ b base_name)
          (fun found =>
             match base_name with
             | YStr base => Ok (if found then Dict.get base (registry _ _ b) else None)
             | _ => Ok None
             end)
    | None => Ok None
    end = Ok src ->
    src = match Dict.get "base" resolved_spec with
          | Some (YStr part_name) => Dict.get part_name (registry _ _ b)
          | _ => None
          end).
  { destruct (Dict.get "base" resolved_spec) as [base|]; [|by intros [= <-]].
    destruct (registry_exists _ _ b base) as [found|e] eqn:Hex; simpl; [|done].
    apply registry_exists_ok in Hex.
    destruct base; intros [= <-]; try done.
    subst found. unfold Dict.mem.
    by destruct (Dict.get s (registry _ _ b)). }
  destruct operation as [| | | |s| |]; try (by intros [= <-]).
  repeat (destruct s as [|[[] [] [] [] [] [] [] []] s];
          try (by intros [= <-]); try exact Hbase).
  destruct (Dict.get "inputs" resolved_spec) as [[| | | | |[|first l]|]|];
    try (by intros [= <-]).
  destruct first; try (by intros [= <-]).
  destruct (PyStr.contains_char "*" s); simpl; by intros [= <-].
Qed.

Lemma execute_body_metadata (b b' : builder) name operation resolved_spec :
  execute_body b name operation resolved_spec = Ok b' ->
  exists p,
    Dict.get name (registry _ _ b) = None /\
    registry _ _ b' = registry _ _ b ++ [(name, p)] /\
    PartModel.name p = name /\
    metadata_of _ _ b' name
    = Some (MetadataUtils.copy_propagating_metadata
              (specified_source (registry _ _ b) operation resolved_spec
                 ≫= fun s => dicts (objects _ _ b) !! metadata s)
              [("operation_type", YStr "boolean"); ("boolean_op", operation)]
              None).
Proof.
  unfold BooleanBuilder.execute_body.
  match goal with |- bind_result ?G _ = _ -> _ => destruct G as [geom|e] end;
    simpl; [|done].
  destruct (source_part _ _ b operation resolved_spec) as [src|e] eqn:Hsrc;
    simpl; [|done].
  apply source_part_specified in Hsrc. subst src.
  set (src_md := match specified_source _ _ _ with
                 | Some p => dicts (objects _ _ b) !! metadata p
                 | None => None
                 end).
  unfold Part_init, _calculate_center. simpl.
  rewrite list_lookup_middle by done.
  destruct (utils_get_center geom) as [c|]; [|done].
  destruct (Dict.mem name (registry _ _ b)) eqn:Hmem; [done|].
  intros [= <-]. eexists. split.
  { unfold Dict.mem in Hmem. by destruct (Dict.get name _). }
  split; [done|]. split; [done|].
  unfold metadata_of. simpl.
  rewrite dict_get_app_fresh, String.eqb_refl.
  2:{ unfold Dict.mem in Hmem. by destruct (Dict.get name _). }
  simpl. rewrite list_lookup_middle by done.
  unfold boolean_target, src_md.
  by destruct (specified_source _ _ _).
Qed.

(** C7.  (1) [copy_propagating_metadata] yields the operation-specific
    entries together with the appearance keys (color, material,
    transparency, texture, finish) that the source has, an explicit
    override winning over both.  (2) Whenever a boolean operation
    registers a new part, the metadata of that part is this combination
    for the entries [operation_type = boolean], [boolean_op = operation]
    and the source the specification names: the part called [base] for a
    difference or an intersection, the first input for a union, and no
    source (appearance left at its defaults) when that first input is a
    wildcard. *)
Theorem boolean_metadata_propagation :
  (forall source target overrides k,
     NoDup (Dict.keys (default [] overrides)) ->
     Dict.get k (MetadataUtils.copy_propagating_metadata source target overrides)
     = match overrides ≫= Dict.get k with
       | Some v => Some v
       | None =>
           if MetadataUtils.in_list k ["color"; "material"; "transparency";
                                       "texture"; "finish"] then
             match source ≫= Dict.get k with
             | Some v => Some v
             | None => Dict.get k target
             end
           else Dict.get k target
       end) /\
  (forall name spec (b b' : builder),
     execute_boolean_operation name spec b = Some (Ok b') ->
     exists resolved_spec operation r' p,
       ParameterResolver.resolve_value simple_eval py_str fuel (YDict spec)
         (resolver _ _ b) = Some (Ok (YDict resolved_spec), r') /\
       Dict.get "operation" resolved_spec = Some operation /\
       registry _ _ b' = registry _ _ b ++ [(name, p)] /\
       metadata_of _ _ b' name
       = Some (MetadataUtils.copy_propagating_metadata
                 (specified_source (registry _ _ b) operation resolved_spec
                    ≫= fun s => dicts (objects _ _ b) !! metadata s)
                 [("operation_type", YStr "boolean"); ("boolean_op", operation)]
                 None)).
Proof.
  split; [apply copy_propagating_metadata_get|].
  intros name spec b b'. unfold BooleanBuilder.execute_boolean_operation.
  destruct (ParameterResolver.resolve_value _ _ _ _ _) as [[[v|e] r']|] eqn:Hres;
    try done.
  destruct v as [| | | | | |resolved_spec]; try done.
  destruct (Dict.get "operation" resolved_spec) as [operation|] eqn:Hop; [|done].
  destruct (BooleanBuilder.execute_body _ _ _ _ _ _ _ _ _ _ _) as [b1|[k|]] eqn:Hbody;
    try done.
  intros [= <-].
  apply execute_body_metadata in Hbody as (p & _ & Hreg & _ & Hmd).
  exists resolved_spec, operation, r', p. simpl in *. done.
Qed.
End BooleanMetadata.

(** A difference with a wildcard in [subtract] takes the color of its
    base and nothing else from it. *)
Lemma boolean_metadata_propagation_witness :
  NoDup (Dict.keys (default [] (Some [("color", YStr "green")]))) /\
  Dict.get "color"
    (MetadataUtils.copy_propagating_metadata
       (Some [("color", YStr "red")]) [("operation_type", YStr "boolean")]
       (Some [("color", YStr "green")]))
  = Some (YStr "green") /\
  exists b',
    BooleanBuilder.ex_execute "drilled" BooleanBuilder.ex_difference
      BooleanBuilder.ex_builder = Some (Ok b') /\
    BooleanBuilder.metadata_of _ _ b' "drilled"
    = Some [("operation_type", YStr "boolean");
            ("boolean_op", YStr "difference"); ("color", YStr "red")].
Proof.
  assert (Hnd : NoDup (Dict.keys (default [] (Some [("color", YStr "green")])))).
  { simpl. repeat constructor. intros Hin. inversion Hin. }
  split; [exact Hnd|]. split.
  - rewrite (proj1 (boolean_metadata_propagation
                      BooleanBuilder.ex_center
                      (BooleanBuilder.ex_combine "|")
                      (BooleanBuilder.ex_combine "-")
                      (BooleanBuilder.ex_combine "&")
                      ArithEval.simple_eval ArithEval.py_str 1)
               (Some [("color", YStr "red")]) [("operation_type", YStr "boolean")]
               (Some [("color", YStr "green")]) "color" Hnd).
    reflexivity.
  - destruct (BooleanBuilder.ex_execute "drilled" BooleanBuilder.ex_difference
                BooleanBuilder.ex_builder) as [[b'|e]|] eqn:Hex;
      try (vm_compute in Hex; discriminate).
    exists b'. split; [reflexivity|].
    destruct (proj2 (boolean_metadata_propagation
                       BooleanBuilder.ex_center
                       (BooleanBuilder.ex_combine "|")
                       (BooleanBuilder.ex_combine "-")
                       (BooleanBuilder.ex_combine "&")
                       ArithEval.simple_eval ArithEval.py_str 1)
                "drilled" BooleanBuilder.ex_difference
                BooleanBuilder.ex_builder b' Hex)
      as (rs & op & r' & p & Hres & Hop & Hreg & Hmd).
    rewrite Hmd. vm_compute in Hres.
    injection Hres as <- <-. vm_compute in Hop. injection Hop as <-.
    reflexivity.
Defined.

(** ** The order on strings *)

Section StringOrder.
Import PyStr.





Lemma chars_inj s t : chars s = chars t -> s = t.
Proof.
  unfold chars. intros Heq.
  rewrite <- (string_of_list_ascii_of_string s),
          <- (string_of_list_ascii_of_string t).
  by rewrite Heq.
Qed.



End StringOrder.

(** ** Wildcards in part lists *)

Section Wildcards.
Import BooleanBuilder.



Lemma insert_sorted_perm prefix x l :
  Permutation (insert_sorted prefix x l) (x :: l).
Proof.
  induction l as [|y l IH]; simpl; [done|].
  destruct (key_le _ _); [done|].
  rewrite IH. apply perm_swap.
Qed.

Lemma sorted_by_key_perm prefix l : Permutation (sorted_by_key prefix l) l.
Proof.
  induction l as [|x l IH]; simpl; [done|].
  rewrite insert_sorted_perm. by constructor.
Qed.



Lemma remove_char_no_star item :
  PyStr.contains_char "*" (PyStr.remove_char "*" item) = false.
Proof.
  unfold PyStr.contains_char, PyStr.remove_char, PyStr.chars, PyStr.of_chars.
  rewrite list_ascii_of_string_of_list_ascii.
  induction (list_ascii_of_string item) as [|c l IH]; simpl; [done|].
  destruct (PyStr.ascii_eqb "*" c) eqn:E; simpl; [done|].
  by rewrite E.
Qed.

Lemma chars_append s t : PyStr.chars (s +:+ t) = PyStr.chars s ++ PyStr.chars t.
Proof.
  unfold PyStr.chars. induction s as [|c s IH]; simpl; [done|]. by rewrite IH.
Qed.

Lemma filter_no_star l :
  existsb (PyStr.ascii_eqb "*") l = false ->
  List.filter (fun a => negb (PyStr.ascii_eqb "*" a)) l = l.
Proof.
  induction l as [|c l IH]; simpl; [done|].
  destruct (PyStr.ascii_eqb "*" c); simpl; [done|].
  intros Hl. by rewrite IH.
Qed.

(** Both [prefix*] and [*text] leave the text without the star, which
    is then used as a prefix. *)
Lemma remove_char_star_shapes p :
  PyStr.contains_char "*" p = false ->
  PyStr.remove_char "*" (p +:+ "*") = p /\
  PyStr.remove_char "*" ("*" +:+ p) = p.
Proof.
  unfold PyStr.contains_char, PyStr.remove_char. intros Hp.
  rewrite !chars_append. split.
  - rewrite List.filter_app, filter_no_star by done. simpl.
    rewrite app_nil_r. apply string_of_list_ascii_of_string.
  - simpl. rewrite filter_no_star by done.
    apply string_of_list_ascii_of_string.
Qed.



Example hole_wildcard_example :
  expand_item ArithEval.py_str ["plate"; "hole_10"; "hole_2"; "hole_x"; "hole_1"]
              (YStr "hole_*")
  = Ok ["hole_1"; "hole_2"; "hole_10"; "hole_x"].
Proof. reflexivity. Qed.

End Wildcards.

(** ** Walks and elementary cycles of a [DiGraph] *)

Section Cycles.
Import ModelGraphM.
Variable g : DiGraph.

Lemma existsb_eqb_In (x : string) (l : list string) :
  existsb (String.eqb x) l = true <-> In x l.
Proof.
  rewrite existsb_exists. split.
  - intros (y & Hy & Heq). apply String.eqb_eq in Heq. by subst.
  - intros Hin. exists x. by rewrite String.eqb_refl.
Qed.

Lemma successors_edge v w : In w (successors g v) <-> edge g v w.
Proof.
  unfold successors, edge. rewrite in_map_iff. split.
  - intros ([u w'] & Hw & Hin). simpl in Hw. subst w'.
    apply List.filter_In in Hin as [Hin Hu]. simpl in Hu.
    apply String.eqb_eq in Hu. by subst.
  - intros Hin. exists (v, w). split; [done|].
    apply List.filter_In. split; [done|]. simpl. apply String.eqb_refl.
Qed.

Lemma walk_app u l1 x l2 v :
  walk g u (l1 ++ x :: l2) v <-> walk g u l1 x /\ walk g x l2 v.
Proof.
  revert u. induction l1 as [|y l1 IH]; intros u; simpl; [done|].
  rewrite IH. tauto.
Qed.

Lemma last_cons_default {A} (x : A) l d d' :
  List.last (x :: l) d = List.last (x :: l) d'.
Proof.
  revert x. induction l as [|y l IH]; intros x; [done|].
  change (List.last (y :: l) d = List.last (y :: l) d'). apply IH.
Qed.

Lemma path_walk r u t :
  is_path g (u :: r) -> edge g (List.last (u :: r) u) t -> walk g u r t.
Proof.
  revert u. induction r as [|x r IH]; intros u.
  - simpl. intros _ He. exact He.
  - intros [Hux Hp] Hlast. split; [done|]. apply IH; [done|].
    change (List.last (u :: x :: r) u) with (List.last (x :: r) u) in Hlast.
    by rewrite (last_cons_default x r x u).
Qed.

Lemma is_path_snoc l v w :
  is_path g (l ++ [v]) -> edge g v w -> is_path g ((l ++ [v]) ++ [w]).
Proof.
  induction l as [|x l IH]; simpl; intros Hp He; [done|].
  destruct l as [|y l]; simpl in *.
  - tauto.
  - destruct Hp as [Hxy Hp]. split; [done|]. by apply IH.
Qed.

(** Soundness of the search: whatever it reports is an elementary
    cycle that starts at [s]. *)
Lemma cycles_through_sound allowed s fuel path v c :
  is_path g (rev (v :: path)) ->
  List.NoDup (v :: path) ->
  hd_error (rev (v :: path)) = Some s ->
  In c (cycles_through g allowed s fuel path v) ->
  elementary_cycle g c /\ hd_error c = Some s.
Proof.
  revert path v. induction fuel as [|fuel IH]; intros path v Hp Hnd Hhd;
    [intros []|].
  cbn [cycles_through]. rewrite in_flat_map. intros (w & Hw & Hc). apply successors_edge in Hw.
  destruct (String.eqb w s) eqn:Hws.
  - apply String.eqb_eq in Hws. subst w.
    apply in_inv in Hc. destruct Hc as [<-|Hc]; [|inversion Hc].
    split; [|done].
    destruct (rev (v :: path)) as [|s' r] eqn:Hrev; [done|].
    injection Hhd as ->. split.
    + rewrite <- Hrev. apply List.NoDup_rev. done.
    + apply path_walk; [done|].
      assert (List.last (s :: r) s = v) as ->; [|done].
      rewrite <- Hrev. simpl. apply last_last.
  - destruct (existsb (String.eqb w) allowed &&
              negb (existsb (String.eqb w) (v :: path))) eqn:Hok; [|done].
    apply andb_true_iff in Hok as [_ Hfresh].
    apply negb_true_iff in Hfresh.
    eapply IH; [| | |exact Hc].
    + change (rev (w :: v :: path)) with (rev (v :: path) ++ [w]).
      simpl rev at 1. apply is_path_snoc; [|done]. exact Hp.
    + constructor; [|done]. intros Hin.
      apply existsb_eqb_In in Hin. congruence.
    + change (rev (w :: v :: path)) with (rev (v :: path) ++ [w]).
      destruct (rev (v :: path)); [done|]. done.
Qed.

Lemma cycles_in_sound nodes c :
  In c (cycles_in g nodes) -> elementary_cycle g c.
Proof.
  induction nodes as [|s rest IH]; [intros []|].
  cbn [cycles_in]. rewrite in_app_iff. intros [Hc|Hc]; [|by apply IH].
  eapply cycles_through_sound in Hc; [tauto| | |]; simpl; try done.
  constructor; [|constructor]. intros Hin. inversion Hin.
Qed.

Lemma elementary_cycle_has_cycle c : elementary_cycle g c -> has_cycle g.
Proof.
  destruct c as [|s r]; simpl; [done|]. intros [_ Hw]. by exists s, r.
Qed.



(** Every walk can be cut down to one without repeated nodes. *)
Lemma walk_shorten u l v :
  walk g u l v ->
  exists l', walk g u l' v /\ List.NoDup l' /\ ~ In u l' /\ ~ In v l' /\ incl l' l.
Proof.
  revert u. induction l as [|x l IH]; intros u; simpl.
  - intros He. exists [].
    split_and!; [done|constructor|intros []|intros []|by intros y []].
  - intros [Hux Hw]. destruct (IH x Hw) as (r & Hr & Hnd & Hxr & Hvr & Hincl).
    destruct (decide (x = v)) as [->|Hxv].
    { exists [].
      split_and!; [done|constructor|intros []|intros []|by intros y []]. }
    destruct (decide (x = u)) as [->|Hxu].
    { exists r. split_and!; try done. by apply incl_tl. }
    destruct (in_dec string_dec u r) as [Hur|Hur].
    + apply in_split in Hur as (a & b & ->).
      apply walk_app in Hr as [_ Hb].
      exists b. apply NoDup_app_remove_l in Hnd as Hnd'.
      inversion Hnd' as [|? ? Hub Hndb]; subst.
      split_and!; try done.
      * intros Hin. apply Hvr. apply in_or_app. right. by right.
      * intros y Hy. right. apply Hincl. apply in_or_app. right. by right.
    + exists (x :: r). split_and!.
      * by split.
      * by constructor.
      * intros [?|?]; [congruence|done].
      * intros [?|?]; [congruence|done].
      * intros y [->|Hy]; [by left|right; by apply Hincl].
Qed.

Lemma flat_map_nonempty {A B} (f : A -> list B) (l : list A) x :
  In x l -> f x <> [] -> flat_map f l <> [].
Proof.
  intros Hin Hf Hnil. destruct (f x) as [|y ys] eqn:Hfx; [done|].
  assert (In y (flat_map f l)) as Hy.
  { apply in_flat_map. exists x. split; [done|]. rewrite Hfx. by left. }
  rewrite Hnil in Hy. inversion Hy.
Qed.

(** Completeness of the search: a simple way back to [s] through
    allowed nodes off the current walk is found. *)
Lemma cycles_through_complete allowed s l :
  forall fuel path v,
    walk g v l s ->
    List.NoDup l ->
    incl l allowed ->
    (forall x, In x l -> ~ In x (v :: path)) ->
    ~ In s l ->
    length l < fuel ->
    cycles_through g allowed s fuel path v <> [].
Proof.
  induction l as [|x l IH]; intros fuel path v Hw Hnd Hal Hdis Hs Hfuel;
    (destruct fuel as [|fuel]; [simpl in Hfuel; lia|]); cbn [cycles_through].
  - simpl in Hw. apply flat_map_nonempty with (x := s).
    + by apply successors_edge.
    + by rewrite String.eqb_refl.
  - simpl in Hw. destruct Hw as [Hvx Hw].
    apply flat_map_nonempty with (x := x); [by apply successors_edge|].
    assert (String.eqb x s = false) as ->.
    { apply String.eqb_neq. intros ->. apply Hs. by left. }
    assert (existsb (String.eqb x) allowed = true) as ->.
    { apply existsb_eqb_In. apply Hal. by left. }
    assert (existsb (String.eqb x) (v :: path) = false) as ->.
    { apply not_true_iff_false. rewrite existsb_eqb_In. apply Hdis. by left. }
    simpl. inversion Hnd as [|? ? Hxl Hnd']; subst.
    apply IH; try done.
    + intros y Hy. apply Hal. by right.
    + intros y Hy [->|Hin]; [done|]. eapply Hdis; [right; exact Hy|done].
    + intros Hin. apply Hs. by right.
    + simpl in Hfuel. lia.
Qed.

Lemma cycles_in_complete nodes :
  (exists v l, walk g v l v /\ incl (v :: l) nodes) ->
  cycles_in g nodes <> [].
Proof.
  induction nodes as [|s rest IH]; intros (v & l & Hw & Hincl).
  - exfalso. apply (Hincl v). by left.
  - cbn [cycles_in]. destruct (in_dec string_dec s (v :: l)) as [Hin|Hout].
    + (* the cycle passes through [s]: turn it so that it starts there *)
      assert (exists l', walk g s l' s /\ incl l' (s :: rest)) as (l' & Hw' & Hincl').
      { destruct Hin as [->|Hin].
        - exists l. split; [done|]. intros y Hy. apply Hincl. by right.
        - apply in_split in Hin as (l1 & l2 & ->).
          apply walk_app in Hw as [H1 H2].
          exists (l2 ++ v :: l1). split; [by apply walk_app|].
          intros y Hy. apply Hincl.
          apply in_app_iff in Hy as [Hy|[->|Hy]].
          + right. apply in_or_app. right. by right.
          + by left.
          + right. apply in_or_app. by left. }
      destruct (walk_shorten _ _ _ Hw') as (r & Hr & Hnd & Hsr & _ & Hrl).
      assert (incl r rest) as Hrest.
      { intros y Hy. destruct (Hincl' y (Hrl y Hy)) as [->|?]; [done|done]. }
      intros Hnil. apply app_eq_nil in Hnil as [Hnil _]. revert Hnil.
      apply cycles_through_complete with (l := r); try done.
      * intros y Hy [->|[]]. done.
      * apply Nat.lt_succ_r. by apply NoDup_incl_length.
    + intros Hnil. apply app_eq_nil in Hnil as [_ Hnil]. revert Hnil.
      apply IH. exists v, l. split; [done|].
      intros y Hy. destruct (Hincl y Hy) as [->|?]; [done|done].
Qed.

Lemma walk_nodes u l v :
  wf_graph g -> walk g u l v -> incl (u :: l) (g_nodes g) /\ In v (g_nodes g).
Proof.
  intros Hwf. revert u. induction l as [|x l IH]; intros u; simpl.
  - intros He. apply Hwf in He as [Hu Hv]. split; [|done].
    intros y [->|[]]. done.
  - intros [He Hw]. apply Hwf in He as [Hu _].
    destruct (IH x Hw) as [Hincl Hv]. split; [|done].
    intros y [->|Hy]; [done|]. by apply Hincl.
Qed.

(** [simple_cycles] reports elementary cycles only, and reports one
    whenever the graph has a cycle. *)
Lemma simple_cycles_sound c :
  In c (simple_cycles g) -> elementary_cycle g c.
Proof. apply cycles_in_sound. Qed.

Lemma simple_cycles_complete :
  wf_graph g -> has_cycle g -> simple_cycles g <> [].
Proof.
  intros Hwf (v & l & Hw). apply cycles_in_complete.
  exists v, l. split; [done|]. by apply (walk_nodes v l v Hwf).
Qed.

Lemma simple_cycles_empty_iff :
  wf_graph g -> (simple_cycles g = [] <-> ~ has_cycle g).
Proof.
  intros Hwf. split.
  - intros Hnil Hc. by apply simple_cycles_complete in Hc.
  - intros Hno. destruct (simple_cycles g) as [|c cs] eqn:Hs; [done|].
    exfalso. apply Hno. apply (elementary_cycle_has_cycle c).
    apply simple_cycles_sound. rewrite Hs. by left.
Qed.
End Cycles.

(** ** Constructing the graph: what every step keeps *)

Section GraphConstruction.
Import ModelGraphM GraphBuilder.

Lemma nx_add_node_nodes n g x :
  In x (g_nodes (nx_add_node n g)) <-> In x (g_nodes g) \/ x = n.
Proof.
  unfold nx_add_node. destruct (has_node g n) eqn:Hn; simpl.
  - unfold has_node in Hn. apply existsb_eqb_In in Hn.
    split; [tauto|]. intros [?| ->]; done.
  - rewrite in_app_iff. simpl. split; intros [?|?]; try tauto.
    + destruct H as [<-|[]]. by right.
    + subst. right. by left.
Qed.

Lemma nx_add_node_edges n g : g_edges (nx_add_node n g) = g_edges g.
Proof. unfold nx_add_node. by destruct (has_node g n). Qed.

Lemma nx_add_edge_edges u v g e :
  In e (g_edges (nx_add_edge u v g)) <-> In e (g_edges g) \/ e = (u, v).
Proof.
  unfold nx_add_edge.
  destruct (has_edge _ u v) eqn:He; simpl; rewrite ?nx_add_node_edges.
  - split; [tauto|]. intros [?| ->]; [done|].
    unfold has_edge in He. apply existsb_exists in He as ([a b] & Hin & Heq).
    unfold edge_eqb in Heq. simpl in Heq.
    apply andb_true_iff in Heq as [Ha Hb].
    apply String.eqb_eq in Ha, Hb. subst.
    by rewrite !nx_add_node_edges in Hin.
  - rewrite in_app_iff. simpl. split; intros [?|?]; try tauto.
    + destruct H as [<-|[]]. by right.
    + subst. right. by left.
Qed.

Lemma nx_add_edge_nodes u v g x :
  In x (g_nodes (nx_add_edge u v g)) <-> In x (g_nodes g) \/ x = u \/ x = v.
Proof.
  unfold nx_add_edge.
  destruct (has_edge _ u v); simpl; rewrite !nx_add_node_nodes; tauto.
Qed.

Lemma wf_nx_add_node n g : wf_graph g -> wf_graph (nx_add_node n g).
Proof.
  intros Hwf a b He. unfold edge in He. rewrite nx_add_node_edges in He.
  apply Hwf in He. rewrite !nx_add_node_nodes. tauto.
Qed.

Lemma wf_nx_add_edge u v g : wf_graph g -> wf_graph (nx_add_edge u v g).
Proof.
  intros Hwf a b He. unfold edge in He. apply nx_add_edge_edges in He.
  rewrite !nx_add_edge_nodes. destruct He as [He|[= -> ->]].
  - apply Hwf in He. tauto.
  - tauto.
Qed.

Variable sha256_hexdigest : string -> string.
Variable py_str : yaml -> string.
Variable NodeOk : GraphNode -> Prop.
Variable EdgeOk : string -> string -> Prop.

Local Abbreviation Inv := (builder_invariant NodeOk EdgeOk).

Lemma init_invariant : Inv init.
Proof.
  split_and!; simpl.
  - intros u v [].
  - done.
  - intros u v [].
Qed.

Lemma names_irrelevant b names :
  Inv b -> Inv (mkBuilder (graph b) names).
Proof. done. Qed.

Lemma add_node_invariant node b b' :
  NodeOk node -> Inv b ->
  lift (add_node node (graph b)) b = Ok b' ->
  Inv b' /\ parameter_names b' = parameter_names b.
Proof.
  intros Hn (Hwf & Hnodes & Hedges). unfold lift, add_node.
  destruct (Dict.mem _ _); [done|]. intros [= <-]. split; [|done].
  split_and!; simpl.
  - by apply wf_nx_add_node.
  - intros id n. rewrite dict_get_set.
    destruct (String.eqb id (node_id node)); [by intros [= <-]|apply Hnodes].
  - intros u v He. apply Hedges. unfold edge in *.
    by rewrite nx_add_node_edges in He.
Qed.

Lemma add_dep_invariant dependent dependency b b' :
  EdgeOk dependency dependent -> Inv b ->
  add_dep dependent dependency b = Ok b' ->
  Inv b' /\ parameter_names b' = parameter_names b.
Proof.
  intros He (Hwf & Hnodes & Hedges). unfold add_dep, lift, add_dependency.
  destruct (negb (Dict.mem dependent _)); [done|].
  destruct (negb (Dict.mem dependency _)); [done|].
  intros [= <-]. split; [|done]. split_and!; simpl.
  - by apply wf_nx_add_edge.
  - exact Hnodes.
  - intros u v Huv. unfold edge in Huv. apply nx_add_edge_edges in Huv.
    destruct Huv as [Huv|[= -> ->]]; [by apply Hedges|done].
Qed.

Hypothesis new_parameter_ok : forall name v,
  NodeOk (new_node PARAMETER name (YDict [("value", v)])
                   (_hash_spec sha256_hexdigest v) false).
Hypothesis new_node_ok : forall kind name spec is_pattern,
  kind <> PARAMETER ->
  NodeOk (new_node kind name spec (_hash_spec sha256_hexdigest spec) is_pattern).

Lemma add_parameter_nodes_invariant parameters b b' :
  Inv b ->
  _add_parameter_nodes sha256_hexdigest parameters b = Ok b' ->
  Inv b' /\ parameter_names b' = parameter_names b ++ Dict.keys parameters.
Proof.
  revert b. induction parameters as [|[name v] parameters IH]; intros b Hinv; simpl.
  - intros [= <-]. by rewrite app_nil_r.
  - match goal with
    | |- bind_result ?r _ = _ -> _ => destruct r as [b1|e] eqn:Hstep
    end; simpl; [|done].
    apply (add_node_invariant _ (mkBuilder (graph b) (parameter_names b ++ [name])))
      in Hstep as [Hinv1 Hnames1];
      [|apply new_parameter_ok|by apply names_irrelevant].
    intros Hrest. apply IH in Hrest as [Hinv' Hnames']; [|done].
    split; [done|]. rewrite Hnames', Hnames1. simpl.
    by rewrite <- app_assoc.
Qed.

Lemma add_spec_nodes_invariant kind entries b b' :
  kind <> PARAMETER -> Inv b ->
  add_spec_nodes sha256_hexdigest kind entries b = Ok b' ->
  Inv b' /\ parameter_names b' = parameter_names b.
Proof.
  intros Hkind. revert b.
  induction entries as [|[name spec] entries IH]; intros b Hinv; simpl.
  - by intros [= <-].
  - match goal with
    | |- bind_result ?r _ = _ -> _ => destruct r as [b1|e] eqn:Hstep
    end; simpl; [|done].
    apply add_node_invariant in Hstep as [Hinv1 Hnames1];
      [|by apply new_node_ok|done].
    intros Hrest. apply IH in Hrest as [Hinv' Hnames']; [|done].
    split; [done|]. congruence.
Qed.

Lemma add_operation_nodes_invariant operations b b' :
  Inv b ->
  _add_operation_nodes sha256_hexdigest operations b = Ok b' ->
  Inv b' /\ parameter_names b' = parameter_names b.
Proof.
  revert b. induction operations as [|[name spec] operations IH]; intros b Hinv; simpl.
  - by intros [= <-].
  - destruct spec; try done.
    match goal with
    | |- bind_result ?r _ = _ -> _ => destruct r as [b1|e] eqn:Hstep
    end; simpl; [|done].
    apply add_node_invariant in Hstep as [Hinv1 Hnames1];
      [|by apply new_node_ok|done].
    intros Hrest. apply IH in Hrest as [Hinv' Hnames']; [|done].
    split; [done|]. congruence.
Qed.

Lemma add_parameter_deps_invariant dependent_id skip refs b b' :
  (forall r, In r refs -> In r (parameter_names b) -> skip <> Some r ->
             EdgeOk ("parameter:" +:+ r) dependent_id) ->
  Inv b ->
  add_parameter_deps dependent_id skip refs b = Ok b' ->
  Inv b' /\ parameter_names b' = parameter_names b.
Proof.
  revert b. induction refs as [|r refs IH]; intros b Hok Hinv; simpl.
  - by intros [= <-].
  - destruct (MetadataUtils.in_list r (parameter_names b) && _) eqn:Hguard.
    + apply andb_true_iff in Hguard as [Hin Hskip].
      apply existsb_eqb_In in Hin.
      match goal with
      | |- bind_result ?x _ = _ -> _ => destruct x as [b1|e] eqn:Hstep
      end; simpl; [|done].
      apply add_dep_invariant in Hstep as [Hinv1 Hnames1]; [| |done].
      * intros Hrest. apply IH in Hrest as [Hinv' Hnames']; [| |done].
        -- split; [done|]. congruence.
        -- intros r' Hr'. rewrite Hnames1. apply Hok. by right.
      * apply Hok; [by left|done|].
        destruct skip as [p|]; [|done]. intros [= ->].
        by rewrite String.eqb_refl in Hskip.
    + intros Hrest. apply IH in Hrest; [done| |done].
      intros r' Hr'. apply Hok. by right.
Qed.

Lemma add_part_or_operation_dep_invariant dependent_id part_name b b' :
  (forall u, EdgeOk u dependent_id) -> Inv b ->
  add_part_or_operation_dep py_str dependent_id part_name b = Ok b' ->
  Inv b' /\ parameter_names b' = parameter_names b.
Proof.
  intros Hok Hinv. unfold add_part_or_operation_dep.
  destruct (contains _ _).
  { intros Hstep. by apply add_dep_invariant in Hstep. }
  destruct (contains _ _).
  { intros Hstep. by apply add_dep_invariant in Hstep. }
  by intros [= <-].
Qed.

Lemma add_part_deps_invariant dependent_id part_refs b b' :
  (forall u, EdgeOk u dependent_id) -> Inv b ->
  add_part_deps py_str dependent_id part_refs b = Ok b' ->
  Inv b' /\ parameter_names b' = parameter_names b.
Proof.
  intros Hok. revert b. induction part_refs as [|r refs IH]; intros b Hinv; simpl.
  - by intros [= <-].
  - match goal with
    | |- bind_result ?x _ = _ -> _ => destruct x as [b1|e] eqn:Hstep
    end; simpl; [|done].
    apply add_part_or_operation_dep_invariant in Hstep as [Hinv1 Hnames1];
      [|done|done].
    intros Hrest. apply IH in Hrest as [Hinv' Hnames']; [|done].
    split; [done|]. congruence.
Qed.
End GraphConstruction.

(** ** The constructed graph *)

Section Constructed.
Import ModelGraphM GraphBuilder.
Variable sha256_hexdigest : string -> string.
Variable py_str : yaml -> string.

(** The stored hash is the hash of the declaration. *)
Local Abbreviation hash_ok :=
  (fun n => hash_value n = Some (_hash_spec sha256_hexdigest (declared_spec n))).

Lemma new_parameter_hash_ok name v :
  hash_ok (new_node PARAMETER name (YDict [("value", v)])
                    (_hash_spec sha256_hexdigest v) false).
Proof. reflexivity. Qed.

Lemma new_node_hash_ok kind name spec is_pattern :
  kind <> PARAMETER ->
  hash_ok (new_node kind name spec (_hash_spec sha256_hexdigest spec) is_pattern).
Proof. by destruct kind. Qed.

Lemma startswith_sketch n : PyStr.startswith ("sketch:" +:+ n) "parameter:" = false.
Proof. reflexivity. Qed.
Lemma startswith_part n : PyStr.startswith ("part:" +:+ n) "parameter:" = false.
Proof. reflexivity. Qed.
Lemma startswith_operation n :
  PyStr.startswith ("operation:" +:+ n) "parameter:" = false.
Proof. reflexivity. Qed.
Lemma startswith_reference n :
  PyStr.startswith ("reference:" +:+ n) "parameter:" = false.
Proof. reflexivity. Qed.
Lemma startswith_parameter n :
  PyStr.startswith ("parameter:" +:+ n) "parameter:" = true.
Proof. reflexivity. Qed.

Variable parameters : list (string * yaml).

Local Abbreviation Inv := (builder_invariant hash_ok (edge_origin parameters)).

Lemma extract_parameter_dependencies_invariant params b b' :
  incl params parameters ->
  parameter_names b = Dict.keys parameters ->
  Inv b ->
  _extract_parameter_dependencies params b = Ok b' ->
  Inv b' /\ parameter_names b' = parameter_names b.
Proof.
  revert b. induction params as [|[p val] params IH]; intros b Hincl Hnames Hinv; simpl.
  - by intros [= <-].
  - match goal with
    | |- bind_result ?x _ = _ -> _ => destruct x as [b1|e] eqn:Hstep
    end; simpl; [|done].
    apply add_parameter_deps_invariant with (EdgeOk := edge_origin parameters)
      (NodeOk := hash_ok) in Hstep as [Hinv1 Hnames1]; [| |done].
    + intros Hrest. apply IH in Hrest as [Hinv' Hnames']; try done.
      * split; [done|]. congruence.
      * intros x Hx. apply Hincl. by right.
      * congruence.
    + intros r Hr Hin Hskip. left. exists p, val, r.
      split_and!; try done.
      * apply Hincl. by left.
      * by rewrite <- Hnames.
      * intros ->. done.
Qed.

Lemma extract_sketch_dependencies_invariant sketches b b' :
  Inv b ->
  _extract_sketch_dependencies sketches b = Ok b' ->
  Inv b' /\ parameter_names b' = parameter_names b.
Proof.
  revert b. induction sketches as [|[name spec] sketches IH]; intros b Hinv; simpl.
  - by intros [= <-].
  - match goal with
    | |- bind_result ?x _ = _ -> _ => destruct x as [b1|e] eqn:Hstep
    end; simpl; [|done].
    apply add_parameter_deps_invariant with (EdgeOk := edge_origin parameters)
      (NodeOk := hash_ok) in Hstep as [Hinv1 Hnames1]; [| |done].
    + intros Hrest. apply IH in Hrest as [Hinv' Hnames']; [|done].
      split; [done|]. congruence.
    + intros. right. apply startswith_sketch.
Qed.

Lemma extract_part_dependencies_invariant parts b b' :
  Inv b ->
  _extract_part_dependencies py_str parts b = Ok b' ->
  Inv b' /\ parameter_names b' = parameter_names b.
Proof.
  revert b. induction parts as [|[name spec] parts IH]; intros b Hinv; simpl.
  - by intros [= <-].
  - match goal with
    | |- bind_result ?x _ = _ -> _ => destruct x as [b1|e] eqn:Hstep
    end; simpl; [|done].
    apply add_parameter_deps_invariant with (EdgeOk := edge_origin parameters)
      (NodeOk := hash_ok) in Hstep as [Hinv1 Hnames1]; [| |done].
    2:{ intros. right. apply startswith_part. }
    destruct (lookup_field "sketch" spec) as [sketch|e]; simpl; [|done].
    match goal with
    | |- bind_result ?x _ = _ -> _ => destruct x as [b2|e] eqn:Hstep2
    end; simpl; [|done].
    assert (Inv b2 /\ parameter_names b2 = parameter_names b1) as [Hinv2 Hnames2].
    { destruct sketch as [sketch_name|]; [|by injection Hstep2 as <-].
      destruct (contains _ _); [|by injection Hstep2 as <-].
      apply add_dep_invariant with (EdgeOk := edge_origin parameters)
        (NodeOk := hash_ok) in Hstep2; [done| |done].
      right. apply startswith_part. }
    intros Hrest. apply IH in Hrest as [Hinv' Hnames']; [|done].
    split; [done|]. congruence.
Qed.

Lemma extract_operation_dependencies_invariant operations b b' :
  Inv b ->
  _extract_operation_dependencies py_str operations b = Ok b' ->
  Inv b' /\ parameter_names b' = parameter_names b.
Proof.
  revert b. induction operations as [|[name spec] operations IH]; intros b Hinv; simpl.
  - by intros [= <-].
  - destruct spec as [| | | | | |d]; try done.
    match goal with
    | |- bind_result ?x _ = _ -> _ => destruct x as [b1|e] eqn:Hstep
    end; simpl; [|done].
    apply add_parameter_deps_invariant with (EdgeOk := edge_origin parameters)
      (NodeOk := hash_ok) in Hstep as [Hinv1 Hnames1]; [| |done].
    2:{ intros. right. apply startswith_operation. }
    destruct (_extract_operation_part_refs d) as [part_refs|e]; simpl; [|done].
    match goal with
    | |- bind_result ?x _ = _ -> _ => destruct x as [b2|e] eqn:Hstep2
    end; simpl; [|done].
    apply add_part_deps_invariant with (EdgeOk := edge_origin parameters)
      (NodeOk := hash_ok) in Hstep2 as [Hinv2 Hnames2]; [| |done].
    2:{ intros. right. apply startswith_operation. }
    intros Hrest. apply IH in Hrest as [Hinv' Hnames']; [|done].
    split; [done|]. congruence.
Qed.

Lemma extract_reference_dependencies_invariant references b b' :
  Inv b ->
  _extract_reference_dependencies py_str references b = Ok b' ->
  Inv b' /\ parameter_names b' = parameter_names b.
Proof.
  revert b. induction references as [|[name spec] references IH]; intros b Hinv; simpl.
  - by intros [= <-].
  - match goal with
    | |- bind_result ?x _ = _ -> _ => destruct x as [b1|e] eqn:Hstep
    end; simpl; [|done].
    apply add_parameter_deps_invariant with (EdgeOk := edge_origin parameters)
      (NodeOk := hash_ok) in Hstep as [Hinv1 Hnames1]; [| |done].
    2:{ intros. right. apply startswith_reference. }
    destruct (lookup_field "part" spec) as [part|e]; simpl; [|done].
    match goal with
    | |- bind_result ?x _ = _ -> _ => destruct x as [b2|e] eqn:Hstep2
    end; simpl; [|done].
    assert (Inv b2 /\ parameter_names b2 = parameter_names b1) as [Hinv2 Hnames2].
    { destruct part as [part_name|]; [|by injection Hstep2 as <-].
      apply add_part_or_operation_dep_invariant with
        (EdgeOk := edge_origin parameters) (NodeOk := hash_ok) in Hstep2;
        [done| |done].
      intros. right. apply startswith_reference. }
    intros Hrest. apply IH in Hrest as [Hinv' Hnames']; [|done].
    split; [done|]. congruence.
Qed.
End Constructed.

Section ConstructInvariant.
Import ModelGraphM GraphBuilder.
Variable sha256_hexdigest : string -> string.
Variable py_str : yaml -> string.

(** Phases 1 and 2 of [build_graph] leave a graph whose edges join
    nodes, whose nodes carry the hash of their declaration, and whose
    edges into parameters come from the values of those parameters. *)
Lemma construct_invariant yaml_data b :
  construct sha256_hexdigest py_str yaml_data = Ok b ->
  exists parameters,
    section_items yaml_data "parameters" = Ok parameters /\
    builder_invariant
      (fun n => hash_value n
                = Some (_hash_spec sha256_hexdigest (declared_spec n)))
      (edge_origin parameters) b.
Proof.
  unfold construct.
  destruct (section_items yaml_data "parameters") as [parameters|e]; simpl; [|done].
  destruct (_add_parameter_nodes _ parameters init) as [b1|e] eqn:H1; simpl; [|done].
  destruct (section_items yaml_data "sketches") as [sketches|e]; simpl; [|done].
  destruct (_add_sketch_nodes _ sketches b1) as [b2|e] eqn:H2; simpl; [|done].
  destruct (section_items yaml_data "parts") as [parts|e]; simpl; [|done].
  destruct (_add_part_nodes _ parts b2) as [b3|e] eqn:H3; simpl; [|done].
  destruct (section_items yaml_data "operations") as [operations|e]; simpl; [|done].
  destruct (_add_operation_nodes _ operations b3) as [b4|e] eqn:H4; simpl; [|done].
  destruct (section_items yaml_data "references") as [references|e]; simpl; [|done].
  destruct (_add_reference_nodes _ references b4) as [b5|e] eqn:H5; simpl; [|done].
  destruct (_extract_parameter_dependencies parameters b5) as [b6|e] eqn:H6;
    simpl; [|done].
  destruct (_extract_sketch_dependencies sketches b6) as [b7|e] eqn:H7;
    simpl; [|done].
  destruct (_extract_part_dependencies _ parts b7) as [b8|e] eqn:H8;
    simpl; [|done].
  destruct (_extract_operation_dependencies _ operations b8) as [b9|e] eqn:H9;
    simpl; [|done].
  intros H10. exists parameters. split; [done|].
  pose proof (new_parameter_hash_ok sha256_hexdigest) as Hp.
  pose proof (new_node_hash_ok sha256_hexdigest) as Hn.
  apply add_parameter_nodes_invariant with (EdgeOk := edge_origin parameters)
    (NodeOk := fun n => hash_value n
                 = Some (_hash_spec sha256_hexdigest (declared_spec n)))
    in H1 as [I1 N1]; [|done|apply init_invariant].
  apply add_spec_nodes_invariant with (EdgeOk := edge_origin parameters)
    (NodeOk := fun n => hash_value n
                 = Some (_hash_spec sha256_hexdigest (declared_spec n)))
    in H2 as [I2 N2]; [|done|done|done].
  apply add_spec_nodes_invariant with (EdgeOk := edge_origin parameters)
    (NodeOk := fun n => hash_value n
                 = Some (_hash_spec sha256_hexdigest (declared_spec n)))
    in H3 as [I3 N3]; [|done|done|done].
  apply add_operation_nodes_invariant with (EdgeOk := edge_origin parameters)
    (NodeOk := fun n => hash_value n
                 = Some (_hash_spec sha256_hexdigest (declared_spec n)))
    in H4 as [I4 N4]; [|done|done].
  apply add_spec_nodes_invariant with (EdgeOk := edge_origin parameters)
    (NodeOk := fun n => hash_value n
                 = Some (_hash_spec sha256_hexdigest (declared_spec n)))
    in H5 as [I5 N5]; [|done|done|done].
  assert (parameter_names b5 = Dict.keys parameters) as N5'.
  { rewrite N5, N4, N3, N2, N1. done. }
  apply (extract_parameter_dependencies_invariant sha256_hexdigest parameters)
    in H6 as [I6 N6]; [|apply incl_refl|done|done].
  apply (extract_sketch_dependencies_invariant sha256_hexdigest parameters)
    in H7 as [I7 N7]; [|done].
  apply (extract_part_dependencies_invariant sha256_hexdigest py_str parameters)
    in H8 as [I8 N8]; [|done].
  apply (extract_operation_dependencies_invariant sha256_hexdigest py_str parameters)
    in H9 as [I9 N9]; [|done].
  apply (extract_reference_dependencies_invariant sha256_hexdigest py_str parameters)
    in H10 as [I10 N10]; [|done].
  done.
Qed.
End ConstructInvariant.

(** ** Rejecting cyclic documents *)

Section BuildGraph.
Import ModelGraphM GraphBuilder.
Variable sha256_hexdigest : string -> string.
Variable py_str : yaml -> string.

Local Abbreviation construct := (GraphBuilder.construct sha256_hexdigest py_str).
Local Abbreviation build_graph := (GraphBuilder.build_graph sha256_hexdigest py_str).

Lemma construct_wf yaml_data b :
  construct yaml_data = Ok b -> wf_graph (ModelGraphM.graph (graph b)).
Proof.
  intros Hc. apply construct_invariant in Hc as (parameters & _ & Hwf & _). done.
Qed.

(** What phase 3 does with a constructed graph. *)
Lemma validate_spec b :
  wf_graph (ModelGraphM.graph (graph b)) ->
  (has_cycle (ModelGraphM.graph (graph b)) /\
   exists c, In c (simple_cycles (ModelGraphM.graph (graph b))) /\
             elementary_cycle (ModelGraphM.graph (graph b)) c /\
             validate b = Raise (GraphBuilderError (circular_message c)))
  \/ (~ has_cycle (ModelGraphM.graph (graph b)) /\ validate b = Ok (graph b)).
Proof.
  intros Hwf. unfold validate, detect_cycles.
  destruct (simple_cycles (ModelGraphM.graph (graph b))) as [|c cs] eqn:Hs.
  - right. split; [|done]. by apply simple_cycles_empty_iff.
  - left. assert (In c (simple_cycles (ModelGraphM.graph (graph b)))) as Hin
      by (rewrite Hs; by left).
    pose proof (simple_cycles_sound _ _ Hin) as Hel.
    split; [by eapply elementary_cycle_has_cycle|].
    exists c. rewrite <- Hs. done.
Qed.


(** ** Self-references of parameters *)

Lemma append_parameter_inj p q :
  "parameter:" +:+ p = "parameter:" +:+ q -> p = q.
Proof. intros Heq. cbv [String.append String.app] in Heq. by injection Heq. Qed.



End BuildGraph.


(** ** Content hashes *)

Section Hashes.
Import ModelGraphM GraphBuilder.

(** Induction over document values, with the hypothesis available for
    every item of a list and every value of a mapping. *)
Lemma yaml_induction (P : yaml -> Prop) :
  P YNull ->
  (forall b, P (YBool b)) ->
  (forall z, P (YInt z)) ->
  (forall r, P (YFloat r)) ->
  (forall s, P (YStr s)) ->
  (forall l, Forall P l -> P (YList l)) ->
  (forall d, Forall (fun kv => P (snd kv)) d -> P (YDict d)) ->
  forall v, P v.
Proof.
  intros Hnull Hbool Hint Hfloat Hstr Hlist Hdict.
  fix IH 1. intros [| b | z | r | s | l | d].
  - exact Hnull.
  - apply Hbool.
  - apply Hint.
  - apply Hfloat.
  - apply Hstr.
  - apply Hlist. induction l as [|x l IHl]; constructor; [apply IH|exact IHl].
  - apply Hdict. induction d as [|[k x] d IHd]; constructor; [apply IH|exact IHd].
Qed.



Local Abbreviation item_le :=
  (fun a b : string * string => PyStr.leb (fst a) (fst b) = true).









Variable sha256_hexdigest : string -> string.
Variable py_str : yaml -> string.

End Hashes.



(** ** Selectors: [not] is the complement *)

Section Selectors.
Import SelectorResolver.

Lemma simple_selectors_facts s :
  In s simple_selectors -> simple_selector_facts s = true.
Proof.
  intros Hin.
  assert (forallb simple_selector_facts simple_selectors = true) as Hall
    by (vm_compute; reflexivity).
  rewrite forallb_forall in Hall. by apply Hall.
Qed.

Context {Feature : Type} `{Countable Feature}.
Variable geometry : @Geometry Feature.

Lemma resolve_simple_selector s kind n :
  In s simple_selectors ->
  resolve_fuel geometry (S n) s kind = Some (_resolve_simple geometry s kind).
Proof.
  intros Hin. apply simple_selectors_facts in Hin.
  unfold simple_selector_facts in Hin.
  repeat (apply andb_true_iff in Hin as [Hin ?]).
  apply String.eqb_eq in Hin.
  cbn [resolve_fuel]. unfold resolve_body. rewrite Hin.
  repeat match goal with
         | Hb : negb ?b = true |- _ => apply negb_true_iff in Hb; rewrite Hb
         end.
  done.
Qed.

Lemma resolve_not_selector s kind n :
  In s simple_selectors ->
  resolve_fuel geometry (S (S n)) ("not " +:+ s) kind
  = match all_features geometry kind with
    | Raise e => Some (Raise e)
    | Ok all =>
        match _resolve_simple geometry s kind with
        | Raise e => Some (Raise e)
        | Ok matching => Some (Ok (set_difference all matching))
        end
    end.
Proof.
  intros Hin. pose proof (resolve_simple_selector s kind n Hin) as Hsimple.
  apply simple_selectors_facts in Hin.
  unfold simple_selector_facts in Hin.
  repeat (apply andb_true_iff in Hin as [Hin ?]).
  match goal with
  | Hs : String.eqb (PyStr.strip ("not " +:+ s)) _ = true |- _ =>
      apply String.eqb_eq in Hs; rename Hs into Hstrip
  end.
  change (resolve_fuel geometry (S (S n)) ("not " +:+ s) kind)
    with (resolve_body geometry (resolve_fuel geometry (S n)) ("not " +:+ s) kind).
  unfold resolve_body. rewrite Hstrip. unfold _has_not, _resolve_not.
  destruct (match_not ("not " +:+ s)) as [rest|]; [|done].
  match goal with
  | Hr : String.eqb (PyStr.strip rest) s = true |- _ =>
      apply String.eqb_eq in Hr; rewrite Hr
  end.
  destruct (all_features geometry kind) as [all|e]; [|done].
  rewrite Hsimple. by destruct (_resolve_simple geometry s kind).
Qed.

(** C5.  For a simple selector [s] and faces or edges: when the kernel
    lists the features of the kind and the features selected by [s],
    [resolve] answers [s] with the kernel's selection and [not s] with
    a duplicate-free list holding exactly the features of the kind that
    are not in that selection; so each feature of the kind is in exactly
    one of the two answers. *)
Theorem not_selector_is_complement (s : string) (kind : FeatureType)
    (all matching : list Feature) :
  In s simple_selectors ->
  kind <> VERTEX ->
  select_features geometry kind None = Some all ->
  select_features geometry kind (Some s) = Some matching ->
  resolve geometry s kind = Some (Ok matching) /\
  exists complement,
    resolve geometry ("not " +:+ s) kind = Some (Ok complement) /\
    NoDup complement /\
    (forall f, f ∈ complement <-> f ∈ all /\ (f ∉ matching)) /\
    (forall f, f ∈ all ->
               (f ∈ complement /\ (f ∉ matching)) \/
               ((f ∉ complement) /\ f ∈ matching)).
Proof.
  intros Hin Hkind Hall Hsel.
  assert (all_features geometry kind = Ok all) as Hall'.
  { destruct kind; simpl in *; try done; by rewrite Hall. }
  assert (_resolve_simple geometry s kind = Ok matching) as Hsimple.
  { unfold _resolve_simple.
    pose proof (simple_selectors_facts s Hin) as Hf.
    unfold simple_selector_facts in Hf.
    repeat (apply andb_true_iff in Hf as [Hf ?]).
    match goal with Hm : matches_simple s = true |- _ => rewrite Hm end.
    destruct kind; simpl in *; try done; by rewrite Hsel. }
  split.
  { unfold resolve. rewrite resolve_simple_selector by done. by rewrite Hsimple. }
  exists (set_difference all matching).
  assert (forall f, f ∈ set_difference all matching <-> f ∈ all /\ (f ∉ matching))
    as Hmem.
  { intros f. unfold set_difference.
    rewrite elem_of_elements, elem_of_difference, !elem_of_list_to_set. done. }
  split_and!.
  - unfold resolve.
    assert (String.length ("not " +:+ s) = S (S (S (S (String.length s))))) as ->
      by reflexivity.
    rewrite resolve_not_selector by done. by rewrite Hall', Hsimple.
  - apply NoDup_elements.
  - exact Hmem.
  - intros f Hf. destruct (decide (f ∈ matching)) as [Hm|Hm].
    + right. split; [|done]. rewrite Hmem. tauto.
    + left. split; [|done]. by apply Hmem.
Qed.
End Selectors.

(** The box of the specification: [not <Z] yields five faces. *)
Lemma not_selector_is_complement_witness :
  In "<Z" SelectorResolver.simple_selectors /\
  SelectorResolver.FACE <> SelectorResolver.VERTEX /\
  SelectorResolver.select_features SelectorResolver.box SelectorResolver.FACE None
    = Some [0; 1; 2; 3; 4; 5] /\
  SelectorResolver.select_features SelectorResolver.box SelectorResolver.FACE
    (Some "<Z") = Some [4] /\
  exists complement,
    SelectorResolver.resolve SelectorResolver.box "not <Z" SelectorResolver.FACE
      = Some (Ok complement) /\
    length complement = 5 /\
    (forall f, f ∈ complement <-> f ∈ [0; 1; 2; 3; 4; 5] /\ (f ∉ [4])).
Proof.
  assert (Hin : In "<Z" SelectorResolver.simple_selectors).
  { simpl. do 5 right. by left. }
  split; [exact Hin|]. split; [done|]. split; [reflexivity|]. split; [reflexivity|].
  destruct (not_selector_is_complement SelectorResolver.box "<Z"
              SelectorResolver.FACE [0; 1; 2; 3; 4; 5] [4] Hin
              ltac:(done) eq_refl eq_refl)
    as (_ & complement & Hres & _ & Hmem & _).
  exists complement. split; [exact Hres|]. split; [|exact Hmem].
  vm_compute in Hres. injection Hres as <-. reflexivity.
Defined.

(** ** The parameter resolver: termination and cyclic references *)

Lemma bind_run {A B} (m : ParameterResolver.M A)
    (k : A -> ParameterResolver.M B) st r st1 :
  m st = Some (r, st1) ->
  ParameterResolver.bind m k st
  = match r with
    | Ok a => k a st1
    | Raise e => Some (Raise e, st1)
    end.
Proof. unfold ParameterResolver.bind. intros ->. by destruct r. Qed.

Section ResolverCalls.
Import ParameterResolver.
Variable simple_eval : string -> list (string * yaml) -> eval_outcome.
Variable py_str : yaml -> string.
Variable params : list (string * yaml).
Variable cyc : list string.
Hypothesis Hcyc : cyclic simple_eval params cyc.

Local Abbreviation needs := (ParameterResolver.needs simple_eval).
Local Abbreviation call_spec := (ParameterResolver.call_spec simple_eval cyc).

Section Inner.
Variable stack : list string.
Variable gp : string -> M yaml.
Hypothesis Hgp : call_spec (params, stack) gp.

Lemma build_names_loop_spec names_list names st :
  frame st = (params, stack) -> cache_avoids cyc st ->
  exists names' st',
    build_names_loop gp names_list names st = Some (names', st') /\
    frame st' = (params, stack) /\ cache_avoids cyc st' /\
    (forall q, In q cyc -> Dict.get q names = None -> Dict.get q names' = None).
Proof.
  revert names st.
  induction names_list as [|p rest IH]; intros names st Hframe Hcache; simpl.
  - exists names, st. done.
  - destruct (on_stack p st) eqn:Hstack; [by apply IH|].
    destruct (Dict.get p (resolved_cache st)) as [v|] eqn:Hcached.
    + destruct (IH (Dict.set p v names) st Hframe Hcache)
        as (names' & st' & Hloop & Hf & Hc & Hex).
      exists names', st'. split_and!; try done.
      intros q Hq Hnone. apply Hex; [done|].
      rewrite dict_get_set_ne; [done|].
      intros ->. rewrite (Hcache q Hq) in Hcached. done.
    + destruct (Hgp p st Hframe Hcache) as (r & st1 & Hcall & Hf1 & Hc1 & Hraise).
      rewrite Hcall. destruct r as [v|e].
      * destruct (IH (Dict.set p v names) st1 Hf1 Hc1)
          as (names' & st' & Hloop & Hf & Hc & Hex).
        exists names', st'. split_and!; try done.
        intros q Hq Hnone. apply Hex; [done|].
        rewrite dict_get_set_ne; [done|].
        intros ->. destruct (Hraise Hq Hstack) as (? & ? & ? & _ & _ & _ & _ & ?).
        done.
      * by apply IH.
Qed.

Lemma evaluate_expression_spec e st :
  frame st = (params, stack) -> cache_avoids cyc st ->
  exists r st',
    _evaluate_expression simple_eval gp e st = Some (r, st') /\
    frame st' = (params, stack) /\ cache_avoids cyc st' /\
    (forall q, In q cyc -> needs e q -> r = Raise (NameNotFound q e)).
Proof.
  intros Hframe Hcache. unfold _evaluate_expression, _build_names_dict.
  destruct (build_names_loop_spec (Dict.keys (raw_parameters st)) [] st Hframe Hcache)
    as (names & st' & Hloop & Hf & Hc & Hex).
  rewrite Hloop. eexists _, st'. split_and!; try done.
  intros q Hq Hneeds. rewrite (Hneeds names); [done|]. by apply Hex.
Qed.

Lemma substitute_spec rev_tokens :
  forall acc st,
    frame st = (params, stack) -> cache_avoids cyc st ->
    exists r st',
      substitute simple_eval py_str gp rev_tokens acc st = Some (r, st') /\
      frame st' = (params, stack) /\ cache_avoids cyc st' /\
      (forall g rest q,
         List.filter is_expr rev_tokens = TExpr g :: rest ->
         In q cyc -> needs (PyStr.strip g) q ->
         r = Raise (NameNotFound q (PyStr.strip g))).
Proof.
  induction rev_tokens as [|[c|g] toks IH]; intros acc st Hframe Hcache; simpl.
  - eexists _, st. by split_and!.
  - apply IH; done.
  - unfold bind.
    destruct (evaluate_expression_spec (PyStr.strip g) st Hframe Hcache)
      as (r & st1 & Heval & Hf1 & Hc1 & Hraise).
    rewrite Heval. destruct r as [v|e].
    + destruct (IH (py_str v +:+ acc) st1 Hf1 Hc1) as (r' & st' & Hsub & Hf & Hc & _).
      exists r', st'. split_and!; try done.
      intros g' rest q [= <- _] Hq Hneeds. by specialize (Hraise q Hq Hneeds).
    + exists (Raise e), st1. split_and!; try done.
      intros g' rest q [= <- _] Hq Hneeds.
      pose proof (Hraise q Hq Hneeds) as Hr. by injection Hr as ->.
Qed.

Lemma no_expr_filter toks :
  existsb is_expr toks = false -> List.filter is_expr (rev toks) = [].
Proof.
  intros Hno. destruct (List.filter is_expr (rev toks)) as [|t l] eqn:Hf; [done|].
  assert (In t (List.filter is_expr (rev toks))) as Hin by (rewrite Hf; by left).
  apply List.filter_In in Hin as [Hin Ht]. apply in_rev in Hin.
  assert (existsb is_expr toks = true) by (apply existsb_exists; eauto).
  congruence.
Qed.

Lemma resolve_string_spec s st :
  frame st = (params, stack) -> cache_avoids cyc st ->
  exists r st',
    _resolve_string simple_eval py_str gp s st = Some (r, st') /\
    frame st' = (params, stack) /\ cache_avoids cyc st' /\
    (forall e q, first_evaluated s = Some e -> In q cyc -> needs e q ->
                 r = Raise (NameNotFound q e)).
Proof.
  intros Hframe Hcache. unfold _resolve_string, first_evaluated.
  destruct (existsb is_expr (tokens s)) eqn:Hex.
  2:{ exists (Ok (YStr s)), st. split_and!; try done.
      intros e q. by rewrite (no_expr_filter _ Hex). }
  assert (Hgen :
    exists r st',
      bind (substitute simple_eval py_str gp (rev (tokens s)) "")
           (fun s0 => ret (YStr s0)) st = Some (r, st') /\
      frame st' = (params, stack) /\ cache_avoids cyc st' /\
      (forall e q,
         match List.filter is_expr (rev (tokens s)) with
         | TExpr g :: _ => Some (PyStr.strip g)
         | _ => None
         end = Some e -> In q cyc -> needs e q -> r = Raise (NameNotFound q e))).
  { unfold bind.
    destruct (substitute_spec (rev (tokens s)) "" st Hframe Hcache)
      as (r & st' & Hsub & Hf & Hc & Hraise).
    rewrite Hsub. destruct r as [v|e].
    - eexists _, st'. unfold ret. split_and!; try done.
      intros e q Hfirst Hq Hneeds.
      destruct (List.filter is_expr (rev (tokens s))) as [|[c|g] rest] eqn:Hfl;
        try done.
      injection Hfirst as <-. by specialize (Hraise g rest q eq_refl Hq Hneeds).
    - exists (Raise e), st'. split_and!; try done.
      intros e' q Hfirst Hq Hneeds.
      destruct (List.filter is_expr (rev (tokens s))) as [|[c|g] rest] eqn:Hfl;
        try done.
      injection Hfirst as <-.
      pose proof (Hraise g rest q eq_refl Hq Hneeds) as Hr. by injection Hr as ->. }
  destruct (tokens s) as [|[c|g] [|t toks]] eqn:Htoks; try exact Hgen.
  destruct (evaluate_expression_spec (PyStr.strip g) st Hframe Hcache)
    as (r & st' & Heval & Hf & Hc & Hraise).
  exists r, st'. split_and!; try done.
  simpl. intros e q [= <-]. apply Hraise.
Qed.

Local Abbreviation result_spec :=
  (fun (A : Type) (m : M A) (st : resolver) =>
     exists r st', m st = Some (r, st') /\
                   frame st' = (params, stack) /\ cache_avoids cyc st').

Lemma resolve_spec v :
  forall st,
    frame st = (params, stack) -> cache_avoids cyc st ->
    exists r st',
      resolve simple_eval py_str gp v st = Some (r, st') /\
      frame st' = (params, stack) /\ cache_avoids cyc st' /\
      (forall s e q, v = YStr s -> first_evaluated s = Some e -> In q cyc ->
                     needs e q -> r = Raise (NameNotFound q e)).
Proof.
  induction v as [| | | |s|l IH|d IH] using yaml_induction;
    intros st Hframe Hcache;
    try (eexists _, st; by split_and!).
  - destruct (resolve_string_spec s st Hframe Hcache) as (r & st' & Hr & Hf & Hc & Hraise).
    exists r, st'. split_and!; try done.
    intros s' e q [= <-]. apply Hraise.
  - cbn [resolve].
    assert (forall st, frame st = (params, stack) -> cache_avoids cyc st ->
              result_spec _ (resolve_items (resolve simple_eval py_str gp) l) st)
      as Hitems.
    { clear st Hframe Hcache. induction l as [|x l IHl]; intros st Hframe Hcache.
      - eexists _, st. by split_and!.
      - apply Forall_cons_iff in IH as [Hx Hl]. cbn [resolve_items].
        destruct (Hx st Hframe Hcache) as (r & st1 & Hr & Hf1 & Hc1 & _).
        rewrite (bind_run _ _ _ _ _ Hr).
        destruct r as [v|e]; [|by exists (Raise e), st1].
        destruct (IHl Hl st1 Hf1 Hc1) as (r' & st2 & Hr' & Hf2 & Hc2).
        rewrite (bind_run _ _ _ _ _ Hr').
        destruct r' as [vs|e]; [|by exists (Raise e), st2].
        eexists _, st2. by split_and!. }
    destruct (Hitems st Hframe Hcache) as (r & st' & Hr & Hf & Hc).
    rewrite (bind_run _ _ _ _ _ Hr). destruct r as [vs|e].
    + eexists _, st'. by split_and!.
    + exists (Raise e), st'. by split_and!.
  - cbn [resolve].
    assert (forall st, frame st = (params, stack) -> cache_avoids cyc st ->
              result_spec _ (resolve_values (resolve simple_eval py_str gp) d) st)
      as Hitems.
    { clear st Hframe Hcache. induction d as [|[k x] d IHd]; intros st Hframe Hcache.
      - eexists _, st. by split_and!.
      - apply Forall_cons_iff in IH as [Hx Hd]. cbn [resolve_values].
        destruct (Hx st Hframe Hcache) as (r & st1 & Hr & Hf1 & Hc1 & _).
        simpl in Hr. rewrite (bind_run _ _ _ _ _ Hr).
        destruct r as [v|e]; [|by exists (Raise e), st1].
        destruct (IHd Hd st1 Hf1 Hc1) as (r' & st2 & Hr' & Hf2 & Hc2).
        rewrite (bind_run _ _ _ _ _ Hr').
        destruct r' as [vs|e]; [|by exists (Raise e), st2].
        eexists _, st2. by split_and!. }
    destruct (Hitems st Hframe Hcache) as (r & st' & Hr & Hf & Hc).
    rewrite (bind_run _ _ _ _ _ Hr). destruct r as [vs|e].
    + eexists _, st'. by split_and!.
    + exists (Raise e), st'. by split_and!.
Qed.
End Inner.
End ResolverCalls.

Section ResolverTermination.
Import ParameterResolver.
Variable simple_eval : string -> list (string * yaml) -> eval_outcome.
Variable py_str : yaml -> string.
Variable params : list (string * yaml).
Variable cyc : list string.
Hypothesis Hcyc : cyclic simple_eval params cyc.

Lemma dict_get_in_keys {V} (k : string) (d : list (string * V)) v :
  Dict.get k d = Some v -> In k (Dict.keys d).
Proof.
  induction d as [|[k' v'] d IH]; simpl; [done|].
  destruct (String.eqb k k') eqn:E.
  - apply String.eqb_eq in E. intros _. by left.
  - intros Hd. right. by apply IH.
Qed.

Lemma filter_length_lt {A} (f g : A -> bool) (l : list A) x :
  (forall y, g y = true -> f y = true) ->
  In x l -> f x = true -> g x = false ->
  length (List.filter g l) < length (List.filter f l).
Proof.
  intros Himp. induction l as [|y l IH]; simpl; [done|].
  assert (Hle : forall l', length (List.filter g l') <= length (List.filter f l')).
  { induction l' as [|z l' IH']; simpl; [done|].
    destruct (g z) eqn:Hg.
    - rewrite (Himp z Hg). simpl. lia.
    - destruct (f z); simpl; lia. }
  intros [->|Hin] Hf Hg.
  - rewrite Hf, Hg. simpl. specialize (Hle l). lia.
  - specialize (IH Hin Hf Hg). destruct (g y) eqn:Hgy.
    + rewrite (Himp y Hgy). simpl. lia.
    + destruct (f y); simpl; lia.
Qed.

Lemma pending_push name stack :
  In name (Dict.keys params) ->
  existsb (String.eqb name) stack = false ->
  pending_frame (params, stack ++ [name]) < pending_frame (params, stack).
Proof.
  intros Hin Hfresh. unfold pending_frame. simpl.
  apply filter_length_lt with (x := name); try done.
  - intros y Hy. apply negb_true_iff in Hy. apply negb_true_iff.
    rewrite existsb_app in Hy. by apply orb_false_iff in Hy as [? _].
  - by rewrite Hfresh.
  - rewrite existsb_app. simpl. rewrite String.eqb_refl.
    by rewrite orb_true_r.
Qed.

(** With more fuel than pending parameters, [get_parameter] returns,
    leaves raw parameters and stack as they were, and fails with the
    name-not-found error on every parameter of [cyc]. *)
Lemma get_parameter_spec fuel :
  forall stack,
    pending_frame (params, stack) < fuel ->
    call_spec simple_eval cyc (params, stack) (get_parameter simple_eval py_str fuel).
Proof.
  induction fuel as [|fuel IH]; intros stack Hfuel; [lia|].
  intros name st Hframe Hcache. cbn [get_parameter]. unfold get_parameter_body.
  assert (Hraw : raw_parameters st = params) by (by injection Hframe).
  assert (Hstack : resolution_stack st = stack) by (by injection Hframe).
  destruct (Dict.get name (resolved_cache st)) as [v|] eqn:Hcached.
  { eexists _, st. split_and!; try done.
    intros Hin. rewrite (Hcache name Hin) in Hcached. done. }
  rewrite Hraw.
  destruct (Dict.get name params) as [raw_value|] eqn:Hget.
  2:{ eexists _, st. split_and!; try done.
      intros Hin. destruct (Hcyc name Hin) as (q & _ & s & e & Hs & _).
      congruence. }
  destruct (on_stack name st) eqn:Hon.
  { eexists _, st. split_and!; try done. }
  assert (Hpush : frame (push name st) = (params, stack ++ [name])).
  { unfold frame, push. simpl. by rewrite Hraw, Hstack. }
  assert (Hlt : pending_frame (params, stack ++ [name]) < fuel).
  { unfold on_stack in Hon. rewrite Hstack in Hon.
    pose proof (pending_push name stack (dict_get_in_keys _ _ _ Hget) Hon). lia. }
  destruct (resolve_spec simple_eval py_str params cyc (stack ++ [name])
              (get_parameter simple_eval py_str fuel) (IH _ Hlt)
              raw_value (push name st) Hpush Hcache)
    as (r & st2 & Hres & Hf2 & Hc2 & Hraise).
  rewrite Hres.
  assert (Hpop : forall st3, raw_parameters st3 = raw_parameters st2 ->
                             resolution_stack st3 = resolution_stack st2 ->
                             frame (pop st3) = (params, stack)).
  { intros st3 Hr3 Hs3. unfold frame, pop. simpl.
    injection Hf2 as Hr2 Hs2. rewrite Hr3, Hs3, Hr2, Hs2.
    by rewrite removelast_last. }
  assert (Hfail : In name cyc ->
            exists q s e, In q cyc /\ Dict.get name params = Some (YStr s) /\
                          first_evaluated s = Some e /\
                          needs simple_eval e q /\ r = Raise (NameNotFound q e)).
  { intros Hin. destruct (Hcyc name Hin) as (q & Hq & s & e & Hs & Hfirst & Hneeds).
    exists q, s, e. split_and!; try done.
    rewrite Hs in Hget. injection Hget as <-.
    by apply (Hraise s e q). }
  destruct r as [v|e].
  - eexists _, _. split_and!; [done| | |].
    + by apply Hpop.
    + intros p Hp. simpl. rewrite dict_get_set_ne; [by apply Hc2|].
      intros ->. destruct (Hfail Hp) as (? & ? & ? & _ & _ & _ & _ & ?). done.
    + intros Hin _. destruct (Hfail Hin) as (? & ? & ? & _ & _ & _ & _ & ?). done.
  - eexists _, _. split_and!; [done| | |].
    + by apply Hpop.
    + exact Hc2.
    + intros Hin _. by apply Hfail.
Qed.
End ResolverTermination.

Section ResolverTheorem.
Import ParameterResolver.
Variable simple_eval : string -> list (string * yaml) -> eval_outcome.
Variable py_str : yaml -> string.

Lemma pending_init params : pending_frame (params, []) = length params.
Proof.
  unfold pending_frame, Dict.keys. simpl.
  induction params as [|kv params IH]; simpl; [done|]. by rewrite IH.
Qed.

Lemma cyclic_nil params : cyclic simple_eval params [].
Proof. intros p []. Qed.

End ResolverTheorem.





(* ===================================================================== *)
(** * Part III: further properties of the code                            *)
(* ===================================================================== *)

(** ** [PartRegistry] *)

Lemma dict_keys_set_fresh {V} (k : string) (v : V) d :
  Dict.get k d = None -> Dict.keys (Dict.set k v d) = Dict.keys d ++ [k].
Proof.
  induction d as [|[k' v'] d IH]; simpl; [done|].
  destruct (String.eqb k k') eqn:E; [done|].
  intros Hk. simpl. f_equal. by apply IH.
Qed.

Lemma dict_get_none_keys {V} (k : string) (d : list (string * V)) :
  Dict.get k d = None <-> ~ In k (Dict.keys d).
Proof.
  induction d as [|[k' v'] d IH]; simpl; [tauto|].
  destruct (String.eqb k k') eqn:E.
  - apply String.eqb_eq in E. subst. split; [done|].
    intros Hn. contradict Hn. by left.
  - apply String.eqb_neq in E. rewrite IH. split.
    + intros Hn [Heq|Hin]; [congruence|done].
    + intros Hn Hin. apply Hn. by right.
Qed.

Lemma dict_mem_keys {V} (k : string) (d : list (string * V)) :
  Dict.mem k d = true <-> In k (Dict.keys d).
Proof.
  unfold Dict.mem. destruct (Dict.get k d) as [v|] eqn:E.
  - split; [|done]. intros _. by eapply dict_get_in_keys.
  - apply dict_get_none_keys in E. split; [done|tauto].
Qed.

Lemma dict_set_length_fresh {V} (k : string) (v : V) d :
  Dict.get k d = None -> length (Dict.set k v d) = S (length d).
Proof.
  intros Hk. rewrite <- (length_map fst (Dict.set k v d)).
  change (map fst (Dict.set k v d)) with (Dict.keys (Dict.set k v d)).
  rewrite dict_keys_set_fresh by done.
  rewrite length_app. unfold Dict.keys. rewrite length_map. simpl. lia.
Qed.

Section Registry.
Import PartModel.
Context {Position : Type}.
Implicit Types (reg : PartRegistry Position) (part : Part Position).

(** X1.  [PartRegistry.add] followed by [get]: a part whose name is new
    is stored at the end of the registry, [get] of its name returns it,
    and every other name is found (or missing) as before; a part whose
    name is taken is refused with [ValueError], and the part stored
    under that name stays. *)
Theorem registry_add_then_get reg part :
  match PartRegistry_add part reg with
  | Ok reg' =>
      PartRegistry_exists (name part) reg = false /\
      PartRegistry_get (name part) reg' = Ok part /\
      PartRegistry_list_parts reg' = PartRegistry_list_parts reg ++ [name part] /\
      PartRegistry_len reg' = S (PartRegistry_len reg) /\
      (forall n, n <> name part ->
                 PartRegistry_exists n reg' = PartRegistry_exists n reg /\
                 forall p, PartRegistry_get n reg = Ok p ->
                           PartRegistry_get n reg' = Ok p)
  | Raise e =>
      e = RegistryValueError
            ("Part '" +:+ name part +:+ "' already exists in registry") /\
      exists old, PartRegistry_get (name part) reg = Ok old
  end.
Proof.
  unfold PartRegistry_add, PartRegistry_exists, PartRegistry_get,
    PartRegistry_list_parts, PartRegistry_len.
  destruct (Dict.mem (name part) reg) eqn:Hmem.
  - split; [done|]. apply dict_mem_get in Hmem as [old Hold].
    exists old. by rewrite Hold.
  - assert (Hnone : Dict.get (name part) reg = None).
    { unfold Dict.mem in Hmem. by destruct (Dict.get (name part) reg). }
    split_and!; [done| |by apply dict_keys_set_fresh
                |by apply dict_set_length_fresh|].
    + by rewrite dict_get_set_eq.
    + intros n Hn. unfold Dict.mem.
      rewrite dict_get_set_ne by congruence. split; [done|].
      intros p. by destruct (Dict.get n reg).
Qed.

(** What every registry reached by [add] and [clear] calls satisfies. *)
Lemma registry_apply_keys reg op :
  List.NoDup (Dict.keys reg) ->
  (forall n p, Dict.get n reg = Some p -> name p = n) ->
  List.NoDup (Dict.keys (registry_apply reg op)) /\
  (forall n p, Dict.get n (registry_apply reg op) = Some p -> name p = n).
Proof.
  intros Hnd Hname. destruct op as [part|]; simpl.
  - unfold PartRegistry_add.
    destruct (Dict.mem (name part) reg) eqn:Hmem; [done|].
    assert (Hnone : Dict.get (name part) reg = None).
    { unfold Dict.mem in Hmem. by destruct (Dict.get (name part) reg). }
    split.
    + rewrite dict_keys_set_fresh by done.
      apply NoDup_ListNoDup, NoDup_app. split_and!.
      * by apply NoDup_ListNoDup.
      * intros x Hx Hx'. apply list_elem_of_In in Hx.
        apply list_elem_of_singleton in Hx'. subst x.
        by apply dict_get_none_keys in Hnone.
      * apply NoDup_singleton.
    + intros n p. rewrite dict_get_set.
      destruct (String.eqb n (name part)) eqn:E.
      * apply String.eqb_eq in E. by intros [= <-].
      * apply Hname.
  - split; [constructor|done].
Qed.

Lemma registry_run_keys (ops : list (registry_op Position)) :
  List.NoDup (Dict.keys (registry_run ops)) /\
  (forall n p, Dict.get n (registry_run ops) = Some p -> name p = n).
Proof.
  unfold registry_run.
  assert (Hinit : List.NoDup (Dict.keys (@PartRegistry_init Position)) /\
                  (forall n p, Dict.get n (@PartRegistry_init Position) = Some p ->
                               name p = n))
    by (split; [constructor|done]).
  revert Hinit. generalize (@PartRegistry_init Position).
  induction ops as [|op ops IH]; intros reg [Hnd Hname]; simpl; [done|].
  apply IH. by apply registry_apply_keys.
Qed.

(** X2.  Whatever [add] and [clear] calls a registry has seen, its
    names are unique: [list_parts] has no duplicates, [len] counts its
    entries, [exists] holds exactly for the listed names, [get] succeeds
    exactly for them, and the part found under a name carries that
    name. *)
Theorem registry_names_unique (ops : list (registry_op Position)) :
  let reg := registry_run ops in
  List.NoDup (PartRegistry_list_parts reg) /\
  PartRegistry_len reg = length (PartRegistry_list_parts reg) /\
  (forall n, PartRegistry_exists n reg = true <-> In n (PartRegistry_list_parts reg)) /\
  (forall n, In n (PartRegistry_list_parts reg) <->
             exists p, PartRegistry_get n reg = Ok p) /\
  (forall n p, PartRegistry_get n reg = Ok p -> name p = n).
Proof.
  intros reg. destruct (registry_run_keys ops) as [Hnd Hname].
  fold reg in Hnd, Hname.
  unfold PartRegistry_list_parts, PartRegistry_len, PartRegistry_exists,
    PartRegistry_get.
  split_and!.
  - exact Hnd.
  - unfold Dict.keys. by rewrite length_map.
  - intros n. apply dict_mem_keys.
  - intros n. rewrite <- dict_mem_keys, dict_mem_get. split.
    + intros [p Hp]. exists p. by rewrite Hp.
    + intros [p Hp]. destruct (Dict.get n reg) as [q|]; [eauto|done].
  - intros n p Hp. apply Hname.
    destruct (Dict.get n reg) as [q|]; [|done]. by injection Hp as ->.
Qed.

End Registry.

(** ** [Part.clone] and later changes *)

Section CloneIndependence.
Import PartModel.
Context {Geometry Position : Type}.
Variable utils_get_center : Geometry -> option Position.

Lemma clone_store (self p : Part Position) new_name
    (h h' : store Geometry Position) :
  clone utils_get_center self new_name h = Some (p, h') ->
  exists md hist,
    dicts h !! metadata self = Some md /\
    histories h !! transform_history self = Some hist /\
    geometries h' = geometries h /\
    dicts h' = dicts h ++ [md] /\
    histories h' = histories h ++ [hist] /\
    metadata p = length (dicts h) /\
    transform_history p = length (histories h) /\
    (current_position self <> None ->
     current_position p = current_position self).
Proof.
  unfold clone.
  destruct (dicts h !! metadata self) as [md|] eqn:Hmd; [|done].
  destruct (histories h !! transform_history self) as [hist|] eqn:Hh; [|done].
  simpl. unfold Part_init.
  destruct (current_position self) as [pos|].
  - intros [= <- <-]. exists md, hist. simpl. by split_and!.
  - destruct (_calculate_center _ _ _ _ _) as [c|]; [|done].
    intros [= <- <-]. exists md, hist. simpl. by split_and!.
Qed.

(** X3.  After [clone], the transform histories and the metadata of the
    two parts are separate objects: [add_transform] on the clone
    appends to the clone's history and leaves the original's alone,
    [add_transform] on the original leaves the clone's alone, and
    replacing the clone's metadata does not change the original's.
    [clone] fails only when the part's objects are not in the store or
    a missing position cannot be computed. *)
Theorem clone_then_add_transform (self : Part Position) (new_name : string)
    (h : store Geometry Position) (transform_type : string) (params : yaml) :
  match clone utils_get_center self new_name h with
  | Some (p, h') =>
      let on_clone := add_transform p transform_type params h' in
      let on_self := add_transform self transform_type params h' in
      histories on_clone !! transform_history self
        = histories h !! transform_history self /\
      histories on_clone !! transform_history p
        = (fun l => l ++ [mkTransformEntry _ transform_type params
                                           (current_position p)])
            <$> histories h !! transform_history self /\
      histories on_self !! transform_history p
        = histories h !! transform_history self /\
      histories on_self !! transform_history self
        = (fun l => l ++ [mkTransformEntry _ transform_type params
                                           (current_position self)])
            <$> histories h !! transform_history self /\
      (forall d, dicts (set_dict (metadata p) d h') !! metadata self
                 = dicts h !! metadata self) /\
      (forall d, dicts (set_dict (metadata self) d h') !! metadata p
                 = dicts h !! metadata self)
  | None =>
      dicts h !! metadata self = None \/
      histories h !! transform_history self = None \/
      (current_position self = None /\
       _calculate_center _ _ utils_get_center (geometry self) h = None)
  end.
Proof.
  destruct (clone utils_get_center self new_name h) as [[p h']|] eqn:Hc.
  - apply clone_store in Hc
      as (md & hist & Hmd & Hh & Hg & Hd & Hhs & Hmp & Hhp & _).
    assert (Hlt : transform_history self < length (histories h))
      by (by eapply lookup_lt_Some).
    assert (Hltd : metadata self < length (dicts h))
      by (by eapply lookup_lt_Some).
    assert (Hp : histories h' !! transform_history p = Some hist).
    { rewrite Hhs, Hhp. by apply list_lookup_middle. }
    assert (Hs : histories h' !! transform_history self = Some hist).
    { rewrite Hhs. by rewrite lookup_app_l. }
    cbn zeta. unfold add_transform. rewrite Hp, Hs. simpl.
    rewrite Hh. simpl. split_and!.
    + rewrite list_lookup_insert_ne by lia. done.
    + rewrite list_lookup_insert_eq; [done|]. by eapply lookup_lt_Some.
    + rewrite list_lookup_insert_ne by lia. done.
    + rewrite list_lookup_insert_eq; [done|]. by eapply lookup_lt_Some.
    + intros d. rewrite list_lookup_insert_ne by lia.
      rewrite Hd. by rewrite lookup_app_l.
    + intros d. rewrite list_lookup_insert_ne by lia.
      rewrite Hd, Hmp, Hmd. by apply list_lookup_middle.
  - unfold clone in Hc.
    destruct (dicts h !! metadata self) as [md|]; [|by left].
    destruct (histories h !! transform_history self) as [hist|];
      [|by right; left].
    simpl in Hc. unfold Part_init in Hc.
    destruct (current_position self) as [pos|]; [done|].
    right; right. split; [done|].
    unfold _calculate_center in *. simpl in Hc.
    by destruct (geometries h !! geometry self) as [g|];
      [destruct (utils_get_center g)|].
Qed.
End CloneIndependence.

(** ** [merge_metadata] *)

Section MergeMetadata.
Import MetadataUtils.

Lemma first_binding_app k l1 l2 :
  first_binding k (l1 ++ l2)
  = match first_binding k l1 with
    | Some v => Some v
    | None => first_binding k l2
    end.
Proof.
  induction l1 as [|d l1 IH]; simpl; [done|].
  by destruct (d ≫= Dict.get k).
Qed.

Lemma merge_loop_get k dicts :
  Forall proper_dict dicts ->
  forall acc,
    Dict.get k
      (fold_left
         (fun result metadata =>
            match metadata with
            | Some ((_ :: _) as md) => Dict.update result md
            | _ => result
            end) dicts acc)
    = match first_binding k (rev dicts) with
      | Some v => Some v
      | None => Dict.get k acc
      end.
Proof.
  induction 1 as [|d dicts Hd Hds IH]; intros acc; [done|].
  cbn [fold_left rev]. rewrite IH, first_binding_app.
  destruct (first_binding k (rev dicts)) as [v|]; [done|].
  cbn [first_binding].
  destruct d as [[|kv md]|]; [done| |done].
  rewrite dict_update_get by exact Hd.
  cbn [mbind option_bind].
  by destruct (Dict.get k (kv :: md)).
Qed.

(** X4.  [merge_metadata] on dicts that bind each key once: with
    [prefer_last=True] a key has the value of the last dict that binds
    it, with [prefer_last=False] the value of the first one; a key that
    no dict binds is absent, and [None] or empty arguments change
    nothing. *)
Theorem merge_metadata_lookup (dicts : list (option (list (string * yaml))))
    (k : string) :
  Forall proper_dict dicts ->
  Dict.get k (merge_metadata dicts true) = first_binding k (rev dicts) /\
  Dict.get k (merge_metadata dicts false) = first_binding k dicts.
Proof.
  intros Hd. unfold merge_metadata. split.
  - rewrite merge_loop_get by done. by destruct (first_binding k (rev dicts)).
  - rewrite merge_loop_get by (by apply Forall_rev).
    rewrite rev_involutive. by destruct (first_binding k dicts).
Qed.
End MergeMetadata.

Lemma merge_metadata_lookup_witness :
  let base := Some [("color", YStr "red"); ("material", YStr "metal")] in
  let override := Some [("color", YStr "green")] in
  Forall MetadataUtils.proper_dict [base; None; override] /\
  Dict.get "color" (MetadataUtils.merge_metadata [base; None; override] true)
  = Some (YStr "green") /\
  Dict.get "color" (MetadataUtils.merge_metadata [base; None; override] false)
  = Some (YStr "red").
Proof.
  assert (Hd : Forall MetadataUtils.proper_dict
                 [Some [("color", YStr "red"); ("material", YStr "metal")];
                  None; Some [("color", YStr "green")]]).
  { repeat constructor; unfold MetadataUtils.proper_dict; simpl;
      repeat constructor; set_solver. }
  split; [exact Hd|].
  exact (merge_metadata_lookup _ "color" Hd).
Defined.

(** ** [ParameterResolver]: values without expressions *)

Section ResolverPlain.
Import ParameterResolver.
Variable simple_eval : string -> list (string * yaml) -> eval_outcome.
Variable py_str : yaml -> string.
Variable gp : string -> M yaml.

Local Abbreviation resolve := (ParameterResolver.resolve simple_eval py_str gp).

Lemma resolve_items_plain l st :
  Forall (fun v => forall st, resolve v st = Some (Ok v, st)) l ->
  resolve_items resolve l st = Some (Ok l, st).
Proof.
  induction 1 as [|x l Hx Hl IH]; [done|].
  cbn [resolve_items]. unfold bind at 1. rewrite Hx.
  unfold bind at 1. by rewrite IH.
Qed.

Lemma resolve_values_plain d st :
  Forall (fun kv => forall st, resolve (snd kv) st = Some (Ok (snd kv), st)) d ->
  resolve_values resolve d st = Some (Ok d, st).
Proof.
  induction 1 as [|[k x] d Hx Hd IH]; [done|].
  cbn [resolve_values]. unfold bind at 1. simpl in Hx. rewrite Hx.
  unfold bind at 1. by rewrite IH.
Qed.

(** X5.  [resolve] returns a value that holds no [${...}] expression,
    at any depth, as it is: scalars, plain strings, and lists and
    mappings of such values come back unchanged, nothing is evaluated,
    no parameter is looked up and the resolver is left as it was. *)
Theorem resolve_without_expressions (value : yaml) :
  expression_free value = true ->
  forall st, resolve value st = Some (Ok value, st).
Proof.
  induction value as [| | | |s|l IH|d IH] using yaml_induction;
    intros Hfree st; try done.
  - cbn [ParameterResolver.resolve]. unfold _resolve_string.
    cbn [expression_free] in Hfree. apply negb_true_iff in Hfree.
    by rewrite Hfree.
  - cbn [ParameterResolver.resolve]. unfold bind.
    rewrite resolve_items_plain; [done|].
    cbn [expression_free] in Hfree. rewrite forallb_forall in Hfree.
    rewrite List.Forall_forall in IH |- *. intros x Hx. apply IH; auto.
  - cbn [ParameterResolver.resolve]. unfold bind.
    rewrite resolve_values_plain; [done|].
    cbn [expression_free] in Hfree. rewrite forallb_forall in Hfree.
    rewrite List.Forall_forall in IH |- *. intros x Hx. apply IH; auto.
Qed.
End ResolverPlain.

Lemma resolve_without_expressions_witness :
  let value := YDict [("width", YInt 10); ("label", YStr "a $ {plain} text");
                      ("size", YList [YFloat "1.5"; YNull; YBool true])] in
  let st := ParameterResolver.init [("w", YStr "${1/0}")] in
  ParameterResolver.expression_free value = true /\
  ParameterResolver.resolve ArithEval.simple_eval ArithEval.py_str
    (ArithEval.get_parameter 2) value st = Some (Ok value, st).
Proof.
  intros value st. split; [reflexivity|].
  exact (resolve_without_expressions ArithEval.simple_eval ArithEval.py_str
           (ArithEval.get_parameter 2) value eq_refl st).
Defined.

(** ** [ParameterResolver]: the cache *)

Section ResolverMemo.
Import ParameterResolver.
Variable simple_eval : string -> list (string * yaml) -> eval_outcome.
Variable py_str : yaml -> string.

Lemma memo_step_refl st : stack_uncached st -> memo_step st st.
Proof.
  intros Hu. unfold memo_step. split_and!; try done. by intros k v.
Qed.

Lemma memo_step_trans st1 st2 st3 :
  memo_step st1 st2 -> memo_step st2 st3 -> memo_step st1 st3.
Proof.
  intros (Hr1 & Hs1 & He1 & Hu1) (Hr2 & Hs2 & He2 & Hu2).
  split_and!; [congruence|congruence| |done].
  intros k v Hk. by apply He2, He1.
Qed.

Section Inner.
Variable gp : string -> M yaml.
Hypothesis Hgp : memo_call gp.

Lemma build_names_loop_memo names_list :
  forall names st names' st',
    stack_uncached st ->
    build_names_loop gp names_list names st = Some (names', st') ->
    memo_step st st'.
Proof.
  induction names_list as [|p rest IH]; intros names st names' st' Hu; simpl.
  - intros [= _ <-]. by apply memo_step_refl.
  - destruct (on_stack p st); [by apply IH|].
    destruct (Dict.get p (resolved_cache st)); [by apply IH|].
    destruct (gp p st) as [[r st1]|] eqn:Hcall; [|done].
    destruct (Hgp p st r st1 Hu Hcall) as [Hstep _].
    assert (Hu1 : stack_uncached st1) by apply Hstep.
    destruct r as [v|e]; intros Hloop;
      (eapply memo_step_trans; [exact Hstep|by eapply IH]).
Qed.

Lemma evaluate_expression_memo e st r st' :
  stack_uncached st ->
  _evaluate_expression simple_eval gp e st = Some (r, st') ->
  memo_step st st'.
Proof.
  intros Hu. unfold _evaluate_expression, _build_names_dict.
  destruct (build_names_loop gp _ [] st) as [[names st1]|] eqn:Hloop; [|done].
  intros [= _ <-]. by eapply build_names_loop_memo.
Qed.

Lemma substitute_memo rev_tokens :
  forall acc st r st',
    stack_uncached st ->
    substitute simple_eval py_str gp rev_tokens acc st = Some (r, st') ->
    memo_step st st'.
Proof.
  induction rev_tokens as [|[c|g] toks IH]; intros acc st r st' Hu; simpl.
  - intros [= _ <-]. by apply memo_step_refl.
  - by apply IH.
  - unfold bind.
    destruct (_evaluate_expression simple_eval gp (PyStr.strip g) st)
      as [[r1 st1]|] eqn:Heval; [|done].
    pose proof (evaluate_expression_memo _ _ _ _ Hu Heval) as Hstep.
    destruct r1 as [v|e].
    + intros Hsub. eapply memo_step_trans; [exact Hstep|].
      eapply IH; [apply Hstep|exact Hsub].
    + by intros [= _ <-].
Qed.

Lemma resolve_string_memo s st r st' :
  stack_uncached st ->
  _resolve_string simple_eval py_str gp s st = Some (r, st') ->
  memo_step st st'.
Proof.
  intros Hu. unfold _resolve_string.
  destruct (existsb is_expr (tokens s)).
  2:{ intros [= _ <-]. by apply memo_step_refl. }
  assert (Hgen :
    bind (substitute simple_eval py_str gp (rev (tokens s)) "")
         (fun s0 => ret (YStr s0)) st = Some (r, st') -> memo_step st st').
  { unfold bind.
    destruct (substitute simple_eval py_str gp (rev (tokens s)) "" st)
      as [[r1 st1]|] eqn:Hsub; [|done].
    pose proof (substitute_memo _ _ _ _ _ Hu Hsub) as Hstep.
    destruct r1; by intros [= _ <-]. }
  destruct (tokens s) as [|[c|g] [|t toks]]; try exact Hgen.
  by apply evaluate_expression_memo.
Qed.

Lemma resolve_memo v :
  forall st r st',
    stack_uncached st ->
    resolve simple_eval py_str gp v st = Some (r, st') ->
    memo_step st st'.
Proof.
  induction v as [| | | |s|l IH|d IH] using yaml_induction;
    intros st res st' Hu;
    try (intros [= _ <-]; by apply memo_step_refl).
  - by apply resolve_string_memo.
  - cbn [resolve].
    assert (Hitems : forall st r st', stack_uncached st ->
              resolve_items (resolve simple_eval py_str gp) l st = Some (r, st') ->
              memo_step st st').
    { clear st res st' Hu.
      induction l as [|x l IHl]; intros st r st' Hu.
      - intros [= _ <-]. by apply memo_step_refl.
      - apply Forall_cons_iff in IH as [Hx Hl]. cbn [resolve_items].
        unfold bind at 1.
        destruct (resolve simple_eval py_str gp x st) as [[r1 st1]|] eqn:Hr1;
          [|done].
        pose proof (Hx _ _ _ Hu Hr1) as Hstep.
        destruct r1 as [v|e]; [|by intros [= _ <-]].
        unfold bind at 1.
        destruct (resolve_items _ l st1) as [[r2 st2]|] eqn:Hr2; [|done].
        assert (memo_step st1 st2) by (eapply (IHl Hl); [apply Hstep|done]).
        destruct r2; intros [= _ <-]; by eapply memo_step_trans. }
    unfold bind.
    destruct (resolve_items _ l st) as [[r1 st1]|] eqn:Hr1; [|done].
    pose proof (Hitems _ _ _ Hu Hr1).
    destruct r1; by intros [= _ <-].
  - cbn [resolve].
    assert (Hitems : forall st r st', stack_uncached st ->
              resolve_values (resolve simple_eval py_str gp) d st = Some (r, st') ->
              memo_step st st').
    { clear st res st' Hu.
      induction d as [|[k x] d IHd]; intros st r st' Hu.
      - intros [= _ <-]. by apply memo_step_refl.
      - apply Forall_cons_iff in IH as [Hx Hd]. cbn [resolve_values].
        unfold bind at 1. simpl in Hx.
        destruct (resolve simple_eval py_str gp x st) as [[r1 st1]|] eqn:Hr1;
          [|done].
        pose proof (Hx _ _ _ Hu Hr1) as Hstep.
        destruct r1 as [v|e]; [|by intros [= _ <-]].
        unfold bind at 1.
        destruct (resolve_values _ d st1) as [[r2 st2]|] eqn:Hr2; [|done].
        assert (memo_step st1 st2) by (eapply (IHd Hd); [apply Hstep|done]).
        destruct r2; intros [= _ <-]; by eapply memo_step_trans. }
    unfold bind.
    destruct (resolve_values _ d st) as [[r1 st1]|] eqn:Hr1; [|done].
    pose proof (Hitems _ _ _ Hu Hr1).
    destruct r1; by intros [= _ <-].
Qed.

Lemma on_stack_push n name st :
  on_stack n (push name st) = on_stack n st || String.eqb n name.
Proof.
  unfold on_stack, push. simpl. rewrite existsb_app. simpl.
  by rewrite orb_false_r.
Qed.

Lemma get_parameter_body_memo :
  memo_call (get_parameter_body simple_eval py_str gp).
Proof.
  intros name st r st' Hu. unfold get_parameter_body.
  destruct (Dict.get name (resolved_cache st)) as [v|] eqn:Hcached.
  { intros [= <- <-]. split; [by apply memo_step_refl|].
    by intros v' [= <-]. }
  destruct (Dict.get name (raw_parameters st)) as [raw_value|]; cycle 1.
  { intros [= <- <-]. split; [by apply memo_step_refl|done]. }
  destruct (on_stack name st) eqn:Hon.
  { intros [= <- <-]. split; [by apply memo_step_refl|done]. }
  assert (Hupush : stack_uncached (push name st)).
  { intros n. rewrite on_stack_push. intros Hn.
    apply orb_true_iff in Hn as [Hn|Hn]; [by apply Hu|].
    apply String.eqb_eq in Hn. by subst n. }
  destruct (resolve simple_eval py_str gp raw_value (push name st))
    as [[r2 st2]|] eqn:Hres; [|done].
  destruct (resolve_memo _ _ _ _ Hupush Hres) as (Hr2 & Hs2 & He2 & Hu2).
  assert (Hstack : removelast (resolution_stack st2) = resolution_stack st).
  { rewrite Hs2. simpl. by rewrite removelast_last. }
  assert (Hon2 : forall n, on_stack n st = true -> on_stack n st2 = true).
  { intros n Hn. unfold on_stack in *. rewrite Hs2. simpl.
    rewrite existsb_app, Hn. done. }
  destruct r2 as [rv|e]; intros [= <- <-].
  - split; [split_and!|].
    + done.
    + done.
    + intros k v Hk. simpl. rewrite dict_get_set.
      destruct (String.eqb k name) eqn:E.
      * apply String.eqb_eq in E. subst k. congruence.
      * by apply He2.
    + intros n. unfold on_stack. simpl. rewrite Hstack. intros Hn.
      rewrite dict_get_set.
      destruct (String.eqb n name) eqn:E.
      * apply String.eqb_eq in E. subst n. unfold on_stack in Hon. congruence.
      * by apply Hu2, Hon2.
    + intros v [= <-]. simpl. by rewrite dict_get_set_eq.
  - split; [split_and!|done].
    + done.
    + done.
    + exact He2.
    + intros n. unfold on_stack. simpl. rewrite Hstack. intros Hn.
      by apply Hu2, Hon2.
Qed.
End Inner.

Lemma get_parameter_memo fuel :
  memo_call (get_parameter simple_eval py_str fuel).
Proof.
  induction fuel as [|fuel IH]; [by intros name st r st' _|].
  cbn [get_parameter]. by apply get_parameter_body_memo.
Qed.

Lemma stack_uncached_empty st :
  resolution_stack st = [] -> stack_uncached st.
Proof. intros Hs n. unfold on_stack. by rewrite Hs. Qed.

Lemma get_parameter_returns params fuel st name :
  length params < fuel ->
  raw_parameters st = params -> resolution_stack st = [] ->
  exists r st', get_parameter simple_eval py_str fuel name st = Some (r, st').
Proof.
  intros Hfuel Hraw Hstack.
  assert (Hlt : pending_frame (params, []) < fuel) by (by rewrite pending_init).
  destruct (get_parameter_spec simple_eval py_str params []
              (cyclic_nil simple_eval params) fuel [] Hlt name st)
    as (r & st' & Hcall & _).
  - unfold frame. by rewrite Hraw, Hstack.
  - by intros p [].
  - by exists r, st'.
Qed.

(** X6.  The cache of the resolver (with more recursion budget than
    parameters, on a resolver that is not in the middle of a call):
    [get_parameter] returns; it leaves the raw parameters and the empty
    stack as they were; every value that was cached before the call is
    still cached, unchanged, after it; and a value it returns is cached
    under the parameter's name, so that asking again gives the same
    value and changes nothing. *)
Theorem get_parameter_memoises (params : list (string * yaml)) (fuel : nat)
    (st : resolver) (name : string) :
  length params < fuel ->
  raw_parameters st = params -> resolution_stack st = [] ->
  exists r st',
    get_parameter simple_eval py_str fuel name st = Some (r, st') /\
    raw_parameters st' = params /\ resolution_stack st' = [] /\
    cache_extends st st' /\
    (forall v, r = Ok v ->
               Dict.get name (resolved_cache st') = Some v /\
               get_parameter simple_eval py_str fuel name st' = Some (Ok v, st')).
Proof.
  intros Hfuel Hraw Hstack.
  destruct (get_parameter_returns params fuel st name Hfuel Hraw Hstack)
    as (r & st' & Hcall).
  destruct (get_parameter_memo fuel name st r st'
              (stack_uncached_empty st Hstack) Hcall)
    as [(Hr & Hs & He & Hu) Hok].
  exists r, st'. split_and!; [done|congruence|congruence|done|].
  intros v Hv. specialize (Hok v Hv). split; [done|].
  destruct fuel as [|fuel]; [lia|].
  cbn [get_parameter]. unfold get_parameter_body. by rewrite Hok.
Qed.
End ResolverMemo.

Lemma get_parameter_memoises_witness :
  let params := ArithEval.params_chain in
  let st := ParameterResolver.init params in
  length params < 4 /\
  ParameterResolver.raw_parameters st = params /\
  ParameterResolver.resolution_stack st = [] /\
  exists r st',
    ArithEval.get_parameter 4 "c" st = Some (r, st') /\
    ParameterResolver.raw_parameters st' = params /\
    ParameterResolver.resolution_stack st' = [] /\
    ParameterResolver.cache_extends st st' /\
    (forall v, r = Ok v ->
               Dict.get "c" (ParameterResolver.resolved_cache st') = Some v /\
               ArithEval.get_parameter 4 "c" st' = Some (Ok v, st')).
Proof.
  intros params st.
  assert (Hlen : length params < 4) by (vm_compute; lia).
  split_and!; [exact Hlen|reflexivity|reflexivity|].
  exact (get_parameter_memoises ArithEval.simple_eval ArithEval.py_str
           params 4 st "c" Hlen eq_refl eq_refl).
Defined.

(** ** [ParameterResolver.resolve_all] *)

Section ResolveAll.
Import ParameterResolver.
Variable simple_eval : string -> list (string * yaml) -> eval_outcome.
Variable py_str : yaml -> string.

Local Abbreviation get_parameter := (ParameterResolver.get_parameter simple_eval py_str).
Local Abbreviation resolve_all_loop :=
  (ParameterResolver.resolve_all_loop simple_eval py_str).

Lemma resolve_all_loop_spec params fuel :
  length params < fuel ->
  forall names st,
    raw_parameters st = params -> resolution_stack st = [] ->
    exists r st',
      resolve_all_loop fuel names st = Some (r, st') /\
      raw_parameters st' = params /\ resolution_stack st' = [] /\
      cache_extends st st' /\
      match r with
      | Ok vs =>
          map fst vs = names /\
          forall n v, In (n, v) vs -> Dict.get n (resolved_cache st') = Some v
      | Raise e =>
          exists pre n post vs st1,
            names = pre ++ n :: post /\
            resolve_all_loop fuel pre st = Some (Ok vs, st1) /\
            get_parameter fuel n st1 = Some (Raise e, st')
      end.
Proof.
  intros Hfuel. induction names as [|n rest IH]; intros st Hraw Hstack.
  - exists (Ok []), st. split_and!; try done. by intros k v.
  - cbn [ParameterResolver.resolve_all_loop].
    destruct (get_parameter_returns simple_eval py_str params fuel st n
                Hfuel Hraw Hstack) as (r1 & st1 & Hcall).
    destruct (get_parameter_memo simple_eval py_str fuel n st r1 st1
                (stack_uncached_empty st Hstack) Hcall)
      as [(Hr1 & Hs1 & He1 & Hu1) Hok].
    rewrite (bind_run _ _ _ _ _ Hcall).
    destruct r1 as [v|e].
    + assert (Hraw1 : raw_parameters st1 = params) by congruence.
      assert (Hstack1 : resolution_stack st1 = []) by congruence.
      destruct (IH st1 Hraw1 Hstack1) as (r2 & st2 & Hloop & Hr2 & Hs2 & He2 & Hres).
      rewrite (bind_run _ _ _ _ _ Hloop).
      destruct r2 as [vs|e].
      * exists (Ok ((n, v) :: vs)), st2. destruct Hres as [Hkeys Hvals].
        split_and!; try done.
        -- intros k w Hk. by apply He2, He1.
        -- simpl. by rewrite Hkeys.
        -- intros k w [[= <- <-]|Hin]; [|by apply Hvals].
           apply He2. by apply Hok.
      * exists (Raise e), st2.
        destruct Hres as (pre & m & post & vs & st3 & Hnames & Hpre & Hfail).
        split_and!; try done.
        -- intros k w Hk. by apply He2, He1.
        -- exists (n :: pre), m, post, ((n, v) :: vs), st3.
           split_and!; [by rewrite Hnames| |done].
           cbn [ParameterResolver.resolve_all_loop].
           rewrite (bind_run _ _ _ _ _ Hcall).
           by rewrite (bind_run _ _ _ _ _ Hpre).
    + exists (Raise e), st1. split_and!; try done; [congruence|congruence|].
      exists [], n, rest, [], st. by split_and!.
Qed.

(** X7.  [resolve_all] on a new resolver (with more recursion budget
    than parameters) returns.  When it succeeds, the result lists the
    parameters in the order of their declaration, each with the value
    that is now cached for it, which is also what [get_parameter]
    answers afterwards.  When it fails, the error is the one raised for
    the first parameter, in declaration order, that cannot be
    resolved. *)
Theorem resolve_all_in_declaration_order (params : list (string * yaml))
    (fuel : nat) :
  length params < fuel ->
  exists r st',
    resolve_all simple_eval py_str fuel (init params) = Some (r, st') /\
    match r with
    | Ok vs =>
        map fst vs = Dict.keys params /\
        forall n v, In (n, v) vs ->
                    Dict.get n (resolved_cache st') = Some v /\
                    get_parameter fuel n st' = Some (Ok v, st')
    | Raise e =>
        exists pre n post vs st1,
          Dict.keys params = pre ++ n :: post /\
          resolve_all_loop fuel pre (init params) = Some (Ok vs, st1) /\
          get_parameter fuel n st1 = Some (Raise e, st')
    end.
Proof.
  intros Hfuel. unfold resolve_all. cbn [raw_parameters init].
  destruct (resolve_all_loop_spec params fuel Hfuel (Dict.keys params)
              (init params) eq_refl eq_refl)
    as (r & st' & Hloop & _ & _ & _ & Hres).
  exists r, st'. split; [done|].
  destruct r as [vs|e]; [|done].
  destruct Hres as [Hkeys Hvals]. split; [done|].
  intros n v Hin. specialize (Hvals n v Hin). split; [done|].
  destruct fuel as [|fuel]; [lia|].
  cbn [ParameterResolver.get_parameter]. unfold get_parameter_body.
  by rewrite Hvals.
Qed.
End ResolveAll.

Lemma resolve_all_in_declaration_order_witness :
  length ArithEval.params_chain < 4 /\
  exists st',
    ParameterResolver.resolve_all ArithEval.simple_eval ArithEval.py_str 4
      (ParameterResolver.init ArithEval.params_chain)
    = Some (Ok [("a", YInt 10); ("b", YInt 20); ("c", YInt 30)], st') /\
    ArithEval.get_parameter 4 "c" st' = Some (Ok (YInt 30), st').
Proof.
  assert (Hlen : length ArithEval.params_chain < 4) by (vm_compute; lia).
  split; [exact Hlen|].
  destruct (resolve_all_in_declaration_order ArithEval.simple_eval
              ArithEval.py_str ArithEval.params_chain 4 Hlen)
    as (r & st' & Hrun & Hres).
  vm_compute in Hrun. injection Hrun as <- <-.
  eexists. split; [reflexivity|].
  destruct Hres as [_ Hvals]. apply (Hvals "c" (YInt 30)). simpl. tauto.
Defined.

(** ** [_resolve_string]: whole-string expressions *)

Section ResolveStringShape.
Import ParameterResolver.




Lemma of_chars_chars s : PyStr.of_chars (PyStr.chars s) = s.
Proof. apply string_of_list_ascii_of_string. Qed.

Lemma chars_of_chars l : PyStr.chars (PyStr.of_chars l) = l.
Proof. apply list_ascii_of_string_of_list_ascii. Qed.



Lemma length_chars s : length (PyStr.chars s) = String.length s.
Proof. induction s as [|c s IH]; simpl; congruence. Qed.



Variable simple_eval : string -> list (string * yaml) -> eval_outcome.
Variable py_str : yaml -> string.
Variable gp : string -> M yaml.

End ResolveStringShape.

(** ** [_expand_part_list]: names, patterns and ranges *)

Section Expansion.
Import BooleanBuilder.
Variable py_str : yaml -> string.
Variable all_parts : list string.

Lemma find_pattern_matches_in prefix n :
  In n (_find_pattern_matches all_parts prefix)
  <-> In n all_parts /\ PyStr.startswith n prefix = true.
Proof.
  unfold _find_pattern_matches. split.
  - intros Hn. eapply Permutation_in in Hn; [|apply sorted_by_key_perm].
    by apply List.filter_In in Hn.
  - intros Hn. eapply Permutation_in;
      [apply Permutation_sym, sorted_by_key_perm|].
    by apply List.filter_In.
Qed.

Lemma range_names_in range_spec base_name count :
  forall i names,
    range_names all_parts range_spec base_name i count = Ok names ->
    forall n, In n names -> In n all_parts.
Proof.
  induction count as [|count IH]; intros i names; simpl.
  - by intros [= <-].
  - destruct (existsb _ all_parts) eqn:Hex; [|done].
    destruct (range_names all_parts range_spec base_name (i + 1) count)
      as [rest|e] eqn:Hrest; simpl; [|done].
    intros [= <-] n [<-|Hin].
    + apply existsb_exists in Hex as (x & Hx & Heq).
      apply String.eqb_eq in Heq. by subst.
    + by eapply IH.
Qed.

Lemma expand_range_spec_in range_spec names :
  _expand_range_spec all_parts range_spec = Ok names ->
  forall n, In n names -> In n all_parts.
Proof.
  unfold _expand_range_spec.
  destruct (match_range_spec range_spec) as [[base_name range_part]|]; [|done].
  destruct (String.eqb range_part "*").
  - destruct (_find_pattern_matches all_parts (base_name +:+ "_"))
      as [|m ms] eqn:Hm; [done|].
    intros [= <-] n Hn. rewrite <- Hm in Hn.
    by apply find_pattern_matches_in in Hn as [Hn _].
  - destruct (match_numeric_range range_part) as [[start stop]|]; [|done].
    destruct (stop <? start)%Z; [done|]. apply range_names_in.
Qed.

Lemma expand_item_in item names :
  expand_item py_str all_parts item = Ok names ->
  forall n, In n names -> In n all_parts \/ item = YStr n.
Proof.
  destruct item as [| | | |s|l|d]; try done; simpl.
  - destruct (PyStr.contains_char "*" s).
    + destruct (_find_pattern_matches all_parts _) as [|m ms] eqn:Hm; [done|].
      intros [= <-] n Hn. left. rewrite <- Hm in Hn.
      by apply find_pattern_matches_in in Hn as [Hn _].
    + intros [= <-] n [<-|Hf]; [by right|destruct Hf].
  - destruct (Dict.get "pattern" d) as [pattern_name|].
    + destruct (_find_pattern_matches all_parts _) as [|m ms] eqn:Hm; [done|].
      intros [= <-] n Hn. left. rewrite <- Hm in Hn.
      by apply find_pattern_matches_in in Hn as [Hn _].
    + destruct (Dict.get "range" d) as [[| | | |range_spec| |]|]; try done.
      intros Hr n Hn. left. by eapply expand_range_spec_in.
Qed.

(** X9.  What [_expand_part_list] puts into its result.  A list of
    plain names (strings without a star) comes back as it is, in the
    same order, whether or not the names are registered: the expansion
    does not look them up.  In general every name of a successful
    expansion is either a registered part (produced by a wildcard, a
    pattern or a range) or a plain name written in the list. *)
Theorem expand_part_list_names :
  (forall names,
     forallb (fun n => negb (PyStr.contains_char "*" n)) names = true ->
     _expand_part_list py_str all_parts (map YStr names) = Ok names) /\
  (forall part_list names,
     _expand_part_list py_str all_parts part_list = Ok names ->
     forall n, In n names -> In n all_parts \/ In (YStr n) part_list).
Proof.
  split.
  - induction names as [|n names IH]; [done|].
    cbn [forallb map _expand_part_list]. intros Hall.
    apply andb_true_iff in Hall as [Hn Hall]. apply negb_true_iff in Hn.
    cbn [expand_item]. rewrite Hn. cbn [bind_result].
    by rewrite IH.
  - induction part_list as [|item rest IH]; intros names; simpl.
    + intros [= <-] n Hf. destruct Hf.
    + destruct (expand_item py_str all_parts item) as [first|e] eqn:Hitem;
        simpl; [|done].
      destruct (_expand_part_list py_str all_parts rest) as [more|e] eqn:Hrest;
        simpl; [|done].
      intros [= <-] n Hn. apply in_app_or in Hn as [Hn|Hn].
      * destruct (expand_item_in _ _ Hitem n Hn) as [Hl| ->]; [by left|].
        right. by left.
      * destruct (IH more eq_refl n Hn); [by left|]. right. by right.
Qed.

(** *** The syntax of a range *)

Lemma split_at_bracket_spec base rest :
  existsb (PyStr.ascii_eqb "[") base = false ->
  forall seen,
    seen ++ base <> [] ->
    split_at_bracket seen (base ++ "["%char :: rest)
    = Some (rev seen ++ base, rest).
Proof.
  induction base as [|c base IH]; intros Hb seen Hne.
  - simpl. destruct seen as [|s seen]; [done|].
    by rewrite app_nil_r.
  - simpl in Hb. apply orb_false_iff in Hb as [Hc Hb].
    cbn [app split_at_bracket].
    assert (Hc' : PyStr.ascii_eqb c "[" = false).
    { unfold PyStr.ascii_eqb in *. by rewrite Ascii.eqb_sym. }
    rewrite Hc', (IH Hb (c :: seen)) by done.
    simpl. by rewrite <- app_assoc.
Qed.

Lemma match_range_spec_shape base part :
  base <> "" -> PyStr.contains_char "[" base = false ->
  existsb is_newline (PyStr.chars base) = false ->
  part <> "" -> existsb is_newline (PyStr.chars part) = false ->
  match_range_spec (base +:+ "[" +:+ part +:+ "]") = Some (base, part).
Proof.
  intros Hbase Hbr Hnl Hpart Hnlp. unfold match_range_spec.
  assert (Hchars : PyStr.chars (base +:+ "[" +:+ part +:+ "]")
                   = (PyStr.chars base ++ "["%char :: PyStr.chars part)
                     ++ ["]"%char]).
  { rewrite !chars_append. simpl. by rewrite <- !app_assoc. }
  rewrite Hchars. rewrite rev_unit.
  change (is_newline "]") with false. cbv iota.
  rewrite rev_unit. change (PyStr.ascii_eqb "]" "]") with true. cbv iota.
  rewrite rev_involutive.
  assert (Hcore : existsb is_newline
                    (PyStr.chars base ++ "["%char :: PyStr.chars part) = false).
  { rewrite existsb_app. simpl. rewrite Hnl, Hnlp. reflexivity. }
  rewrite Hcore.
  rewrite (split_at_bracket_spec _ _ Hbr []).
  2:{ simpl. intros Hnil. apply Hbase.
      rewrite <- (of_chars_chars base), Hnil. reflexivity. }
  simpl. destruct (PyStr.chars part) as [|c cs] eqn:Hp.
  - contradict Hpart. rewrite <- (of_chars_chars part), Hp. reflexivity.
  - rewrite <- Hp. by rewrite !of_chars_chars.
Qed.

Lemma split_dots_step seen c r :
  split_dots seen (c :: r)
  = match r with
    | d :: r' =>
        if Ascii.eqb c "." && Ascii.eqb d "." then Some (rev seen, r')
        else if PyStr.is_digit c then split_dots (c :: seen) r else None
    | [] => if PyStr.is_digit c then split_dots (c :: seen) r else None
    end.
Proof.
  destruct r as [|d r'].
  - by destruct c as [[] [] [] [] [] [] [] []].
  - destruct c as [[] [] [] [] [] [] [] []]; try reflexivity.
    destruct d as [[] [] [] [] [] [] [] []]; reflexivity.
Qed.

Lemma is_digit_not_dot c : PyStr.is_digit c = true -> Ascii.eqb c "." = false.
Proof. by destruct c as [[] [] [] [] [] [] [] []]. Qed.

Lemma split_dots_spec a rest :
  forallb PyStr.is_digit a = true ->
  forall seen,
    split_dots seen (a ++ "."%char :: "."%char :: rest)
    = Some (rev seen ++ a, rest).
Proof.
  induction a as [|c a IH]; intros Ha seen.
  - simpl app. rewrite split_dots_step. simpl. by rewrite app_nil_r.
  - simpl in Ha. apply andb_true_iff in Ha as [Hc Ha].
    cbn [app]. rewrite split_dots_step.
    destruct (a ++ "."%char :: "."%char :: rest) as [|d r'] eqn:Hl.
    + by destruct a.
    + rewrite (is_digit_not_dot _ Hc), Hc. cbn [andb].
      rewrite (IH Ha). simpl. by rewrite <- app_assoc.
Qed.

Lemma match_numeric_range_shape a b :
  a <> "" -> b <> "" ->
  forallb PyStr.is_digit (PyStr.chars a) = true ->
  forallb PyStr.is_digit (PyStr.chars b) = true ->
  match_numeric_range (a +:+ ".." +:+ b)
  = Some (PyStr.digits_value 0 (PyStr.chars a),
          PyStr.digits_value 0 (PyStr.chars b)).
Proof.
  intros Ha Hb Hda Hdb. unfold match_numeric_range.
  rewrite !chars_append. simpl app.
  rewrite (split_dots_spec _ _ Hda []). simpl.
  destruct (PyStr.chars a) as [|x xs] eqn:Hxa.
  { contradict Ha. rewrite <- (of_chars_chars a), Hxa. reflexivity. }
  destruct (PyStr.chars b) as [|y ys] eqn:Hyb.
  { contradict Hb. rewrite <- (of_chars_chars b), Hyb. reflexivity. }
  by rewrite Hdb.
Qed.

(** The names of a numeric range: [base_i] for [i] from [start], [count]
    of them. *)
Lemma range_names_spec range_spec base_name count :
  forall i,
    range_names all_parts range_spec base_name i count
    = let names := map (fun i => base_name +:+ "_" +:+ PyStr.of_Z i)
                       (seqZ i (Z.of_nat count)) in
      match List.find (fun n => negb (existsb (String.eqb n) all_parts)) names with
      | Some missing =>
          Raise (BBE (RangeMissingPart range_spec missing all_parts))
      | None => Ok names
      end.
Proof.
  induction count as [|count IH]; intros i; [done|].
  cbn [range_names]. rewrite Nat2Z.inj_succ, seqZ_cons by lia.
  replace (Z.pred (Z.succ (Z.of_nat count))) with (Z.of_nat count) by lia.
  cbn [map List.find].
  destruct (existsb _ all_parts); cbn [negb]; [|done].
  rewrite IH. cbv zeta.
  replace (Z.succ i) with (i + 1)%Z by lia.
  by destruct (List.find _ _).
Qed.

(** X10.  [_expand_range_spec] on [base[a..b]], where [base] is a name
    without bracket or line break and [a], [b] are digit strings: the
    bounds are read as decimal numbers; a range whose start exceeds its
    end is refused; otherwise the result is [base_start], ...,
    [base_end] in this order, one name for each number, provided each
    is registered, and the first one that is not is reported. *)
Theorem numeric_range_expansion (base a b : string) :
  base <> "" -> PyStr.contains_char "[" base = false ->
  existsb is_newline (PyStr.chars base) = false ->
  a <> "" -> b <> "" ->
  forallb PyStr.is_digit (PyStr.chars a) = true ->
  forallb PyStr.is_digit (PyStr.chars b) = true ->
  let start := PyStr.digits_value 0 (PyStr.chars a) in
  let stop := PyStr.digits_value 0 (PyStr.chars b) in
  let range_spec := base +:+ "[" +:+ (a +:+ ".." +:+ b) +:+ "]" in
  let names := map (fun i => base +:+ "_" +:+ PyStr.of_Z i)
                   (seqZ start (stop + 1 - start)) in
  _expand_range_spec all_parts range_spec
  = if (stop <? start)%Z then Raise (BBE (RangeBackwards start stop))
    else match List.find (fun n => negb (existsb (String.eqb n) all_parts))
                         names with
         | Some missing =>
             Raise (BBE (RangeMissingPart range_spec missing all_parts))
         | None => Ok names
         end.
Proof.
  intros Hbase Hbr Hnl Ha Hb Hda Hdb start stop range_spec names.
  unfold _expand_range_spec. subst range_spec.
  assert (Hpart : a +:+ ".." +:+ b <> "").
  { destruct a; [done|]. done. }
  assert (Hnlp : existsb is_newline (PyStr.chars (a +:+ ".." +:+ b)) = false).
  { rewrite !chars_append, !existsb_app. simpl.
    assert (Hdigits : forall l, forallb PyStr.is_digit l = true ->
                                existsb is_newline l = false).
    { induction l as [|c l IHl]; simpl; [done|]. intros Hl.
      apply andb_true_iff in Hl as [Hc Hl]. rewrite (IHl Hl).
      by destruct c as [[] [] [] [] [] [] [] []]. }
    by rewrite !Hdigits. }
  rewrite (match_range_spec_shape _ _ Hbase Hbr Hnl Hpart Hnlp).
  assert (Hstar : String.eqb (a +:+ ".." +:+ b) "*" = false).
  { apply String.eqb_neq. intros Heq.
    apply (f_equal PyStr.chars) in Heq. rewrite !chars_append in Heq.
    by destruct (PyStr.chars a) as [|x [|y l]]. }
  rewrite Hstar, (match_numeric_range_shape _ _ Ha Hb Hda Hdb).
  fold start stop. destruct (stop <? start)%Z eqn:Hlt; [done|].
  rewrite range_names_spec. cbv zeta.
  apply Z.ltb_ge in Hlt. rewrite Z2Nat.id by lia. done.
Qed.

(** X11.  Three ways to name the parts of a pattern agree.  For a name
    [base] without star, bracket or line break, the wildcard string
    [base_*], the mapping [{pattern: base}] and the mapping
    [{range: base[*]}] expand to the same list, the registered names
    that start with [base_], and each fails when there is none. *)
Theorem pattern_syntaxes_agree (base : string) :
  base <> "" -> PyStr.contains_char "*" base = false ->
  PyStr.contains_char "[" base = false ->
  existsb is_newline (PyStr.chars base) = false ->
  py_str (YStr base) = base ->
  match _find_pattern_matches all_parts (base +:+ "_") with
  | [] =>
      expand_item py_str all_parts (YStr (base +:+ "_*"))
        = Raise (BBE (PatternNoMatch (base +:+ "_*") all_parts)) /\
      expand_item py_str all_parts (YDict [("pattern", YStr base)])
        = Raise (BBE (PatternNoMatch base all_parts)) /\
      expand_item py_str all_parts (YDict [("range", YStr (base +:+ "[*]"))])
        = Raise (BBE (RangeNoMatch (base +:+ "[*]") all_parts))
  | matches =>
      expand_item py_str all_parts (YStr (base +:+ "_*")) = Ok matches /\
      expand_item py_str all_parts (YDict [("pattern", YStr base)]) = Ok matches /\
      expand_item py_str all_parts (YDict [("range", YStr (base +:+ "[*]"))])
        = Ok matches
  end.
Proof.
  intros Hbase Hstar Hbr Hnl Hstr.
  assert (Hcontains : PyStr.contains_char "*" (base +:+ "_*") = true).
  { unfold PyStr.contains_char. rewrite chars_append, existsb_app.
    by rewrite orb_true_r. }
  assert (Hprefix : PyStr.remove_char "*" (base +:+ "_*") = base +:+ "_").
  { assert (Hno : PyStr.contains_char "*" (base +:+ "_") = false).
    { unfold PyStr.contains_char in *. rewrite chars_append, existsb_app, Hstar.
      reflexivity. }
    destruct (remove_char_star_shapes _ Hno) as [Hr _].
    assert (Hassoc : base +:+ "_*" = (base +:+ "_") +:+ "*").
    { apply chars_inj. rewrite !chars_append. by rewrite <- app_assoc. }
    rewrite Hassoc. exact Hr. }
  assert (Hrange : match_range_spec (base +:+ "[*]") = Some (base, "*")).
  { by apply (match_range_spec_shape base "*"). }
  cbn [expand_item Dict.get String.eqb Ascii.eqb Bool.eqb].
  rewrite Hcontains, Hprefix, Hstr. unfold _expand_range_spec.
  rewrite Hrange. cbn [String.eqb Ascii.eqb Bool.eqb].
  by destruct (_find_pattern_matches all_parts (base +:+ "_")).
Qed.
End Expansion.

Lemma numeric_range_expansion_witness :
  let all_parts := ["plate"; "hole_0"; "hole_1"; "hole_2"; "hole_3"] in
  "hole" <> "" /\ PyStr.contains_char "[" "hole" = false /\
  existsb BooleanBuilder.is_newline (PyStr.chars "hole") = false /\
  "01" <> "" /\ "3" <> "" /\
  forallb PyStr.is_digit (PyStr.chars "01") = true /\
  forallb PyStr.is_digit (PyStr.chars "3") = true /\
  BooleanBuilder._expand_range_spec all_parts "hole[01..3]"
  = Ok ["hole_1"; "hole_2"; "hole_3"].
Proof.
  intros all_parts. do 7 (split; [done|]).
  exact (numeric_range_expansion all_parts "hole" "01" "3"
           ltac:(done) eq_refl eq_refl ltac:(done) ltac:(done) eq_refl eq_refl).
Defined.

Lemma pattern_syntaxes_agree_witness :
  let all_parts := ["plate"; "hole_10"; "hole_2"; "holes"] in
  "hole" <> "" /\ PyStr.contains_char "*" "hole" = false /\
  PyStr.contains_char "[" "hole" = false /\
  existsb BooleanBuilder.is_newline (PyStr.chars "hole") = false /\
  ArithEval.py_str (YStr "hole") = "hole" /\
  BooleanBuilder.expand_item ArithEval.py_str all_parts (YStr "hole_*")
    = Ok ["hole_2"; "hole_10"] /\
  BooleanBuilder.expand_item ArithEval.py_str all_parts
    (YDict [("pattern", YStr "hole")]) = Ok ["hole_2"; "hole_10"] /\
  BooleanBuilder.expand_item ArithEval.py_str all_parts
    (YDict [("range", YStr "hole[*]")]) = Ok ["hole_2"; "hole_10"].
Proof.
  intros all_parts. do 5 (split; [done|]).
  exact (pattern_syntaxes_agree ArithEval.py_str all_parts "hole"
           ltac:(done) eq_refl eq_refl eq_refl eq_refl).
Defined.

(** ** Boolean operations and the parts that exist *)

Section BooleanKeepsParts.
Import PartModel BooleanBuilder.
Context {Geometry Position : Type}.
Variable utils_get_center : Geometry -> option Position.
Variables geom_union geom_cut geom_intersect : Geometry -> Geometry -> option Geometry.
Variable simple_eval : string -> list (string * yaml) -> ParameterResolver.eval_outcome.
Variable py_str : yaml -> string.
Variable fuel : nat.

Local Abbreviation builder := (BooleanBuilder.builder Geometry Position).
Local Abbreviation execute_body :=
  (BooleanBuilder.execute_body Geometry Position utils_get_center
     geom_union geom_cut geom_intersect py_str).
Local Abbreviation execute_boolean_operation :=
  (BooleanBuilder.execute_boolean_operation Geometry Position utils_get_center
     geom_union geom_cut geom_intersect simple_eval py_str fuel).

Lemma execute_body_store (b b' : builder) name operation resolved_spec :
  execute_body b name operation resolved_spec = Ok b' ->
  exists p geom md,
    Dict.get name (registry _ _ b) = None /\
    registry _ _ b' = registry _ _ b ++ [(name, p)] /\
    geometries (objects _ _ b') = geometries (objects _ _ b) ++ [geom] /\
    dicts (objects _ _ b') = dicts (objects _ _ b) ++ [md] /\
    histories (objects _ _ b') = histories (objects _ _ b) ++ [[]] /\
    geometry p = length (geometries (objects _ _ b)) /\
    transform_history p = length (histories (objects _ _ b)) /\
    current_position p = utils_get_center geom /\
    resolver _ _ b' = resolver _ _ b.
Proof.
  unfold BooleanBuilder.execute_body.
  match goal with |- bind_result ?G _ = _ -> _ => destruct G as [geom|e] end;
    simpl; [|done].
  destruct (source_part _ _ b operation resolved_spec) as [src|e];
    simpl; [|done].
  unfold Part_init, _calculate_center. simpl.
  rewrite list_lookup_middle by done.
  destruct (utils_get_center geom) as [c|] eqn:Hc; [|done].
  destruct (Dict.mem name (registry _ _ b)) eqn:Hmem; [done|].
  intros [= <-]. eexists _, geom, _. simpl. split_and!; try done.
  unfold Dict.mem in Hmem. by destruct (Dict.get name _).
Qed.

(** X12.  A boolean operation that succeeds adds one part and touches
    nothing else: the new name was not registered before (an
    operation that reuses a name fails), the new part has an empty
    transform history and its position is the centre of the new
    geometry, and every part registered before is still registered
    with the same geometry, metadata and history. *)
Theorem boolean_operation_keeps_parts (name : string)
    (spec : list (string * yaml)) (b b' : builder) :
  execute_boolean_operation name spec b = Some (Ok b') ->
  Dict.get name (registry _ _ b) = None /\
  (exists p geom,
     registry _ _ b' = registry _ _ b ++ [(name, p)] /\
     part_geometry _ _ b' p = Some geom /\
     current_position p = utils_get_center geom /\
     histories (objects _ _ b') !! transform_history p = Some []) /\
  (forall n p,
     Dict.get n (registry _ _ b) = Some p ->
     Dict.get n (registry _ _ b') = Some p /\
     (forall g, part_geometry _ _ b p = Some g ->
                part_geometry _ _ b' p = Some g) /\
     (forall md, dicts (objects _ _ b) !! metadata p = Some md ->
                 dicts (objects _ _ b') !! metadata p = Some md) /\
     (forall l, histories (objects _ _ b) !! transform_history p = Some l ->
                histories (objects _ _ b') !! transform_history p = Some l)).
Proof.
  unfold BooleanBuilder.execute_boolean_operation.
  destruct (ParameterResolver.resolve_value _ _ _ _ _) as [[[v|e] r']|];
    try done.
  destruct v as [| | | | | |resolved_spec]; try done.
  destruct (Dict.get "operation" resolved_spec) as [operation|]; [|done].
  destruct (BooleanBuilder.execute_body _ _ _ _ _ _ _ _ _ _ _)
    as [b1|[k|]] eqn:Hbody; try done.
  intros [= <-].
  apply execute_body_store in Hbody
    as (p & geom & md & Hfresh & Hreg & Hg & Hd & Hh & Hgp & Hhp & Hpos & _).
  simpl in *. split_and!.
  - exact Hfresh.
  - exists p, geom. split_and!; [done| |done|].
    + unfold part_geometry. rewrite Hg, Hgp. by apply list_lookup_middle.
    + rewrite Hh, Hhp. by apply list_lookup_middle.
  - intros n q Hq. split_and!.
    + rewrite Hreg. rewrite dict_get_app_fresh by done.
      destruct (String.eqb n name) eqn:E; [|done].
      apply String.eqb_eq in E. congruence.
    + unfold part_geometry. rewrite Hg. intros g Hgq.
      by apply lookup_app_l_Some.
    + rewrite Hd. intros m Hm. by apply lookup_app_l_Some.
    + rewrite Hh. intros l Hl. by apply lookup_app_l_Some.
Qed.
End BooleanKeepsParts.

Lemma boolean_operation_keeps_parts_witness :
  exists b',
    BooleanBuilder.ex_execute "drilled" BooleanBuilder.ex_difference
      BooleanBuilder.ex_builder = Some (Ok b') /\
    Dict.get "drilled" (BooleanBuilder.registry _ _ BooleanBuilder.ex_builder)
      = None /\
    BooleanBuilder.list_parts _ _ b' = ["plate"; "hole_0"; "hole_1"; "drilled"] /\
    BooleanBuilder.metadata_of _ _ b' "plate"
      = BooleanBuilder.metadata_of _ _ BooleanBuilder.ex_builder "plate".
Proof.
  eexists. split; [reflexivity|].
  match goal with
  | |- context [BooleanBuilder.list_parts _ _ ?b] =>
      pose proof (boolean_operation_keeps_parts
                    BooleanBuilder.ex_center
                    (BooleanBuilder.ex_combine "|") (BooleanBuilder.ex_combine "-")
                    (BooleanBuilder.ex_combine "&")
                    ArithEval.simple_eval ArithEval.py_str 1
                    "drilled" BooleanBuilder.ex_difference
                    BooleanBuilder.ex_builder b eq_refl) as (Hfresh & _ & _)
  end.
  split; [exact Hfresh|]. split; reflexivity.
Defined.

(** ** [ModelGraph]: nodes, edges and queries *)

Section GraphQueries.
Import ModelGraphM.

Lemma dict_keys_set_present {V} (k : string) (v : V) d :
  In k (Dict.keys d) -> Dict.keys (Dict.set k v d) = Dict.keys d.
Proof.
  induction d as [|[k' v'] d IH]; simpl; [done|].
  destruct (String.eqb k k') eqn:E.
  - apply String.eqb_eq in E. by subst.
  - apply String.eqb_neq in E. intros [Heq|Hin]; [congruence|].
    simpl. f_equal. by apply IH.
Qed.

Lemma has_node_In g n : has_node g n = true <-> In n (g_nodes g).
Proof. unfold has_node. apply existsb_eqb_In. Qed.

Lemma has_edge_In g u v : has_edge g u v = true <-> In (u, v) (g_edges g).
Proof.
  unfold has_edge. rewrite existsb_exists. split.
  - intros ([a b] & Hin & Heq). unfold edge_eqb in Heq. simpl in Heq.
    apply andb_true_iff in Heq as [Ha Hb].
    apply String.eqb_eq in Ha, Hb. by subst.
  - intros Hin. exists (u, v). split; [done|].
    unfold edge_eqb. simpl. by rewrite !String.eqb_refl.
Qed.

Lemma nx_add_node_present n g : In n (g_nodes g) -> nx_add_node n g = g.
Proof.
  intros Hin. unfold nx_add_node.
  by rewrite (proj2 (has_node_In g n) Hin).
Qed.

Lemma add_node_graph_consistent node g g' :
  graph_consistent g -> add_node node g = Ok g' -> graph_consistent g'.
Proof.
  intros (Hnodes & Hnd & Hwf). unfold add_node.
  destruct (Dict.mem (node_id node) (nodes g)) eqn:Hmem; [done|].
  intros [= <-]. unfold graph_consistent. cbn [nodes graph].
  assert (Hnone : Dict.get (node_id node) (nodes g) = None).
  { unfold Dict.mem in Hmem. by destruct (Dict.get _ _). }
  assert (Hfresh : ~ In (node_id node) (Dict.keys (nodes g)))
    by (by apply dict_get_none_keys).
  split_and!.
  - rewrite dict_keys_set_fresh by done. unfold nx_add_node.
    destruct (has_node (graph g) (node_id node)) eqn:Hn.
    + apply has_node_In in Hn. by rewrite Hnodes in Hn.
    + simpl. by rewrite Hnodes.
  - rewrite dict_keys_set_fresh by done.
    apply NoDup_ListNoDup, NoDup_app. split_and!.
    + by apply NoDup_ListNoDup.
    + intros x Hx Hx'. apply list_elem_of_In in Hx.
      apply list_elem_of_singleton in Hx'. by subst x.
    + apply NoDup_singleton.
  - by apply wf_nx_add_node.
Qed.

Lemma add_dependency_graph_consistent a b g g' :
  graph_consistent g -> add_dependency a b g = Ok g' -> graph_consistent g'.
Proof.
  intros (Hnodes & Hnd & Hwf). unfold add_dependency.
  destruct (Dict.mem a (nodes g)) eqn:Ha; [|done].
  destruct (Dict.mem b (nodes g)) eqn:Hb; [|done].
  simpl. intros [= <-]. unfold graph_consistent. cbn [nodes graph].
  apply dict_mem_keys in Ha, Hb. rewrite <- Hnodes in Ha, Hb.
  split_and!; [|done|by apply wf_nx_add_edge].
  unfold nx_add_edge. rewrite (nx_add_node_present b) by done.
  rewrite (nx_add_node_present a) by done.
  by destruct (has_edge (graph g) b a).
Qed.

Lemma mark_invalid_keys id g :
  Dict.keys (nodes (mark_invalid id g)) = Dict.keys (nodes g) /\
  graph (mark_invalid id g) = graph g.
Proof.
  unfold mark_invalid. destruct (Dict.get id (nodes g)) as [n|] eqn:Hn; [|done].
  cbn [nodes graph]. split; [|done]. apply dict_keys_set_present.
  by eapply dict_get_in_keys.
Qed.

Lemma mark_valid_keys id ts now g :
  Dict.keys (nodes (mark_valid id ts now g)) = Dict.keys (nodes g) /\
  graph (mark_valid id ts now g) = graph g.
Proof.
  unfold mark_valid. destruct (Dict.get id (nodes g)) as [n|] eqn:Hn; [|done].
  cbn [nodes graph]. split; [|done]. apply dict_keys_set_present.
  by eapply dict_get_in_keys.
Qed.

Lemma apply_call_graph_consistent g c :
  graph_consistent g -> graph_consistent (apply_call g c).
Proof.
  intros Hc. destruct c as [node|a b|id|id ts now]; simpl.
  - destruct (add_node node g) as [g'|e] eqn:Ha; [|done].
    by eapply add_node_graph_consistent.
  - destruct (add_dependency a b g) as [g'|e] eqn:Ha; [|done].
    by eapply add_dependency_graph_consistent.
  - destruct Hc as (Hn & Hnd & Hwf).
    destruct (mark_invalid_keys id g) as [Hk Hg].
    unfold graph_consistent. by rewrite Hk, Hg.
  - destruct Hc as (Hn & Hnd & Hwf).
    destruct (mark_valid_keys id ts now g) as [Hk Hg].
    unfold graph_consistent. by rewrite Hk, Hg.
Qed.

Lemma run_calls_graph_consistent calls : graph_consistent (run_calls calls).
Proof.
  unfold run_calls.
  assert (Hinit : graph_consistent empty).
  { split_and!; [done|constructor|]. by intros u v []. }
  revert Hinit. generalize empty.
  induction calls as [|c calls IH]; intros g Hg; simpl; [done|].
  apply IH. by apply apply_call_graph_consistent.
Qed.

Lemma predecessors_edge g v u : In u (predecessors g v) <-> edge g u v.
Proof.
  unfold predecessors, edge. rewrite in_map_iff. split.
  - intros ([a b] & Hfst & Hin). apply List.filter_In in Hin as [Hin Heq].
    simpl in *. apply String.eqb_eq in Heq. by subst.
  - intros Hin. exists (u, v). split; [done|].
    apply List.filter_In. split; [done|]. simpl. apply String.eqb_refl.
Qed.

(** What the two queries answer on a consistent graph. *)
Lemma get_dependencies_spec g x :
  graph_consistent g ->
  exists s, get_dependencies x g = Some s /\
            forall y, y ∈ s <-> edge (graph g) y x.
Proof.
  intros (Hnodes & Hnd & Hwf). unfold get_dependencies, nx_predecessors.
  destruct (Dict.mem x (nodes g)) eqn:Hmem; simpl.
  - apply dict_mem_keys in Hmem. rewrite <- Hnodes in Hmem.
    rewrite (proj2 (has_node_In _ _) Hmem). simpl. eexists. split; [done|].
    intros y. rewrite elem_of_list_to_set, list_elem_of_In.
    apply predecessors_edge.
  - exists ∅. split; [done|]. intros y. split; [set_solver|].
    intros He. apply Hwf in He as [_ Hx]. rewrite Hnodes in Hx.
    apply dict_mem_keys in Hx. congruence.
Qed.

Lemma get_dependents_spec g x :
  graph_consistent g ->
  exists s, get_dependents x g = Some s /\
            forall y, y ∈ s <-> edge (graph g) x y.
Proof.
  intros (Hnodes & Hnd & Hwf). unfold get_dependents, nx_successors.
  destruct (Dict.mem x (nodes g)) eqn:Hmem; simpl.
  - apply dict_mem_keys in Hmem. rewrite <- Hnodes in Hmem.
    rewrite (proj2 (has_node_In _ _) Hmem). simpl. eexists. split; [done|].
    intros y. rewrite elem_of_list_to_set, list_elem_of_In.
    apply successors_edge.
  - exists ∅. split; [done|]. intros y. split; [set_solver|].
    intros He. apply Hwf in He as [Hx _]. rewrite Hnodes in Hx.
    apply dict_mem_keys in Hx. congruence.
Qed.

(** X13.  On every graph built through [add_node], [add_dependency],
    [mark_invalid] and [mark_valid], the networkx graph and the node
    table list the same node ids in the same order, each once
    ([add_dependency] never creates a node); [get_dependencies] and
    [get_dependents] answer for every id without raising; the two are
    converse to each other ([x] is a dependent of [y] exactly when [y]
    is a dependency of [x]); and whatever they return are nodes of the
    graph. *)
Theorem dependencies_and_dependents_are_converse (calls : list api_call) :
  let g := run_calls calls in
  g_nodes (graph g) = Dict.keys (nodes g) /\
  List.NoDup (Dict.keys (nodes g)) /\
  forall x,
    exists deps dependents,
      get_dependencies x g = Some deps /\
      get_dependents x g = Some dependents /\
      (forall y, y ∈ deps <->
                 exists s, get_dependents y g = Some s /\ x ∈ s) /\
      (forall y, y ∈ dependents <->
                 exists s, get_dependencies y g = Some s /\ x ∈ s) /\
      (forall y, y ∈ deps ∪ dependents ->
                 contains g y = true /\ contains g x = true).
Proof.
  intros g. pose proof (run_calls_graph_consistent calls) as Hc. fold g in Hc.
  pose proof Hc as (Hnodes & Hnd & Hwf).
  split; [done|]. split; [done|]. intros x.
  destruct (get_dependencies_spec g x Hc) as (deps & Hdeps & Hd).
  destruct (get_dependents_spec g x Hc) as (dependents & Hdependents & Hs).
  exists deps, dependents. split_and!; try done.
  - intros y. rewrite Hd. split.
    + intros He. destruct (get_dependents_spec g y Hc) as (s & Hsy & Hy).
      exists s. split; [done|]. by apply Hy.
    + intros (s & Hsy & Hx).
      destruct (get_dependents_spec g y Hc) as (s' & Hsy' & Hy).
      rewrite Hsy in Hsy'. injection Hsy' as <-. by apply Hy.
  - intros y. rewrite Hs. split.
    + intros He. destruct (get_dependencies_spec g y Hc) as (s & Hsy & Hy).
      exists s. split; [done|]. by apply Hy.
    + intros (s & Hsy & Hx).
      destruct (get_dependencies_spec g y Hc) as (s' & Hsy' & Hy).
      rewrite Hsy in Hsy'. injection Hsy' as <-. by apply Hy.
  - intros y Hy. unfold contains. rewrite !dict_mem_keys, <- Hnodes.
    apply elem_of_union in Hy as [Hy|Hy].
    + apply Hd, Hwf in Hy. tauto.
    + apply Hs, Hwf in Hy. tauto.
Qed.

(** X14.  [add_dependency(dependent, dependency)] succeeds exactly when
    both ids are in the node table, the dependent being checked first.
    It then adds the edge from the dependency to the dependent and
    nothing else: the node table and the valid set are unchanged, and
    every other edge is kept.  It performs no cycle check (an edge from
    a node to itself is accepted), and adding the same dependency again
    changes nothing. *)
Theorem add_dependency_adds_one_edge (dependent dependency : string)
    (self : ModelGraph) :
  match add_dependency dependent dependency self with
  | Ok self' =>
      contains self dependent = true /\ contains self dependency = true /\
      nodes self' = nodes self /\ valid_nodes self' = valid_nodes self /\
      (forall u v, edge (graph self') u v <->
                   edge (graph self) u v \/ (u = dependency /\ v = dependent)) /\
      add_dependency dependent dependency self' = Ok self'
  | Raise e =>
      (contains self dependent = false /\
       e = ValueError ("Dependent node '" +:+ dependent
                       +:+ "' not found in graph")) \/
      (contains self dependent = true /\ contains self dependency = false /\
       e = ValueError ("Dependency node '" +:+ dependency
                       +:+ "' not found in graph"))
  end.
Proof.
  unfold add_dependency, contains.
  destruct (Dict.mem dependent (nodes self)) eqn:Ha; simpl; [|by left].
  destruct (Dict.mem dependency (nodes self)) eqn:Hb; simpl; [|by right].
  rewrite Ha, Hb. simpl. split_and!; try done.
  - intros u v. unfold edge. rewrite nx_add_edge_edges.
    split; (intros [?|Heq]; [by left|right]).
    + by injection Heq.
    + destruct Heq as [-> ->]. done.
  - do 2 f_equal.
    set (g1 := nx_add_edge dependency dependent (graph self)).
    assert (Hu : In dependency (g_nodes g1))
      by (apply nx_add_edge_nodes; tauto).
    assert (Hv : In dependent (g_nodes g1))
      by (apply nx_add_edge_nodes; tauto).
    assert (He : In (dependency, dependent) (g_edges g1))
      by (apply nx_add_edge_edges; tauto).
    unfold nx_add_edge at 1.
    rewrite (nx_add_node_present dependency) by done.
    rewrite (nx_add_node_present dependent) by done.
    by rewrite (proj2 (has_edge_In _ _ _) He).
Qed.
End GraphQueries.

(** ** [ModelGraph]: counting and invalid nodes *)

Section GraphCounts.
Import ModelGraphM.

Local Abbreviation count_type :=
  (fun (t : NodeType) (l : list (string * GraphNode)) =>
     length (List.filter (fun kv => NodeType_eqb (node_type (snd kv)) t) l)).

Lemma count_loop l :
  forall c0 c1 c2 c3 c4,
    fold_left (fun counts kv => increment (node_type (snd kv)) counts) l
      [(PARAMETER, c0); (PART, c1); (OPERATION, c2); (REFERENCE, c3); (SKETCH, c4)]
    = [(PARAMETER, c0 + count_type PARAMETER l);
       (PART, c1 + count_type PART l);
       (OPERATION, c2 + count_type OPERATION l);
       (REFERENCE, c3 + count_type REFERENCE l);
       (SKETCH, c4 + count_type SKETCH l)].
Proof.
  induction l as [|[k n] l IH]; intros c0 c1 c2 c3 c4.
  - simpl. by rewrite !Nat.add_0_r.
  - cbn [fold_left snd].
    destruct (node_type n) eqn:Ht;
      match goal with
      | |- fold_left _ _ ?init = _ =>
          let v := eval cbv [increment map NodeType_eqb fst snd] in init in
          change init with v
      end;
      rewrite IH; cbn [List.filter snd]; rewrite Ht; cbn [NodeType_eqb length];
      rewrite ?Nat.add_succ_r; reflexivity.
Qed.

Lemma count_types_total l :
  count_type PARAMETER l + count_type PART l + count_type OPERATION l
  + count_type REFERENCE l + count_type SKETCH l = length l.
Proof.
  induction l as [|[k n] l IH]; [done|].
  cbn [List.filter snd length]. destruct (node_type n); cbn [NodeType_eqb length]; lia.
Qed.

(** X15.  [get_node_count_by_type] has one entry for each of the five
    node types, in the order of the enumeration; the entry of a type is
    the number of nodes of that type; and the five counts add up to
    [len(graph)]. *)
Theorem node_counts_add_up (self : ModelGraph) :
  let counts := get_node_count_by_type self in
  map fst counts = all_node_types /\
  (forall t, count_of t counts = Some (count_type t (nodes self))) /\
  list_sum (map snd counts) = len self.
Proof.
  intros counts. subst counts. unfold get_node_count_by_type, len.
  cbn [map all_node_types]. rewrite (count_loop (nodes self) 0 0 0 0 0).
  cbn [Nat.add]. split_and!.
  - done.
  - by intros [].
  - unfold list_sum. cbn [map snd fold_right].
    pose proof (count_types_total (nodes self)) as Ht. cbv beta in Ht. lia.
Qed.

Lemma add_dependency_consistent a b g g' :
  valid_nodes_consistent g -> add_dependency a b g = Ok g' ->
  valid_nodes_consistent g'.
Proof.
  intros Hc. unfold add_dependency.
  destruct (negb (Dict.mem a (nodes g))); [done|].
  destruct (negb (Dict.mem b (nodes g))); [done|].
  by intros [= <-].
Qed.

Lemma run_calls_valid_consistent calls :
  valid_nodes_consistent (run_calls calls).
Proof.
  unfold run_calls. pose proof empty_consistent as Hinit.
  revert Hinit. generalize empty.
  induction calls as [|c calls IH]; intros g Hg; simpl; [done|].
  apply IH. destruct c as [node|a b|id|id ts now]; simpl.
  - destruct (add_node node g) as [g'|e] eqn:Ha; [|done].
    by eapply add_node_consistent.
  - destruct (add_dependency a b g) as [g'|e] eqn:Ha; [|done].
    by eapply add_dependency_consistent.
  - by apply mark_invalid_consistent.
  - by apply mark_valid_consistent.
Qed.

Lemma dict_get_In {V} (k : string) (v : V) d :
  List.NoDup (Dict.keys d) -> In (k, v) d -> Dict.get k d = Some v.
Proof.
  induction d as [|[k' v'] d IH]; simpl; [done|].
  intros Hnd [Heq|Hin].
  - injection Heq as -> ->. by rewrite String.eqb_refl.
  - apply List.NoDup_cons_iff in Hnd as [Hk Hnd].
    destruct (String.eqb k k') eqn:E; [|by apply IH].
    apply String.eqb_eq in E. subst k'. contradict Hk.
    apply in_map_iff. by exists (k, v).
Qed.

Lemma dict_get_Some_In {V} (k : string) (v : V) d :
  Dict.get k d = Some v -> In (k, v) d.
Proof.
  induction d as [|[k' v'] d IH]; simpl; [done|].
  destruct (String.eqb k k') eqn:E.
  - apply String.eqb_eq in E. subst. intros [= ->]. by left.
  - intros Hk. right. by apply IH.
Qed.

Lemma get_invalid_nodes_spec g id :
  List.NoDup (Dict.keys (nodes g)) ->
  id ∈ get_invalid_nodes g
  <-> exists n, Dict.get id (nodes g) = Some n /\ is_valid n = false.
Proof.
  intros Hnd. unfold get_invalid_nodes.
  rewrite elem_of_list_to_set, list_elem_of_In, in_map_iff. split.
  - intros ([k n] & Hk & Hin). simpl in Hk. subst k.
    apply List.filter_In in Hin as [Hin Hv]. simpl in Hv.
    exists n. split; [by apply dict_get_In|]. by apply negb_true_iff.
  - intros (n & Hn & Hv). exists (id, n). split; [done|].
    apply List.filter_In. split; [by apply dict_get_Some_In|].
    simpl. by rewrite Hv.
Qed.

(** X16.  On every graph built through the four calls,
    [get_invalid_nodes] is the complement of [valid_nodes] among the
    node ids.  [mark_invalid(x)] makes at most [x] invalid: the invalid
    set grows by [x] when [x] is a node and not at all otherwise, so
    the dependents of [x] keep their state (the call does not
    propagate).  [mark_valid(x)] takes [x], and nothing else, out of the
    invalid set. *)
Theorem invalid_nodes_complement (calls : list api_call) :
  let g := run_calls calls in
  (forall id, id ∈ get_invalid_nodes g
              <-> contains g id = true /\ id ∉ valid_nodes g) /\
  (forall x, get_invalid_nodes (mark_invalid x g)
             = get_invalid_nodes g ∪ (if contains g x then {[x]} else ∅)) /\
  (forall x ts now, get_invalid_nodes (mark_valid x ts now g)
                    = get_invalid_nodes g ∖ {[x]}).
Proof.
  intros g.
  pose proof (run_calls_graph_consistent calls) as (_ & Hnd & _).
  pose proof (run_calls_valid_consistent calls) as Hv.
  fold g in Hnd, Hv. split_and!.
  - intros id. rewrite get_invalid_nodes_spec by done.
    unfold contains. rewrite dict_mem_get, (Hv id). split.
    + intros (n & Hn & Hf). split; [eauto|].
      intros (n' & Hn' & Ht). congruence.
    + intros [[n Hn] Hnot]. exists n. split; [done|].
      destruct (is_valid n) eqn:E; [|done]. contradict Hnot. eauto.
  - intros x. apply set_eq. intros id.
    assert (Hnd' : List.NoDup (Dict.keys (nodes (mark_invalid x g)))).
    { by rewrite (proj1 (mark_invalid_keys x g)). }
    rewrite elem_of_union, !get_invalid_nodes_spec by done.
    unfold mark_invalid, contains, Dict.mem.
    destruct (Dict.get x (nodes g)) as [nx|] eqn:Hx; cbn [nodes].
    + rewrite elem_of_singleton. split.
      * intros (n & Hn & Hf). rewrite dict_get_set in Hn.
        destruct (String.eqb id x) eqn:E.
        -- apply String.eqb_eq in E. by right.
        -- left. eauto.
      * intros [(n & Hn & Hf)| ->].
        -- destruct (String.eqb id x) eqn:E.
           ++ apply String.eqb_eq in E. subst id.
              exists (set_is_valid false nx). by rewrite dict_get_set_eq.
           ++ exists n. rewrite dict_get_set, E. done.
        -- exists (set_is_valid false nx). by rewrite dict_get_set_eq.
    + split; [by left|]. intros [?|Hin]; [done|]. set_solver.
  - intros x ts now. apply set_eq. intros id.
    assert (Hnd' : List.NoDup (Dict.keys (nodes (mark_valid x ts now g)))).
    { by rewrite (proj1 (mark_valid_keys x ts now g)). }
    rewrite elem_of_difference, elem_of_singleton,
      !get_invalid_nodes_spec by done.
    unfold mark_valid.
    destruct (Dict.get x (nodes g)) as [nx|] eqn:Hx; cbn [nodes].
    + split.
      * intros (n & Hn & Hf). rewrite dict_get_set in Hn.
        destruct (String.eqb id x) eqn:E.
        -- injection Hn as <-. done.
        -- apply String.eqb_neq in E. split; [eauto|done].
      * intros [(n & Hn & Hf) Hne]. exists n.
        rewrite dict_get_set_ne by congruence. done.
    + split.
      * intros (n & Hn & Hf). split; [eauto|]. intros ->. congruence.
      * intros [? _]. done.
Qed.
End GraphCounts.

(** ** [GraphBuilder]: what the phases of [build_graph] keep *)

Section Phases.
Import ModelGraphM GraphBuilder.
Variable sha256_hexdigest : string -> string.
Variable py_str : yaml -> string.

(** A property of the graph that adding a dependency keeps, and that
    adding a node made by the builder keeps. *)
Variable P : ModelGraph -> Prop.
Hypothesis P_dependency : forall a d g g',
  P g -> add_dependency a d g = Ok g' -> P g'.
Hypothesis P_node : forall n g g',
  builder_node n -> P g -> add_node n g = Ok g' -> P g'.

Lemma add_dep_keeps dependent dependency b b' :
  add_dep dependent dependency b = Ok b' ->
  (P (graph b) -> P (graph b')) /\
  parameter_names b' = parameter_names b /\
  nodes (graph b') = nodes (graph b).
Proof.
  unfold add_dep, lift.
  destruct (add_dependency dependent dependency (graph b)) as [g|e] eqn:Hd;
    [|done].
  intros [= <-]. simpl. split_and!; [|done|].
  - intros Hp. by eapply P_dependency.
  - unfold add_dependency in Hd.
    destruct (negb (Dict.mem dependent _)); [done|].
    destruct (negb (Dict.mem dependency _)); [done|].
    by injection Hd as <-.
Qed.

Lemma add_parameter_deps_keeps dependent_id skip refs :
  forall b b',
    add_parameter_deps dependent_id skip refs b = Ok b' ->
    (P (graph b) -> P (graph b')) /\
    parameter_names b' = parameter_names b /\
    nodes (graph b') = nodes (graph b).
Proof.
  induction refs as [|r refs IH]; intros b b'; simpl.
  - by intros [= <-].
  - destruct (MetadataUtils.in_list r (parameter_names b) && _).
    + destruct (add_dep dependent_id ("parameter:" +:+ r) b) as [b1|e] eqn:Hstep;
        simpl; [|done].
      apply add_dep_keeps in Hstep as (Hp1 & Hn1 & Hk1).
      intros Hrest. apply IH in Hrest as (Hp & Hn & Hk).
      split_and!; [auto|congruence|congruence].
    + apply IH.
Qed.

Lemma add_part_or_operation_dep_keeps dependent_id part_name b b' :
  add_part_or_operation_dep py_str dependent_id part_name b = Ok b' ->
  (P (graph b) -> P (graph b')) /\
  parameter_names b' = parameter_names b /\
  nodes (graph b') = nodes (graph b).
Proof.
  unfold add_part_or_operation_dep.
  destruct (contains _ _); [apply add_dep_keeps|].
  destruct (contains _ _); [apply add_dep_keeps|].
  by intros [= <-].
Qed.

Lemma add_part_deps_keeps dependent_id part_refs :
  forall b b',
    add_part_deps py_str dependent_id part_refs b = Ok b' ->
    (P (graph b) -> P (graph b')) /\
    parameter_names b' = parameter_names b /\
    nodes (graph b') = nodes (graph b).
Proof.
  induction part_refs as [|r refs IH]; intros b b'; simpl.
  - by intros [= <-].
  - destruct (add_part_or_operation_dep py_str dependent_id r b)
      as [b1|e] eqn:Hstep; simpl; [|done].
    apply add_part_or_operation_dep_keeps in Hstep as (Hp1 & Hn1 & Hk1).
    intros Hrest. apply IH in Hrest as (Hp & Hn & Hk).
    split_and!; [auto|congruence|congruence].
Qed.

Lemma extract_parameter_dependencies_keeps parameters :
  forall b b',
    _extract_parameter_dependencies parameters b = Ok b' ->
    (P (graph b) -> P (graph b')) /\
    parameter_names b' = parameter_names b /\
    nodes (graph b') = nodes (graph b).
Proof.
  induction parameters as [|[name v] parameters IH]; intros b b'; simpl.
  - by intros [= <-].
  - destruct (add_parameter_deps _ _ _ b) as [b1|e] eqn:Hstep; simpl; [|done].
    apply add_parameter_deps_keeps in Hstep as (Hp1 & Hn1 & Hk1).
    intros Hrest. apply IH in Hrest as (Hp & Hn & Hk).
    split_and!; [auto|congruence|congruence].
Qed.

Lemma extract_sketch_dependencies_keeps sketches :
  forall b b',
    _extract_sketch_dependencies sketches b = Ok b' ->
    (P (graph b) -> P (graph b')) /\
    parameter_names b' = parameter_names b /\
    nodes (graph b') = nodes (graph b).
Proof.
  induction sketches as [|[name v] sketches IH]; intros b b'; simpl.
  - by intros [= <-].
  - destruct (add_parameter_deps _ _ _ b) as [b1|e] eqn:Hstep; simpl; [|done].
    apply add_parameter_deps_keeps in Hstep as (Hp1 & Hn1 & Hk1).
    intros Hrest. apply IH in Hrest as (Hp & Hn & Hk).
    split_and!; [auto|congruence|congruence].
Qed.

Lemma extract_part_dependencies_keeps parts :
  forall b b',
    _extract_part_dependencies py_str parts b = Ok b' ->
    (P (graph b) -> P (graph b')) /\
    parameter_names b' = parameter_names b /\
    nodes (graph b') = nodes (graph b).
Proof.
  induction parts as [|[name spec] parts IH]; intros b b'; simpl.
  - by intros [= <-].
  - destruct (add_parameter_deps _ _ _ b) as [b1|e] eqn:Hstep; simpl; [|done].
    apply add_parameter_deps_keeps in Hstep as (Hp1 & Hn1 & Hk1).
    destruct (lookup_field "sketch" spec) as [sketch|e]; simpl; [|done].
    match goal with
    | |- bind_result ?x _ = _ -> _ => destruct x as [b2|e] eqn:Hstep2
    end; simpl; [|done].
    assert ((P (graph b1) -> P (graph b2)) /\
            parameter_names b2 = parameter_names b1 /\
            nodes (graph b2) = nodes (graph b1)) as (Hp2 & Hn2 & Hk2).
    { destruct sketch as [sketch_name|]; [|by injection Hstep2 as <-].
      destruct (contains _ _); [|by injection Hstep2 as <-].
      by apply add_dep_keeps in Hstep2. }
    intros Hrest. apply IH in Hrest as (Hp & Hn & Hk).
    split_and!; [auto|congruence|congruence].
Qed.

Lemma extract_operation_dependencies_keeps operations :
  forall b b',
    _extract_operation_dependencies py_str operations b = Ok b' ->
    (P (graph b) -> P (graph b')) /\
    parameter_names b' = parameter_names b /\
    nodes (graph b') = nodes (graph b).
Proof.
  induction operations as [|[name spec] operations IH]; intros b b'; simpl.
  - by intros [= <-].
  - destruct spec as [| | | | | |d]; try done.
    destruct (add_parameter_deps _ _ _ b) as [b1|e] eqn:Hstep; simpl; [|done].
    apply add_parameter_deps_keeps in Hstep as (Hp1 & Hn1 & Hk1).
    destruct (_extract_operation_part_refs d) as [part_refs|e]; simpl; [|done].
    destruct (add_part_deps py_str _ part_refs b1) as [b2|e] eqn:Hstep2;
      simpl; [|done].
    apply add_part_deps_keeps in Hstep2 as (Hp2 & Hn2 & Hk2).
    intros Hrest. apply IH in Hrest as (Hp & Hn & Hk).
    split_and!; [auto|congruence|congruence].
Qed.

Lemma extract_reference_dependencies_keeps references :
  forall b b',
    _extract_reference_dependencies py_str references b = Ok b' ->
    (P (graph b) -> P (graph b')) /\
    parameter_names b' = parameter_names b /\
    nodes (graph b') = nodes (graph b).
Proof.
  induction references as [|[name spec] references IH]; intros b b'; simpl.
  - by intros [= <-].
  - destruct (add_parameter_deps _ _ _ b) as [b1|e] eqn:Hstep; simpl; [|done].
    apply add_parameter_deps_keeps in Hstep as (Hp1 & Hn1 & Hk1).
    destruct (lookup_field "part" spec) as [part|e]; simpl; [|done].
    match goal with
    | |- bind_result ?x _ = _ -> _ => destruct x as [b2|e] eqn:Hstep2
    end; simpl; [|done].
    assert ((P (graph b1) -> P (graph b2)) /\
            parameter_names b2 = parameter_names b1 /\
            nodes (graph b2) = nodes (graph b1)) as (Hp2 & Hn2 & Hk2).
    { destruct part as [part_name|]; [|by injection Hstep2 as <-].
      by apply add_part_or_operation_dep_keeps in Hstep2. }
    intros Hrest. apply IH in Hrest as (Hp & Hn & Hk).
    split_and!; [auto|congruence|congruence].
Qed.

(** *** Phase 1 *)

Lemma lift_add_node_keeps node b b' :
  builder_node node ->
  lift (add_node node (graph b)) b = Ok b' ->
  (P (graph b) -> P (graph b')) /\
  parameter_names b' = parameter_names b /\
  Dict.keys (nodes (graph b')) = Dict.keys (nodes (graph b)) ++ [node_id node].
Proof.
  intros Hnode. unfold lift.
  destruct (add_node node (graph b)) as [g|e] eqn:Ha; [|done].
  intros [= <-]. simpl. split_and!; [|done|].
  - intros Hp. by eapply P_node.
  - unfold add_node in Ha.
    destruct (Dict.mem (node_id node) (nodes (graph b))) eqn:Hmem; [done|].
    injection Ha as <-. cbn [nodes]. apply dict_keys_set_fresh.
    unfold Dict.mem in Hmem. by destruct (Dict.get _ _).
Qed.

Lemma add_parameter_nodes_keeps parameters :
  forall b b',
    _add_parameter_nodes sha256_hexdigest parameters b = Ok b' ->
    (P (graph b) -> P (graph b')) /\
    parameter_names b' = parameter_names b ++ Dict.keys parameters /\
    Dict.keys (nodes (graph b'))
    = Dict.keys (nodes (graph b)) ++ section_ids PARAMETER parameters.
Proof.
  induction parameters as [|[name v] parameters IH]; intros b b'; simpl.
  - intros [= <-]. by rewrite !app_nil_r.
  - match goal with
    | |- bind_result ?r _ = _ -> _ => destruct r as [b1|e] eqn:Hstep
    end; simpl; [|done].
    apply (lift_add_node_keeps _
             (mkBuilder (graph b) (parameter_names b ++ [name])))
      in Hstep as (Hp1 & Hn1 & Hk1); [|by eexists _, _, _, _, _].
    intros Hrest. apply IH in Hrest as (Hp & Hn & Hk).
    split_and!; [auto| |].
    + rewrite Hn, Hn1. simpl. by rewrite <- app_assoc.
    + rewrite Hk, Hk1. simpl. by rewrite <- app_assoc.
Qed.

Lemma add_spec_nodes_keeps kind entries :
  forall b b',
    add_spec_nodes sha256_hexdigest kind entries b = Ok b' ->
    (P (graph b) -> P (graph b')) /\
    parameter_names b' = parameter_names b /\
    Dict.keys (nodes (graph b'))
    = Dict.keys (nodes (graph b)) ++ section_ids kind entries.
Proof.
  induction entries as [|[name spec] entries IH]; intros b b'; simpl.
  - intros [= <-]. by rewrite !app_nil_r.
  - match goal with
    | |- bind_result ?r _ = _ -> _ => destruct r as [b1|e] eqn:Hstep
    end; simpl; [|done].
    apply lift_add_node_keeps in Hstep as (Hp1 & Hn1 & Hk1);
      [|by eexists _, _, _, _, _].
    intros Hrest. apply IH in Hrest as (Hp & Hn & Hk).
    split_and!; [auto|congruence|].
    rewrite Hk, Hk1. simpl. by rewrite <- app_assoc.
Qed.

Lemma add_operation_nodes_keeps operations :
  forall b b',
    _add_operation_nodes sha256_hexdigest operations b = Ok b' ->
    (P (graph b) -> P (graph b')) /\
    parameter_names b' = parameter_names b /\
    Dict.keys (nodes (graph b'))
    = Dict.keys (nodes (graph b)) ++ section_ids OPERATION operations.
Proof.
  induction operations as [|[name spec] operations IH]; intros b b'; simpl.
  - intros [= <-]. by rewrite !app_nil_r.
  - destruct spec as [| | | | | |d]; try done.
    match goal with
    | |- bind_result ?r _ = _ -> _ => destruct r as [b1|e] eqn:Hstep
    end; simpl; [|done].
    apply lift_add_node_keeps in Hstep as (Hp1 & Hn1 & Hk1);
      [|by eexists _, _, _, _, _].
    intros Hrest. apply IH in Hrest as (Hp & Hn & Hk).
    split_and!; [auto|congruence|].
    rewrite Hk, Hk1. simpl. by rewrite <- app_assoc.
Qed.

(** Phases 1 and 2 together. *)
Lemma construct_keeps yaml_data b :
  P empty ->
  construct sha256_hexdigest py_str yaml_data = Ok b ->
  exists parameters sketches parts operations references,
    section_items yaml_data "parameters" = Ok parameters /\
    section_items yaml_data "sketches" = Ok sketches /\
    section_items yaml_data "parts" = Ok parts /\
    section_items yaml_data "operations" = Ok operations /\
    section_items yaml_data "references" = Ok references /\
    P (graph b) /\
    parameter_names b = Dict.keys parameters /\
    Dict.keys (nodes (graph b))
    = section_ids PARAMETER parameters ++ section_ids SKETCH sketches
      ++ section_ids PART parts ++ section_ids OPERATION operations
      ++ section_ids REFERENCE references.
Proof.
  intros Hempty. unfold construct.
  destruct (section_items yaml_data "parameters") as [parameters|e]; simpl; [|done].
  destruct (_add_parameter_nodes _ parameters init) as [b1|e] eqn:H1; simpl; [|done].
  destruct (section_items yaml_data "sketches") as [sketches|e]; simpl; [|done].
  destruct (_add_sketch_nodes _ sketches b1) as [b2|e] eqn:H2; simpl; [|done].
  destruct (section_items yaml_data "parts") as [parts|e]; simpl; [|done].
  destruct (_add_part_nodes _ parts b2) as [b3|e] eqn:H3; simpl; [|done].
  destruct (section_items yaml_data "operations") as [operations|e]; simpl; [|done].
  destruct (_add_operation_nodes _ operations b3) as [b4|e] eqn:H4; simpl; [|done].
  destruct (section_items yaml_data "references") as [references|e]; simpl; [|done].
  destruct (_add_reference_nodes _ references b4) as [b5|e] eqn:H5; simpl; [|done].
  destruct (_extract_parameter_dependencies parameters b5) as [b6|e] eqn:H6;
    simpl; [|done].
  destruct (_extract_sketch_dependencies sketches b6) as [b7|e] eqn:H7;
    simpl; [|done].
  destruct (_extract_part_dependencies _ parts b7) as [b8|e] eqn:H8;
    simpl; [|done].
  destruct (_extract_operation_dependencies _ operations b8) as [b9|e] eqn:H9;
    simpl; [|done].
  intros H10.
  apply add_parameter_nodes_keeps in H1 as (P1 & N1 & K1).
  apply add_spec_nodes_keeps in H2 as (P2 & N2 & K2).
  apply add_spec_nodes_keeps in H3 as (P3 & N3 & K3).
  apply add_operation_nodes_keeps in H4 as (P4 & N4 & K4).
  apply add_spec_nodes_keeps in H5 as (P5 & N5 & K5).
  apply extract_parameter_dependencies_keeps in H6 as (P6 & N6 & K6).
  apply extract_sketch_dependencies_keeps in H7 as (P7 & N7 & K7).
  apply extract_part_dependencies_keeps in H8 as (P8 & N8 & K8).
  apply extract_operation_dependencies_keeps in H9 as (P9 & N9 & K9).
  apply extract_reference_dependencies_keeps in H10 as (P10 & N10 & K10).
  exists parameters, sketches, parts, operations, references.
  split_and!; try done.
  - auto 20.
  - rewrite N10, N9, N8, N7, N6, N5, N4, N3, N2, N1. done.
  - rewrite K10, K9, K8, K7, K6, K5, K4, K3, K2, K1. simpl.
    by rewrite <- !app_assoc.
Qed.
End Phases.

(** ** Node ids *)

Section NodeIds.
Import ModelGraphM GraphBuilder.

Lemma ascii_eqb_refl c : PyStr.ascii_eqb c c = true.
Proof. unfold PyStr.ascii_eqb. apply Ascii.eqb_refl. Qed.

Lemma starts_with_chars_app p r : PyStr.starts_with_chars p (p ++ r) = true.
Proof.
  induction p as [|c p IH]; simpl; [done|]. by rewrite ascii_eqb_refl.
Qed.

Lemma starts_with_chars_inv p : forall l,
  PyStr.starts_with_chars p l = true -> exists r, l = p ++ r.
Proof.
  induction p as [|c p IH]; intros l; simpl.
  - intros _. by exists l.
  - destruct l as [|d l]; [done|]. intros Hl.
    apply andb_true_iff in Hl as [Hc Hl].
    unfold PyStr.ascii_eqb in Hc. apply Ascii.eqb_eq in Hc. subst d.
    destruct (IH l Hl) as [r ->]. by exists r.
Qed.

(** X17.  The check of [GraphNode.__post_init__].  A node is accepted
    exactly when its id starts with the value of its type followed by a
    colon; the separate test for a colon never decides anything.  Every
    node the graph builder makes has the id [type:name] and is
    accepted, whatever the name. *)
Theorem post_init_checks_prefix :
  (forall n : GraphNode,
     GraphNode_post_init n
     = PyStr.startswith (node_id n) (NodeType_value (node_type n) +:+ ":")) /\
  (forall kind name spec hash is_pattern,
     let n := new_node kind name spec hash is_pattern in
     node_id n = NodeType_value kind +:+ ":" +:+ name /\
     GraphNode_post_init n = true).
Proof.
  split.
  - intros n. unfold GraphNode_post_init.
    destruct (PyStr.startswith _ _) eqn:Hs; [|by rewrite andb_false_r].
    rewrite andb_true_r. unfold PyStr.startswith in Hs.
    apply starts_with_chars_inv in Hs as [r Hr].
    unfold PyStr.contains_char. rewrite Hr, chars_append, !existsb_app.
    simpl. by rewrite orb_true_r.
  - intros kind name spec hash is_pattern n. split; [done|].
    unfold GraphNode_post_init, n, new_node. cbn [node_id node_type].
    apply andb_true_iff. split.
    + unfold PyStr.contains_char. rewrite !chars_append, !existsb_app.
      simpl. by rewrite orb_true_r.
    + unfold PyStr.startswith. rewrite !chars_append.
      rewrite app_assoc. apply starts_with_chars_app.
Qed.

Variable sha256_hexdigest : string -> string.
Variable py_str : yaml -> string.

(** The facts about the node table that [construct] keeps. *)
Local Abbreviation table_ok :=
  (fun g : ModelGraph =>
     graph_consistent g /\ valid_nodes_consistent g /\
     forall id n, Dict.get id (nodes g) = Some n ->
                  node_id n = id /\ is_valid n = true /\
                  last_built n = None /\ builder_node n).

Lemma table_ok_dependency a d g g' :
  table_ok g -> add_dependency a d g = Ok g' -> table_ok g'.
Proof.
  intros (Hc & Hv & Hn) Hadd. split_and!.
  - by eapply add_dependency_graph_consistent.
  - by eapply add_dependency_consistent.
  - unfold add_dependency in Hadd.
    destruct (negb (Dict.mem a _)); [done|].
    destruct (negb (Dict.mem d _)); [done|].
    by injection Hadd as <-.
Qed.

Lemma table_ok_node n g g' :
  builder_node n -> table_ok g -> add_node n g = Ok g' -> table_ok g'.
Proof.
  intros Hb (Hc & Hv & Hn) Hadd. split_and!.
  - by eapply add_node_graph_consistent.
  - by eapply add_node_consistent.
  - unfold add_node in Hadd.
    destruct (Dict.mem (node_id n) (nodes g)); [done|].
    injection Hadd as <-. cbn [nodes]. intros id m.
    rewrite dict_get_set. destruct (String.eqb id (node_id n)) eqn:E.
    + apply String.eqb_eq in E. intros [= <-]. split_and!; try done.
      all: by destruct Hb as (? & ? & ? & ? & ? & ->).
    + apply Hn.
Qed.

(** X18.  The nodes of a graph that [build_graph] returns.  There is
    one node for each entry of the five sections, with id
    [parameter:name], [sketch:name], [part:name], [operation:name] or
    [reference:name], listed section by section in the order of the
    document, both in the node table and in the networkx graph; so
    [len(graph)] is the number of entries.  Every node is stored under
    its own id, is valid and has never been built, and the valid set
    holds all of them. *)
Theorem build_graph_nodes (yaml_data : list (string * yaml)) (g : ModelGraph) :
  build_graph sha256_hexdigest py_str yaml_data = Ok g ->
  exists parameters sketches parts operations references,
    section_items yaml_data "parameters" = Ok parameters /\
    section_items yaml_data "sketches" = Ok sketches /\
    section_items yaml_data "parts" = Ok parts /\
    section_items yaml_data "operations" = Ok operations /\
    section_items yaml_data "references" = Ok references /\
    let ids := section_ids PARAMETER parameters ++ section_ids SKETCH sketches
               ++ section_ids PART parts ++ section_ids OPERATION operations
               ++ section_ids REFERENCE references in
    Dict.keys (nodes g) = ids /\
    g_nodes (ModelGraphM.graph g) = ids /\
    List.NoDup ids /\
    len g = length parameters + length sketches + length parts
            + length operations + length references /\
    (forall id, id ∈ valid_nodes g <-> In id ids) /\
    (forall id n, Dict.get id (nodes g) = Some n ->
                  node_id n = id /\ is_valid n = true /\ last_built n = None).
Proof.
  unfold build_graph.
  destruct (construct sha256_hexdigest py_str yaml_data) as [b|e] eqn:Hc;
    simpl; [|done].
  intros Hval.
  assert (g = graph b) as ->.
  { unfold validate in Hval. destruct (detect_cycles (graph b)); [|done].
    by injection Hval. }
  apply (construct_keeps sha256_hexdigest py_str table_ok
           table_ok_dependency table_ok_node) in Hc
    as (parameters & sketches & parts & operations & references
        & H1 & H2 & H3 & H4 & H5 & ((Hg & Hnd & Hwf) & Hv & Hn) & _ & Hk).
  2:{ cbv beta. split; [|split; [apply empty_consistent|done]].
      unfold graph_consistent. split; [done|]. split; [constructor|].
      by intros u v []. }
  exists parameters, sketches, parts, operations, references.
  split_and!; try done.
  - by rewrite Hg.
  - by rewrite <- Hk.
  - unfold len. rewrite <- (length_map fst (nodes (graph b))).
    change (map fst (nodes (graph b))) with (Dict.keys (nodes (graph b))).
    rewrite Hk. unfold section_ids. rewrite !length_app, !length_map. lia.
  - intros id. rewrite <- Hk, (Hv id), <- dict_mem_keys, dict_mem_get. split.
    + intros (n & Hget & _). eauto.
    + intros [n Hget]. exists n. split; [done|]. apply Hn in Hget. tauto.
  - intros id n Hget. apply Hn in Hget. tauto.
Qed.
End NodeIds.

Lemma build_graph_nodes_witness :
  exists g,
    GraphBuilder.build_graph GraphBuilder.identity_digest ArithEval.py_str
      GraphBuilder.doc_chain = Ok g /\
    Dict.keys (ModelGraphM.nodes g)
    = ["parameter:a"; "parameter:b"; "parameter:c"; "part:base";
       "operation:moved"] /\
    ModelGraphM.len g = 5.
Proof.
  destruct (GraphBuilder.build_graph GraphBuilder.identity_digest
              ArithEval.py_str GraphBuilder.doc_chain) as [g|e] eqn:Hb;
    [|vm_compute in Hb; discriminate Hb].
  exists g. split; [reflexivity|].
  destruct (build_graph_nodes GraphBuilder.identity_digest ArithEval.py_str
              GraphBuilder.doc_chain g Hb)
    as (parameters & sketches & parts & operations & references
        & H1 & H2 & H3 & H4 & H5 & Hk & _ & _ & Hlen & _).
  vm_compute in H1, H2, H3, H4, H5.
  injection H1 as <-. injection H2 as <-. injection H3 as <-.
  injection H4 as <-. injection H5 as <-.
  split; [exact Hk|exact Hlen].
Defined.

(** ** [GraphBuilder]: the dependencies of a parameter *)

Section ParameterEdges.
Import ModelGraphM GraphBuilder.
Variable sha256_hexdigest : string -> string.
Variable py_str : yaml -> string.

Lemma edge_kept u v a d g g' :
  edge (ModelGraphM.graph g) u v -> add_dependency a d g = Ok g' ->
  edge (ModelGraphM.graph g') u v.
Proof.
  intros He. unfold add_dependency.
  destruct (negb (Dict.mem a _)); [done|].
  destruct (negb (Dict.mem d _)); [done|].
  intros [= <-]. unfold edge. cbn [ModelGraphM.graph].
  apply nx_add_edge_edges. by left.
Qed.

Lemma add_dep_edge dependent dependency b b' :
  add_dep dependent dependency b = Ok b' ->
  edge (ModelGraphM.graph (graph b')) dependency dependent.
Proof.
  unfold add_dep, lift, add_dependency.
  destruct (negb (Dict.mem dependent _)); [done|].
  destruct (negb (Dict.mem dependency _)); [done|].
  intros [= <-]. unfold edge. cbn [ModelGraphM.graph graph].
  apply nx_add_edge_edges. by right.
Qed.

Lemma add_parameter_deps_adds dependent_id skip refs :
  forall b b',
    add_parameter_deps dependent_id skip refs b = Ok b' ->
    forall r, In r refs -> In r (parameter_names b) -> skip <> Some r ->
              edge (ModelGraphM.graph (graph b')) ("parameter:" +:+ r) dependent_id.
Proof.
  induction refs as [|r0 refs IH]; intros b b'; [done|].
  cbn [add_parameter_deps].
  destruct (MetadataUtils.in_list r0 (parameter_names b) && _) eqn:Hguard.
  - destruct (add_dep dependent_id ("parameter:" +:+ r0) b) as [b1|e] eqn:Hstep;
      simpl; [|done].
    intros Hrest r [<-|Hin] Hnames Hskip.
    + apply add_dep_edge in Hstep.
      eapply (add_parameter_deps_keeps
                (fun g => edge (ModelGraphM.graph g) _ _)) in Hrest
        as (Hkeep & _); [by apply Hkeep|].
      intros. by eapply edge_kept.
    + eapply IH; try done.
      apply (add_dep_keeps (fun _ => True)) in Hstep as (_ & Hn & _); [|done].
      by rewrite Hn.
  - intros Hrest r [<-|Hin] Hnames Hskip; [|by eapply IH].
    exfalso. apply andb_false_iff in Hguard as [Hg|Hg].
    + apply existsb_eqb_In in Hnames. unfold MetadataUtils.in_list in Hg.
      congruence.
    + apply negb_false_iff in Hg. destruct skip as [p|]; [|done].
      apply String.eqb_eq in Hg. by subst.
Qed.

Lemma extract_parameter_dependencies_adds parameters :
  forall b b',
    _extract_parameter_dependencies parameters b = Ok b' ->
    forall p val r,
      In (p, val) parameters -> In r (_find_parameter_refs val) ->
      In r (parameter_names b) -> r <> p ->
      edge (ModelGraphM.graph (graph b')) ("parameter:" +:+ r) ("parameter:" +:+ p).
Proof.
  induction parameters as [|[name v] parameters IH]; intros b b'; [done|].
  cbn [_extract_parameter_dependencies].
  destruct (add_parameter_deps _ _ _ b) as [b1|e] eqn:Hstep; simpl; [|done].
  intros Hrest p val r [[= <- <-]|Hin] Hr Hnames Hne.
  - eapply add_parameter_deps_adds in Hstep; [|done|done|congruence].
    eapply (extract_parameter_dependencies_keeps
              (fun g => edge (ModelGraphM.graph g) _ _)) in Hrest
      as (Hkeep & _); [by apply Hkeep|].
    intros. by eapply edge_kept.
  - eapply IH; try done.
    apply (add_parameter_deps_keeps (fun _ => True)) in Hstep as (_ & Hn & _);
      [|done].
    by rewrite Hn.
Qed.

Lemma construct_parameter_edges yaml_data b parameters :
  construct sha256_hexdigest py_str yaml_data = Ok b ->
  section_items yaml_data "parameters" = Ok parameters ->
  forall p val r,
    In (p, val) parameters -> In r (_find_parameter_refs val) ->
    In r (Dict.keys parameters) -> r <> p ->
    edge (ModelGraphM.graph (graph b)) ("parameter:" +:+ r) ("parameter:" +:+ p).
Proof.
  unfold construct. intros Hc Hparams. rewrite Hparams in Hc. simpl in Hc.
  destruct (_add_parameter_nodes _ parameters init) as [b1|e] eqn:H1; simpl in Hc; [|done].
  destruct (section_items yaml_data "sketches") as [sketches|e]; simpl in Hc; [|done].
  destruct (_add_sketch_nodes _ sketches b1) as [b2|e] eqn:H2; simpl in Hc; [|done].
  destruct (section_items yaml_data "parts") as [parts|e]; simpl in Hc; [|done].
  destruct (_add_part_nodes _ parts b2) as [b3|e] eqn:H3; simpl in Hc; [|done].
  destruct (section_items yaml_data "operations") as [operations|e]; simpl in Hc; [|done].
  destruct (_add_operation_nodes _ operations b3) as [b4|e] eqn:H4; simpl in Hc; [|done].
  destruct (section_items yaml_data "references") as [references|e]; simpl in Hc; [|done].
  destruct (_add_reference_nodes _ references b4) as [b5|e] eqn:H5; simpl in Hc; [|done].
  destruct (_extract_parameter_dependencies parameters b5) as [b6|e] eqn:H6;
    simpl in Hc; [|done].
  destruct (_extract_sketch_dependencies sketches b6) as [b7|e] eqn:H7;
    simpl in Hc; [|done].
  destruct (_extract_part_dependencies _ parts b7) as [b8|e] eqn:H8;
    simpl in Hc; [|done].
  destruct (_extract_operation_dependencies _ operations b8) as [b9|e] eqn:H9;
    simpl in Hc; [|done].
  intros p val r Hin Hr Hnames Hne.
  set (E := fun g : ModelGraph =>
              edge (ModelGraphM.graph g) ("parameter:" +:+ r) ("parameter:" +:+ p)).
  assert (HE : forall a d g g', E g -> add_dependency a d g = Ok g' -> E g').
  { intros a d g g' He Ha. by eapply edge_kept. }
  assert (Hnode : forall n g g', builder_node n -> True -> add_node n g = Ok g' -> True)
    by done.
  apply (add_parameter_nodes_keeps sha256_hexdigest (fun _ => True) Hnode)
    in H1 as (_ & N1 & _).
  apply (add_spec_nodes_keeps sha256_hexdigest (fun _ => True) Hnode)
    in H2 as (_ & N2 & _).
  apply (add_spec_nodes_keeps sha256_hexdigest (fun _ => True) Hnode)
    in H3 as (_ & N3 & _).
  apply (add_operation_nodes_keeps sha256_hexdigest (fun _ => True) Hnode)
    in H4 as (_ & N4 & _).
  apply (add_spec_nodes_keeps sha256_hexdigest (fun _ => True) Hnode)
    in H5 as (_ & N5 & _).
  assert (Hnames5 : In r (parameter_names b5)).
  { rewrite N5, N4, N3, N2, N1. done. }
  pose proof (extract_parameter_dependencies_adds _ _ _ H6 p val r Hin Hr
                Hnames5 Hne) as He6.
  apply (extract_sketch_dependencies_keeps E HE) in H7 as (K7 & _).
  apply (extract_part_dependencies_keeps py_str E HE) in H8 as (K8 & _).
  apply (extract_operation_dependencies_keeps py_str E HE) in H9 as (K9 & _).
  apply (extract_reference_dependencies_keeps py_str E HE) in Hc as (K10 & _).
  apply K10, K9, K8, K7. exact He6.
Qed.

(** X19.  The dependencies of a parameter in a graph that
    [build_graph] returns: [get_dependencies("parameter:p")] is exactly
    the set of nodes [parameter:r] for the declared parameters [r],
    other than [p] itself, whose names occur as identifiers inside a
    [${...}] expression of the value of [p].  A parameter never depends
    on a sketch, a part, an operation or a reference. *)
Theorem parameter_dependencies_are_references
    (yaml_data : list (string * yaml)) (g : ModelGraph) (p : string) :
  build_graph sha256_hexdigest py_str yaml_data = Ok g ->
  exists parameters deps,
    section_items yaml_data "parameters" = Ok parameters /\
    get_dependencies ("parameter:" +:+ p) g = Some deps /\
    forall u,
      u ∈ deps <->
      exists r val,
        u = "parameter:" +:+ r /\ In (p, val) parameters /\
        In r (_find_parameter_refs val) /\ In r (Dict.keys parameters) /\
        r <> p.
Proof.
  unfold build_graph.
  destruct (construct sha256_hexdigest py_str yaml_data) as [b|e] eqn:Hc;
    simpl; [|done].
  intros Hval.
  assert (g = graph b) as ->.
  { unfold validate in Hval. destruct (detect_cycles (graph b)); [|done].
    by injection Hval. }
  pose proof Hc as Hinv.
  apply construct_invariant in Hinv as (parameters & Hparams & _ & _ & Hedges).
  assert (Hcons : graph_consistent (graph b)).
  { apply (construct_keeps sha256_hexdigest py_str graph_consistent) in Hc
      as (? & ? & ? & ? & ? & _ & _ & _ & _ & _ & Hg & _); [done| | |].
    - intros. by eapply add_dependency_graph_consistent.
    - intros. by eapply add_node_graph_consistent.
    - split; [done|]. split; [constructor|]. by intros u v []. }
  destruct (get_dependencies_spec (graph b) ("parameter:" +:+ p) Hcons)
    as (deps & Hdeps & Hspec).
  exists parameters, deps. split; [done|]. split; [done|].
  intros u. rewrite Hspec. split.
  - intros He. destruct (Hedges u _ He) as [(p' & val & r & Hin & Hv & Hu & Hr & Hn & Hne)|Hno].
    + apply append_parameter_inj in Hv. subst p'. by exists r, val.
    + by rewrite startswith_parameter in Hno.
  - intros (r & val & -> & Hin & Hr & Hn & Hne).
    by eapply construct_parameter_edges.
Qed.
End ParameterEdges.

Lemma parameter_dependencies_are_references_witness :
  exists g,
    GraphBuilder.build_graph GraphBuilder.identity_digest ArithEval.py_str
      GraphBuilder.doc_chain = Ok g /\
    exists deps,
      ModelGraphM.get_dependencies "parameter:c" g = Some deps /\
      ("parameter:a" ∈ deps) /\ ("parameter:b" ∈ deps) /\
      ("part:base" ∉ deps).
Proof.
  destruct (GraphBuilder.build_graph GraphBuilder.identity_digest
              ArithEval.py_str GraphBuilder.doc_chain) as [g|e] eqn:Hb;
    [|vm_compute in Hb; discriminate Hb].
  exists g. split; [reflexivity|].
  destruct (parameter_dependencies_are_references
              GraphBuilder.identity_digest ArithEval.py_str
              GraphBuilder.doc_chain g "c" Hb)
    as (parameters & deps & Hp & Hdeps & Hspec).
  vm_compute in Hp. injection Hp as <-.
  exists deps. split; [exact Hdeps|]. split_and!.
  - apply Hspec. exists "a", (YStr "${b + a}").
    split_and!; [reflexivity|vm_compute; tauto|vm_compute; tauto
                |vm_compute; tauto|done].
  - apply Hspec. exists "b", (YStr "${b + a}").
    split_and!; [reflexivity|vm_compute; tauto|vm_compute; tauto
                |vm_compute; tauto|done].
  - intros Hin. apply Hspec in Hin as (r & val & Hu & _). discriminate Hu.
Defined.

(** ** [build_graph]: what it raises *)

Section BuildErrors.
Import ModelGraphM GraphBuilder.
Variable sha256_hexdigest : string -> string.
Variable py_str : yaml -> string.

Local Abbreviation only_python :=
  (fun (A : Type) (r : result error A) => forall e, r = Raise e -> e = PythonError).

Lemma lift_error r b : only_python _ (lift r b).
Proof. intros e. unfold lift. destruct r; [done|]. by intros [= <-]. Qed.

Lemma bind_error {A B} (r : result error A) (k : A -> result error B) :
  only_python _ r -> (forall a, only_python _ (k a)) ->
  only_python _ (bind_result r k).
Proof.
  intros Hr Hk e. destruct r as [a|e']; simpl; [apply Hk|].
  intros [= <-]. by apply Hr.
Qed.

Lemma section_items_error yaml_data key :
  only_python _ (section_items yaml_data key).
Proof.
  intros e. unfold section_items.
  destruct (Dict.get key yaml_data) as [[]|]; try done; by intros [= <-].
Qed.

Lemma add_parameter_nodes_error parameters :
  forall b, only_python _ (_add_parameter_nodes sha256_hexdigest parameters b).
Proof.
  induction parameters as [|[name v] parameters IH]; intros b; [done|].
  cbn [_add_parameter_nodes]. apply bind_error; [apply lift_error|apply IH].
Qed.

Lemma add_spec_nodes_error kind entries :
  forall b, only_python _ (add_spec_nodes sha256_hexdigest kind entries b).
Proof.
  induction entries as [|[name v] entries IH]; intros b; [done|].
  cbn [add_spec_nodes]. apply bind_error; [apply lift_error|apply IH].
Qed.

Lemma add_operation_nodes_error operations :
  forall b, only_python _ (_add_operation_nodes sha256_hexdigest operations b).
Proof.
  induction operations as [|[name spec] operations IH]; intros b; [done|].
  cbn [_add_operation_nodes].
  destruct spec; try (by intros e [= <-]).
  apply bind_error; [apply lift_error|apply IH].
Qed.

Lemma add_parameter_deps_error dependent_id skip refs :
  forall b, only_python _ (add_parameter_deps dependent_id skip refs b).
Proof.
  induction refs as [|r refs IH]; intros b; [done|].
  cbn [add_parameter_deps]. destruct (_ && _); [|apply IH].
  apply bind_error; [apply lift_error|apply IH].
Qed.

Lemma lookup_field_error key spec : only_python _ (lookup_field key spec).
Proof.
  intros e. unfold lookup_field.
  destruct spec; try done; try (by intros [= <-]).
  - destruct (PyStr.contains _ _); [by intros [= <-]|done].
  - destruct (existsb _ _); [by intros [= <-]|done].
Qed.

Lemma add_part_or_operation_dep_error dependent_id part_name b :
  only_python _ (add_part_or_operation_dep py_str dependent_id part_name b).
Proof.
  unfold add_part_or_operation_dep.
  destruct (contains _ _); [apply lift_error|].
  destruct (contains _ _); [apply lift_error|done].
Qed.

Lemma add_ref_error key op_spec refs : only_python _ (add_ref key op_spec refs).
Proof.
  intros e. unfold add_ref. destruct (Dict.get key op_spec) as [v|]; [|done].
  destruct (hashable v); [done|]. by intros [= <-].
Qed.

Lemma update_refs_error key op_spec refs :
  only_python _ (update_refs key op_spec refs).
Proof.
  intros e. unfold update_refs.
  destruct (Dict.get key op_spec) as [[]|]; try done.
  destruct (forallb _ _); [done|]. by intros [= <-].
Qed.

Lemma extract_operation_part_refs_error op_spec :
  only_python _ (_extract_operation_part_refs op_spec).
Proof.
  unfold _extract_operation_part_refs.
  repeat (apply bind_error; [apply add_ref_error || apply update_refs_error|];
          intros ?).
  apply add_ref_error.
Qed.

Lemma add_part_deps_error dependent_id part_refs :
  forall b, only_python _ (add_part_deps py_str dependent_id part_refs b).
Proof.
  induction part_refs as [|r refs IH]; intros b; [done|].
  cbn [add_part_deps].
  apply bind_error; [apply add_part_or_operation_dep_error|apply IH].
Qed.

Lemma extract_parameter_dependencies_error parameters :
  forall b, only_python _ (_extract_parameter_dependencies parameters b).
Proof.
  induction parameters as [|[name v] parameters IH]; intros b; [done|].
  cbn [_extract_parameter_dependencies].
  apply bind_error; [apply add_parameter_deps_error|apply IH].
Qed.

Lemma extract_sketch_dependencies_error sketches :
  forall b, only_python _ (_extract_sketch_dependencies sketches b).
Proof.
  induction sketches as [|[name v] sketches IH]; intros b; [done|].
  cbn [_extract_sketch_dependencies].
  apply bind_error; [apply add_parameter_deps_error|apply IH].
Qed.

Lemma extract_part_dependencies_error parts :
  forall b, only_python _ (_extract_part_dependencies py_str parts b).
Proof.
  induction parts as [|[name spec] parts IH]; intros b; [done|].
  cbn [_extract_part_dependencies].
  apply bind_error; [apply add_parameter_deps_error|]. intros b1.
  apply bind_error; [apply lookup_field_error|]. intros sketch.
  apply bind_error; [|apply IH].
  destruct sketch as [sketch_name|]; [|done].
  destruct (contains _ _); [apply lift_error|done].
Qed.

Lemma extract_operation_dependencies_error operations :
  forall b, only_python _ (_extract_operation_dependencies py_str operations b).
Proof.
  induction operations as [|[name spec] operations IH]; intros b; [done|].
  cbn [_extract_operation_dependencies].
  destruct spec; try (by intros e [= <-]).
  apply bind_error; [apply add_parameter_deps_error|]. intros b1.
  apply bind_error; [apply extract_operation_part_refs_error|]. intros refs.
  apply bind_error; [apply add_part_deps_error|apply IH].
Qed.

Lemma extract_reference_dependencies_error references :
  forall b, only_python _ (_extract_reference_dependencies py_str references b).
Proof.
  induction references as [|[name spec] references IH]; intros b; [done|].
  cbn [_extract_reference_dependencies].
  apply bind_error; [apply add_parameter_deps_error|]. intros b1.
  apply bind_error; [apply lookup_field_error|]. intros part.
  apply bind_error; [|apply IH].
  destruct part as [part_name|]; [|done].
  apply add_part_or_operation_dep_error.
Qed.

Lemma construct_error yaml_data :
  only_python _ (construct sha256_hexdigest py_str yaml_data).
Proof.
  unfold construct.
  repeat (apply bind_error;
          [first [ apply section_items_error
                 | apply add_parameter_nodes_error
                 | apply add_spec_nodes_error
                 | apply add_operation_nodes_error
                 | apply extract_parameter_dependencies_error
                 | apply extract_sketch_dependencies_error
                 | apply extract_part_dependencies_error
                 | apply extract_operation_dependencies_error ]|];
          intros ?).
  apply extract_reference_dependencies_error.
Qed.

(** *** Entries that cannot be put into a set *)

Lemma update_refs_unhashable key op_spec items refs :
  Dict.get key op_spec = Some (YList items) ->
  forallb hashable items = false ->
  update_refs key op_spec refs = Raise PythonError.
Proof. intros Hk Hi. unfold update_refs. by rewrite Hk, Hi. Qed.

Lemma extract_operation_part_refs_unhashable op_spec key items :
  In key ["inputs"; "parts"; "subtract"; "union"] ->
  Dict.get key op_spec = Some (YList items) ->
  forallb hashable items = false ->
  _extract_operation_part_refs op_spec = Raise PythonError.
Proof.
  intros Hkey Hk Hi.
  destruct (_extract_operation_part_refs op_spec) as [refs|e] eqn:Hrefs.
  - exfalso. unfold _extract_operation_part_refs in Hrefs.
    repeat match type of Hrefs with
           | bind_result ?x _ = _ =>
               let H := fresh "Hstep" in
               destruct x as [?|?] eqn:H; simpl in Hrefs; [|done]
           end.
    simpl in Hkey.
    destruct Hkey as [<-|[<-|[<-|[<-|[]]]]];
      match goal with
      | H : update_refs ?k op_spec ?r = Ok _ |- _ =>
          rewrite (update_refs_unhashable k op_spec items r Hk Hi) in H;
          discriminate H
      end.
  - f_equal. by eapply extract_operation_part_refs_error.
Qed.

Lemma extract_operation_dependencies_unhashable operations name op_spec :
  In (name, YDict op_spec) operations ->
  _extract_operation_part_refs op_spec = Raise PythonError ->
  forall b b', _extract_operation_dependencies py_str operations b <> Ok b'.
Proof.
  intros Hin Hbad. induction operations as [|[n spec] operations IH];
    intros b b'; [done|].
  cbn [_extract_operation_dependencies].
  destruct Hin as [[= -> ->]|Hin].
  - rewrite Hbad. by destruct (add_parameter_deps _ _ _ b).
  - destruct spec; try done.
    destruct (add_parameter_deps _ _ _ b) as [b1|]; simpl; [|done].
    destruct (_extract_operation_part_refs d) as [refs|]; simpl; [|done].
    destruct (add_part_deps _ _ _ _) as [b2|]; simpl; [|done].
    by apply IH.
Qed.

(** X20.  What [build_graph] raises.  The only [GraphBuilderError] is
    the circular-dependency error of the validation phase, about an
    elementary cycle of the constructed graph; whatever goes wrong
    while nodes and dependencies are added surfaces as another Python
    exception.  In particular, an operation whose [inputs], [parts],
    [subtract] or [union] list holds a mapping or a list (such as the
    [{pattern: ...}] and [{range: ...}] items that the boolean builder
    accepts) cannot be put into the set of part references, and
    [build_graph] fails on the document with that exception. *)
Theorem build_graph_errors (yaml_data : list (string * yaml)) :
  (forall e,
     build_graph sha256_hexdigest py_str yaml_data = Raise e ->
     (e = PythonError /\
      construct sha256_hexdigest py_str yaml_data = Raise PythonError) \/
     exists b c,
       construct sha256_hexdigest py_str yaml_data = Ok b /\
       elementary_cycle (ModelGraphM.graph (graph b)) c /\
       e = GraphBuilderError (circular_message c)) /\
  (forall operations name op_spec key items,
     section_items yaml_data "operations" = Ok operations ->
     In (name, YDict op_spec) operations ->
     In key ["inputs"; "parts"; "subtract"; "union"] ->
     Dict.get key op_spec = Some (YList items) ->
     forallb hashable items = false ->
     build_graph sha256_hexdigest py_str yaml_data = Raise PythonError).
Proof.
  split.
  - intros e. unfold build_graph.
    destruct (construct sha256_hexdigest py_str yaml_data) as [b|e'] eqn:Hc;
      simpl.
    + intros Hval. right. exists b.
      destruct (validate_spec b (construct_wf _ _ _ _ Hc))
        as [(_ & c & _ & Hel & Hraise)|[_ Hok]]; [|congruence].
      exists c. split_and!; [done|done|congruence].
    + intros [= <-]. left.
      assert (e' = PythonError) as -> by (by eapply construct_error).
      done.
  - intros operations name op_spec key items Hops Hin Hkey Hk Hi.
    pose proof (extract_operation_part_refs_unhashable _ _ _ Hkey Hk Hi) as Hbad.
    unfold build_graph.
    destruct (construct sha256_hexdigest py_str yaml_data) as [b|e] eqn:Hc;
      simpl.
    + exfalso. unfold construct in Hc. rewrite Hops in Hc.
      repeat match type of Hc with
             | bind_result ?x _ = _ =>
                 let H := fresh "Hstep" in
                 destruct x as [?|?] eqn:H; cbn [bind_result] in Hc; [|done]
             end.
      match goal with
      | H : _extract_operation_dependencies _ _ _ = Ok _ |- _ =>
          by eapply extract_operation_dependencies_unhashable in H
      end.
    + f_equal. by eapply construct_error.
Qed.
End BuildErrors.

Lemma build_graph_errors_witness :
  let op_spec :=
    [("operation", YStr "difference"); ("base", YStr "plate");
     ("subtract", YList [YDict [("pattern", YStr "hole")]])] in
  let doc :=
    [("parts", YDict [("plate", YDict [("primitive", YStr "box")]);
                      ("hole_0", YDict [("primitive", YStr "cylinder")])]);
     ("operations", YDict [("drilled", YDict op_spec)])] in
  GraphBuilder.build_graph GraphBuilder.identity_digest ArithEval.py_str doc
  = Raise GraphBuilder.PythonError.
Proof.
  intros op_spec doc.
  assert (Hin : In ("drilled", YDict op_spec) [("drilled", YDict op_spec)])
    by (by left).
  assert (Hkey : In "subtract" ["inputs"; "parts"; "subtract"; "union"])
    by (simpl; tauto).
  exact (proj2 (build_graph_errors GraphBuilder.identity_digest
                  ArithEval.py_str doc)
           [("drilled", YDict op_spec)] "drilled" op_spec "subtract"
           [YDict [("pattern", YStr "hole")]] eq_refl Hin Hkey eq_refl eq_refl).
Defined.

(** ** Roots and leaves of an acyclic graph *)

Section RootsAndLeaves.
Import ModelGraphM.

Lemma is_path_app_r g l1 l2 : is_path g (l1 ++ l2) -> is_path g l2.
Proof.
  induction l1 as [|a l1 IH]; [done|]. intros Hp. apply IH.
  simpl in Hp. destruct (l1 ++ l2); [done|]. tauto.
Qed.

Lemma is_path_app_l g l1 l2 : is_path g (l1 ++ l2) -> is_path g l1.
Proof.
  induction l1 as [|a l1 IH]; [done|]. simpl.
  destruct l1 as [|b l1]; [done|]. simpl in *. intros [He Hp]. split; [done|].
  by apply IH.
Qed.

Lemma path_to_walk g l : forall x y,
  is_path g (x :: l ++ [y]) -> walk g x l y.
Proof.
  induction l as [|a l IH]; intros x y; simpl.
  - tauto.
  - intros [He Hp]. split; [done|]. by apply IH.
Qed.

Lemma duplicate_split (l : list string) :
  ~ List.NoDup l -> exists x l1 l2 l3, l = l1 ++ x :: l2 ++ x :: l3.
Proof.
  induction l as [|a l IH]; intros Hnd.
  - contradict Hnd. constructor.
  - destruct (in_dec string_dec a l) as [Hin|Hnin].
    + apply in_split in Hin as (l2 & l3 & ->). by exists a, [], l2, l3.
    + destruct IH as (x & l1 & l2 & l3 & ->).
      * intros Hl. apply Hnd. by constructor.
      * by exists x, (a :: l1), l2, l3.
Qed.

(** A path with more nodes than the graph has closes a cycle. *)
Lemma long_path_cycle g l :
  is_path g l -> incl l (g_nodes g) -> length (g_nodes g) < length l ->
  has_cycle g.
Proof.
  intros Hp Hincl Hlen.
  destruct (duplicate_split l) as (x & l1 & l2 & l3 & ->).
  - intros Hnd. pose proof (List.NoDup_incl_length Hnd Hincl). lia.
  - apply is_path_app_r in Hp.
    change (x :: l2 ++ x :: l3) with ((x :: l2) ++ [x] ++ l3) in Hp.
    rewrite app_assoc in Hp. apply is_path_app_l in Hp.
    exists x, l2. by apply path_to_walk.
Qed.

Lemma chain_forward g :
  (forall v, In v (g_nodes g) -> exists w, edge g v w) ->
  wf_graph g ->
  forall n v, In v (g_nodes g) ->
    exists l, length l = n /\ is_path g (v :: l) /\ incl l (g_nodes g).
Proof.
  intros Hnext Hwf. induction n as [|n IH]; intros v Hv.
  - exists []. split_and!; [done|done|]. by intros x [].
  - destruct (Hnext v Hv) as [w Hw].
    assert (Hwn : In w (g_nodes g)) by (by apply Hwf in Hw as [_ ?]).
    destruct (IH w Hwn) as (l & Hlen & Hp & Hincl).
    exists (w :: l). split_and!; [simpl; lia|by split|].
    intros x [<-|Hx]; [done|by apply Hincl].
Qed.

Lemma chain_backward g :
  (forall v, In v (g_nodes g) -> exists u, edge g u v) ->
  wf_graph g ->
  forall n v, In v (g_nodes g) ->
    exists l, length l = n /\ is_path g (l ++ [v]) /\ incl l (g_nodes g).
Proof.
  intros Hprev Hwf. induction n as [|n IH]; intros v Hv.
  - exists []. split_and!; [done|done|]. by intros x [].
  - destruct (Hprev v Hv) as [u Hu].
    assert (Hun : In u (g_nodes g)) by (by apply Hwf in Hu as [? _]).
    destruct (IH u Hun) as (l & Hlen & Hp & Hincl).
    exists (l ++ [u]). split_and!.
    + rewrite length_app. simpl. lia.
    + by apply is_path_snoc.
    + intros x Hx. apply in_app_or in Hx as [Hx|[<-|[]]]; [by apply Hincl|done].
Qed.

Lemma acyclic_has_leaf g :
  wf_graph g -> ~ has_cycle g -> g_nodes g <> [] ->
  ~ (forall v, In v (g_nodes g) -> exists w, edge g v w).
Proof.
  intros Hwf Hacyc Hne Hnext.
  destruct (g_nodes g) as [|v0 rest] eqn:Hn; [done|].
  destruct (chain_forward g) with (n := length (g_nodes g)) (v := v0)
    as (l & Hlen & Hp & Hincl); try done.
  { by rewrite Hn. }
  { rewrite Hn. by left. }
  apply Hacyc. apply (long_path_cycle g (v0 :: l)); [done| |simpl; lia].
  intros x [<-|Hx]; [rewrite Hn; by left|by apply Hincl].
Qed.

Lemma acyclic_has_root g :
  wf_graph g -> ~ has_cycle g -> g_nodes g <> [] ->
  ~ (forall v, In v (g_nodes g) -> exists u, edge g u v).
Proof.
  intros Hwf Hacyc Hne Hprev.
  destruct (g_nodes g) as [|v0 rest] eqn:Hn; [done|].
  destruct (chain_backward g) with (n := length (g_nodes g)) (v := v0)
    as (l & Hlen & Hp & Hincl); try done.
  { by rewrite Hn. }
  { rewrite Hn. by left. }
  apply Hacyc. apply (long_path_cycle g (l ++ [v0])); [done| |].
  - intros x Hx. apply in_app_or in Hx as [Hx|[<-|[]]]; [by apply Hincl|].
    rewrite Hn. by left.
  - rewrite length_app. simpl. lia.
Qed.

Import GraphVisualizer.

Lemma select_empty_spec (R : string -> string -> Prop)
    (query : string -> ModelGraph -> option (gset string)) g ids :
  (forall x, exists s, query x g = Some s /\ forall y, y ∈ s <-> R x y) ->
  exists l,
    select_empty query g ids = Some l /\
    (forall x, In x l <-> In x ids /\ forall y, ~ R x y) /\
    (forall x, In x ids -> ~ In x l -> exists y, R x y).
Proof.
  intros Hq. induction ids as [|nid rest IH]; simpl.
  - exists []. split_and!; [done| |done]. intros x. simpl. tauto.
  - destruct (Hq nid) as (s & Hs & Hspec). rewrite Hs.
    destruct IH as (l & -> & Hl & Hout).
    destruct (decide (s = ∅)) as [->|Hne].
    + exists (nid :: l). split_and!; [done| |].
      * intros x. simpl. rewrite Hl. split.
        -- intros [<-|[? ?]]; [|tauto]. split; [by left|].
           intros y Hy. apply Hspec in Hy. set_solver.
        -- intros [[<-|?] ?]; [by left|tauto].
      * intros x [<-|Hx] Hnot; [contradict Hnot; by left|].
        apply Hout; [done|]. intros Hin. apply Hnot. by right.
    + exists l. split_and!; [done| |].
      * intros x. rewrite Hl. split; [intros [? ?]; split; [by right|done]|].
        intros [[<-|?] Hno]; [|done].
        contradict Hne. apply elem_of_equiv_empty_L. intros y Hy.
        apply Hspec in Hy. by apply Hno in Hy.
      * intros x [<-|Hx] Hnot; [|by apply Hout].
        apply set_choose_L in Hne as [y Hy]. exists y. by apply Hspec.
Qed.

Lemma roots_and_leaves g :
  graph_consistent g -> ~ has_cycle (graph g) ->
  exists rs ls,
    roots g = Some rs /\ leaves g = Some ls /\
    (forall x, In x rs <-> contains g x = true /\ forall y, ~ edge (graph g) y x) /\
    (forall x, In x ls <-> contains g x = true /\ forall y, ~ edge (graph g) x y) /\
    (len g <> 0 -> rs <> [] /\ ls <> []).
Proof.
  intros Hc Hacyc. pose proof Hc as (Hnodes & Hnd & Hwf).
  destruct (select_empty_spec (fun x y => edge (graph g) y x) get_dependencies g
              (Dict.keys (nodes g))) as (rs & Hrs & Hr & Hrout).
  { intros x. apply (get_dependencies_spec g x Hc). }
  destruct (select_empty_spec (fun x y => edge (graph g) x y) get_dependents g
              (Dict.keys (nodes g))) as (ls & Hls & Hl & Hlout).
  { intros x. apply (get_dependents_spec g x Hc). }
  exists rs, ls. unfold roots, leaves. split_and!; try done.
  - intros x. unfold contains. by rewrite dict_mem_keys.
  - intros x. unfold contains. by rewrite dict_mem_keys.
  - intros Hlen.
    assert (Hne : g_nodes (graph g) <> []).
    { rewrite Hnodes. unfold len in Hlen. by destruct (nodes g). }
    split; intros ->.
    + apply (acyclic_has_root (graph g) Hwf Hacyc Hne).
      intros v Hv. rewrite Hnodes in Hv. apply Hrout; [done|]. by intros [].
    + apply (acyclic_has_leaf (graph g) Hwf Hacyc Hne).
      intros v Hv. rewrite Hnodes in Hv. apply Hlout; [done|]. by intros [].
Qed.

Variable sha256_hexdigest : string -> string.
Variable py_str : yaml -> string.

(** X21.  The lists that [list_roots] and [list_leaves] print, on a
    graph that [build_graph] returns: the roots are exactly the nodes
    that depend on nothing and the leaves exactly the nodes on which
    nothing depends, the queries never raise, and as soon as the
    document declares anything there is at least one root and at least
    one leaf, so that the messages "No root nodes found" and "No leaf
    nodes found" are printed for the empty document only. *)
Theorem built_graph_has_roots_and_leaves (yaml_data : list (string * yaml))
    (g : ModelGraph) :
  GraphBuilder.build_graph sha256_hexdigest py_str yaml_data = Ok g ->
  exists rs ls,
    roots g = Some rs /\ leaves g = Some ls /\
    (forall x, In x rs <->
               contains g x = true /\ get_dependencies x g = Some ∅) /\
    (forall x, In x ls <->
               contains g x = true /\ get_dependents x g = Some ∅) /\
    (len g = 0 -> rs = [] /\ ls = []) /\
    (len g <> 0 -> rs <> [] /\ ls <> []).
Proof.
  unfold GraphBuilder.build_graph.
  destruct (GraphBuilder.construct sha256_hexdigest py_str yaml_data)
    as [b|e] eqn:Hc; simpl; [|done].
  intros Hval.
  destruct (validate_spec b (construct_wf _ _ _ _ Hc))
    as [(_ & c & _ & _ & Hraise)|[Hacyc Hok]]; [congruence|].
  assert (g = GraphBuilder.graph b) as -> by congruence.
  assert (Hcons : graph_consistent (GraphBuilder.graph b)).
  { apply (construct_keeps sha256_hexdigest py_str graph_consistent) in Hc
      as (? & ? & ? & ? & ? & _ & _ & _ & _ & _ & Hg & _); [done| | |].
    - intros. by eapply add_dependency_graph_consistent.
    - intros. by eapply add_node_graph_consistent.
    - split; [done|]. split; [constructor|]. by intros u v []. }
  destruct (roots_and_leaves _ Hcons Hacyc)
    as (rs & ls & Hrs & Hls & Hr & Hl & Hne).
  exists rs, ls. split_and!; try done.
  - intros x. rewrite Hr.
    destruct (get_dependencies_spec _ x Hcons) as (s & Hs & Hspec).
    rewrite Hs. split; intros [Hin Hno]; (split; [done|]).
    + f_equal. apply elem_of_equiv_empty_L. intros y Hy.
      apply Hspec in Hy. by apply Hno in Hy.
    + injection Hno as ->. intros y Hy. apply Hspec in Hy. set_solver.
  - intros x. rewrite Hl.
    destruct (get_dependents_spec _ x Hcons) as (s & Hs & Hspec).
    rewrite Hs. split; intros [Hin Hno]; (split; [done|]).
    + f_equal. apply elem_of_equiv_empty_L. intros y Hy.
      apply Hspec in Hy. by apply Hno in Hy.
    + injection Hno as ->. intros y Hy. apply Hspec in Hy. set_solver.
  - intros Hlen. unfold len in Hlen.
    unfold roots, leaves in Hrs, Hls.
    destruct (nodes (GraphBuilder.graph b)); [|done].
    simpl in Hrs, Hls. by injection Hrs as <-; injection Hls as <-.
Qed.
End RootsAndLeaves.

Lemma built_graph_has_roots_and_leaves_witness :
  exists g,
    GraphBuilder.build_graph GraphBuilder.identity_digest ArithEval.py_str
      GraphBuilder.doc_chain = Ok g /\
    GraphVisualizer.roots g = Some ["parameter:a"] /\
    GraphVisualizer.leaves g = Some ["operation:moved"].
Proof.
  destruct (GraphBuilder.build_graph GraphBuilder.identity_digest
              ArithEval.py_str GraphBuilder.doc_chain) as [g|e] eqn:Hb;
    [|vm_compute in Hb; discriminate Hb].
  exists g. split; [reflexivity|].
  destruct (built_graph_has_roots_and_leaves GraphBuilder.identity_digest
              ArithEval.py_str GraphBuilder.doc_chain g Hb)
    as (rs & ls & Hrs & Hls & _).
  vm_compute in Hb. injection Hb as <-.
  split; vm_compute; reflexivity.
Defined.

(** ** [SelectorResolver.resolve]: termination *)

Section SelectorTermination.
Import SelectorResolver.

Lemma length_of_chars l : String.length (PyStr.of_chars l) = length l.
Proof. induction l as [|c l IH]; simpl; congruence. Qed.

Lemma lstrip_chars_length l : length (PyStr.lstrip_chars l) <= length l.
Proof.
  induction l as [|c l IH]; simpl; [done|].
  destruct (PyStr.is_space c); simpl; lia.
Qed.

Lemma strip_length s : String.length (PyStr.strip s) <= String.length s.
Proof.
  unfold PyStr.strip, PyStr.rstrip_chars.
  rewrite length_of_chars, length_rev.
  etransitivity; [apply lstrip_chars_length|]. rewrite length_rev.
  etransitivity; [apply lstrip_chars_length|]. by rewrite length_chars.
Qed.

Lemma match_not_length s rest :
  match_not s = Some rest -> String.length rest < String.length s.
Proof.
  unfold match_not. rewrite <- (length_chars s).
  destruct (PyStr.chars s) as [|c1 [|c2 [|c3 [|c4 r]]]];
    try (by repeat (case_match; try done)).
  repeat (case_match; try done).
  intros [= <-]. rewrite length_of_chars. simpl.
  pose proof (lstrip_chars_length r). lia.
Qed.

Lemma split_combinator_lengths word fuel :
  word <> [] ->
  forall l cur,
    list_sum (map String.length (split_combinator fuel word l cur))
    + 2 * length (split_combinator fuel word l cur)
    <= length cur + length l + 2.
Proof.
  intros Hword. induction fuel as [|fuel IH]; intros l cur.
  - simpl. rewrite length_of_chars, length_app, length_rev. lia.
  - cbn [split_combinator]. destruct l as [|c r].
    { simpl. rewrite length_of_chars, length_rev. lia. }
    assert (Hskip : list_sum (map String.length
                                (split_combinator fuel word r (c :: cur)))
                    + 2 * length (split_combinator fuel word r (c :: cur))
                    <= length cur + length (c :: r) + 2).
    { etransitivity; [apply IH|]. simpl. lia. }
    destruct (PyStr.is_space c) eqn:Hc; [|exact Hskip].
    cbv zeta.
    destruct (PyStr.starts_with_chars word (PyStr.lstrip_chars (c :: r)));
      [|exact Hskip].
    destruct (drop (length word) (PyStr.lstrip_chars (c :: r)))
      as [|a rest] eqn:Hdrop; [exact Hskip|].
    destruct (PyStr.is_space a); [|exact Hskip].
    cbn [map list_sum length]. rewrite length_of_chars, length_rev.
    specialize (IH (PyStr.lstrip_chars (a :: rest)) []).
    pose proof (lstrip_chars_length (a :: rest)) as Hl1.
    assert (Hl2 : length (a :: rest) + length word <= length r).
    { assert (Hd : length (drop (length word) (PyStr.lstrip_chars (c :: r)))
                   = length (a :: rest)) by (by rewrite Hdrop).
      rewrite length_drop in Hd. simpl in Hd. rewrite Hc in Hd.
      pose proof (lstrip_chars_length r). simpl. lia. }
    destruct word as [|w ws]; [done|]. simpl in *. lia.
Qed.

Lemma split_on_two_lengths word s left_part right_part :
  word <> "" ->
  split_on word s = [left_part; right_part] ->
  String.length left_part < String.length s /\
  String.length right_part < String.length s.
Proof.
  intros Hword Hsplit. unfold split_on in Hsplit.
  assert (Hw : PyStr.chars word <> []) by (by destruct word).
  pose proof (split_combinator_lengths _ (String.length s) Hw
                (PyStr.chars s) []) as Hlen.
  rewrite Hsplit in Hlen. simpl in Hlen. rewrite length_chars in Hlen. lia.
Qed.

Context {Feature : Type} `{Countable Feature}.
Variable geometry : @Geometry Feature.

Local Abbreviation outcome := (option (result error (list Feature))).

(** [resolve_body] calls itself on strictly shorter selectors only. *)
Lemma resolve_body_ext (rec1 rec2 : string -> FeatureType -> outcome) s kind :
  (forall t, String.length t < String.length s -> rec1 t kind = rec2 t kind) ->
  resolve_body geometry rec1 s kind = resolve_body geometry rec2 s kind.
Proof.
  intros Hrec. unfold resolve_body. pose proof (strip_length s) as Hstrip.
  destruct (_has_not (PyStr.strip s)) eqn:Hnot.
  - unfold _resolve_not, _has_not in *.
    destruct (match_not (PyStr.strip s)) as [rest|] eqn:Hm; [|done].
    apply match_not_length in Hm. pose proof (strip_length rest).
    destruct (all_features geometry kind); [|done].
    rewrite Hrec by lia. done.
  - assert (Hpair : forall word bad combine,
              word <> "" ->
              resolve_pair rec1 word bad combine (PyStr.strip s) kind
              = resolve_pair rec2 word bad combine (PyStr.strip s) kind).
    { intros word bad combine Hword. unfold resolve_pair.
      destruct (split_on word (PyStr.strip s)) as [|l [|r [|]]] eqn:Hsplit;
        try done.
      apply split_on_two_lengths in Hsplit as [Hl Hr]; [|done].
      pose proof (strip_length l). pose proof (strip_length r).
      rewrite !Hrec by lia. done. }
    destruct (_has_and (PyStr.strip s)); [by apply Hpair|].
    destruct (_has_or (PyStr.strip s)); [by apply Hpair|done].
Qed.

Lemma resolve_body_total (rec : string -> FeatureType -> outcome) s kind :
  (forall t, String.length t < String.length s -> exists r, rec t kind = Some r) ->
  exists r, resolve_body geometry rec s kind = Some r.
Proof.
  intros Hrec. unfold resolve_body. pose proof (strip_length s) as Hstrip.
  destruct (_has_not (PyStr.strip s)) eqn:Hnot.
  - unfold _resolve_not, _has_not in *.
    destruct (match_not (PyStr.strip s)) as [rest|] eqn:Hm; [|done].
    apply match_not_length in Hm. pose proof (strip_length rest).
    destruct (all_features geometry kind); [|by eexists].
    destruct (Hrec (PyStr.strip rest)) as [[l|e] ->]; [lia| |]; by eexists.
  - assert (Hpair : forall word bad combine,
              word <> "" ->
              exists r, resolve_pair rec word bad combine (PyStr.strip s) kind
                        = Some r).
    { intros word bad combine Hword. unfold resolve_pair.
      destruct (split_on word (PyStr.strip s)) as [|l [|r [|]]] eqn:Hsplit;
        try by eexists.
      apply split_on_two_lengths in Hsplit as [Hl Hr]; [|done].
      pose proof (strip_length l). pose proof (strip_length r).
      destruct (Hrec (PyStr.strip l)) as [[a|e] ->]; [lia| |by eexists].
      destruct (Hrec (PyStr.strip r)) as [[b|e] ->]; [lia| |]; by eexists. }
    destruct (_has_and (PyStr.strip s)); [by apply Hpair|].
    destruct (_has_or (PyStr.strip s)); [by apply Hpair|by eexists].
Qed.

Lemma resolve_fuel_total fuel : forall s kind,
  String.length s < fuel -> exists r, resolve_fuel geometry fuel s kind = Some r.
Proof.
  induction fuel as [|fuel IH]; intros s kind Hlen; [lia|].
  cbn [resolve_fuel]. apply resolve_body_total.
  intros t Ht. apply IH. lia.
Qed.

Lemma resolve_fuel_independent f1 : forall f2 s kind,
  String.length s < f1 -> String.length s < f2 ->
  resolve_fuel geometry f1 s kind = resolve_fuel geometry f2 s kind.
Proof.
  induction f1 as [|f1 IH]; intros f2 s kind H1 H2; [lia|].
  destruct f2 as [|f2]; [lia|]. cbn [resolve_fuel].
  apply resolve_body_ext. intros t Ht. apply IH; lia.
Qed.

Lemma resolve_unfold selector feature_type :
  resolve geometry selector feature_type
  = resolve_body geometry (resolve geometry) selector feature_type.
Proof.
  unfold resolve. cbn [resolve_fuel]. apply resolve_body_ext. intros t Ht.
  change (resolve_body geometry (resolve_fuel geometry (String.length t))
            t feature_type)
    with (resolve_fuel geometry (S (String.length t)) t feature_type).
  apply resolve_fuel_independent; lia.
Qed.

(** X22.  [resolve] terminates on every selector string: each
    recursive call is made on a strictly shorter selector, so the
    recursion budget of the model (one more than the length of the
    selector) is never used up, a larger budget gives the same answer,
    and [resolve] satisfies the equation of its own body, with the
    recursive calls answered by [resolve] itself. *)
Theorem resolve_terminates (selector : string) (feature_type : FeatureType) :
  (exists r, resolve geometry selector feature_type = Some r) /\
  (forall fuel, String.length selector < fuel ->
                resolve_fuel geometry fuel selector feature_type
                = resolve geometry selector feature_type) /\
  resolve geometry selector feature_type
  = resolve_body geometry (resolve geometry) selector feature_type.
Proof.
  split_and!.
  - apply resolve_fuel_total. lia.
  - intros fuel Hfuel. apply resolve_fuel_independent; lia.
  - apply resolve_unfold.
Qed.

(** Vertices: whatever the selector, no call succeeds. *)
Lemma resolve_fuel_vertex fuel : forall s,
  String.length s < fuel ->
  exists e, resolve_fuel geometry fuel s VERTEX = Some (Raise e).
Proof.
  induction fuel as [|fuel IH]; intros s Hlen; [lia|].
  cbn [resolve_fuel]. unfold resolve_body.
  pose proof (strip_length s) as Hstrip.
  destruct (_has_not (PyStr.strip s)) eqn:Hnot.
  { unfold _resolve_not. cbn [all_features]. by eexists. }
  assert (Hpair : forall word bad combine,
            word <> "" ->
            exists e, resolve_pair (resolve_fuel geometry fuel) word bad combine
                        (PyStr.strip s) VERTEX = Some (Raise e)).
  { intros word bad combine Hword. unfold resolve_pair.
    destruct (split_on word (PyStr.strip s)) as [|l [|r [|]]] eqn:Hsplit;
      try by eexists.
    apply split_on_two_lengths in Hsplit as [Hl Hr]; [|done].
    pose proof (strip_length l).
    destruct (IH (PyStr.strip l)) as [e ->]; [lia|]. by eexists. }
  destruct (_has_and (PyStr.strip s)); [by apply Hpair|].
  destruct (_has_or (PyStr.strip s)); [by apply Hpair|].
  unfold _resolve_simple. destruct (negb _); by eexists.
Qed.

(** X23.  The feature type [VERTEX] is declared but cannot be used:
    with it [resolve] raises an error for every selector string and
    every geometry, and never returns a list. *)
Theorem vertex_is_never_resolved (selector : string) :
  exists e, resolve geometry selector VERTEX = Some (Raise e).
Proof. apply resolve_fuel_vertex. lia. Qed.
End SelectorTermination.

(** ** [SelectorResolver]: the combinators on one-word operands *)

Section SelectorWords.
Import SelectorResolver.

Local Abbreviation ns l :=
  (forallb (fun c => negb (PyStr.is_space c)) l = true).

Lemma ns_cons c l : ns (c :: l) -> PyStr.is_space c = false /\ ns l.
Proof.
  cbn [forallb]. intros Hc. apply andb_true_iff in Hc as [Hc Hl].
  split; [by apply negb_true_iff|done].
Qed.

Lemma ns_In l c : ns l -> In c l -> PyStr.is_space c = false.
Proof.
  intros Hl Hin. rewrite forallb_forall in Hl.
  apply negb_true_iff. by apply Hl.
Qed.

Lemma ns_lstrip l : ns l -> PyStr.lstrip_chars l = l.
Proof.
  destruct l as [|c l]; [done|]. intros [Hc _]%ns_cons. cbn. by rewrite Hc.
Qed.

Lemma lstrip_head c l :
  PyStr.is_space c = false -> PyStr.lstrip_chars (c :: l) = c :: l.
Proof. intros Hc. cbn. by rewrite Hc. Qed.

Lemma ns_strip s : whitespace_free s = true -> PyStr.strip s = s.
Proof.
  unfold whitespace_free, PyStr.strip, PyStr.rstrip_chars. intros Hs.
  rewrite (ns_lstrip _ Hs), ns_lstrip.
  - by rewrite rev_involutive, of_chars_chars.
  - apply forallb_forall. intros c Hc%in_rev.
    apply negb_true_iff. by apply (ns_In _ _ Hs).
Qed.

(** A text that starts and ends with a word is left alone by [strip]. *)
Lemma strip_between a m b :
  ns a -> a <> [] -> ns b -> b <> [] ->
  PyStr.rstrip_chars (PyStr.lstrip_chars (a ++ m ++ b)) = a ++ m ++ b.
Proof.
  intros Ha Ha0 Hb Hb0. destruct a as [|x a]; [done|].
  apply ns_cons in Ha as [Hx _].
  rewrite <- app_comm_cons, lstrip_head by done.
  unfold PyStr.rstrip_chars. rewrite app_comm_cons, !rev_app_distr.
  destruct (rev b) as [|y t] eqn:Hrev.
  { apply (f_equal (@rev _)) in Hrev. rewrite rev_involutive in Hrev. done. }
  assert (Hy : PyStr.is_space y = false).
  { apply (ns_In b); [done|]. apply in_rev. rewrite Hrev. by left. }
  rewrite <- !app_comm_cons, lstrip_head by done.
  by rewrite !app_comm_cons, <- Hrev, <- !rev_app_distr, rev_involutive.
Qed.

Lemma rstrip_fixed_app p l :
  l <> [] -> PyStr.rstrip_chars l = l ->
  PyStr.rstrip_chars (p ++ l) = p ++ l.
Proof.
  unfold PyStr.rstrip_chars. intros Hl Hfix.
  apply (f_equal (@rev _)) in Hfix. rewrite rev_involutive in Hfix.
  rewrite rev_app_distr. destruct (rev l) as [|y l'] eqn:Hrev.
  { apply (f_equal (@length _)) in Hrev. rewrite length_rev in Hrev.
    by destruct l. }
  destruct (PyStr.is_space y) eqn:Hy.
  - cbn [PyStr.lstrip_chars] in Hfix. rewrite Hy in Hfix.
    apply (f_equal (@length _)) in Hfix.
    pose proof (lstrip_chars_length l'). simpl in Hfix. lia.
  - rewrite <- app_comm_cons, lstrip_head by done.
    by rewrite app_comm_cons, <- Hrev, <- rev_app_distr, rev_involutive.
Qed.

Lemma split_combinator_fuel word f1 : forall f2 l cur,
  length l <= f1 -> length l <= f2 ->
  split_combinator f1 word l cur = split_combinator f2 word l cur.
Proof.
  induction f1 as [|f1 IH]; intros f2 l cur H1 H2.
  - destruct l; [|simpl in H1; lia].
    destruct f2; simpl; by rewrite ?app_nil_r.
  - destruct f2 as [|f2].
    { destruct l; [|simpl in H2; lia]. simpl. by rewrite app_nil_r. }
    cbn [split_combinator]. destruct l as [|c r]; [done|].
    simpl in H1, H2.
    assert (Hskip : split_combinator f1 word r (c :: cur)
                    = split_combinator f2 word r (c :: cur))
      by (apply IH; lia).
    destruct (PyStr.is_space c) eqn:Hc; [|exact Hskip]. cbv zeta.
    destruct (PyStr.starts_with_chars word (PyStr.lstrip_chars (c :: r)));
      [|exact Hskip].
    destruct (drop (length word) (PyStr.lstrip_chars (c :: r)))
      as [|a rest] eqn:Hdrop; [exact Hskip|].
    destruct (PyStr.is_space a); [|exact Hskip].
    f_equal.
    assert (Hd : length (drop (length word) (PyStr.lstrip_chars (c :: r)))
                 = length (a :: rest)) by (by rewrite Hdrop).
    rewrite length_drop in Hd. simpl in Hd. rewrite Hc in Hd.
    pose proof (lstrip_chars_length r).
    pose proof (lstrip_chars_length (a :: rest)). simpl in *.
    apply IH; lia.
Qed.

(** The scan with a budget that suffices. *)
Local Abbreviation scan word l cur :=
  (split_combinator (length l) word l cur).

Lemma scan_word word a : ns a -> forall l cur,
  scan word (a ++ l) cur = scan word l (rev a ++ cur).
Proof.
  induction a as [|c a IH]; intros Ha l cur; [done|].
  apply ns_cons in Ha as [Hc Ha].
  cbn [app length split_combinator]. rewrite Hc.
  rewrite IH by done. cbn [rev]. by rewrite <- app_assoc.
Qed.

Lemma scan_last_word word b : ns b -> forall cur,
  scan word b cur = [PyStr.of_chars (rev cur ++ b)].
Proof.
  intros Hb cur. rewrite <- (app_nil_r b) at 1 2.
  rewrite scan_word by done. cbn [length split_combinator app].
  by rewrite app_nil_r, rev_app_distr, rev_involutive.
Qed.

(** The combinator between white space, followed by a word: a split. *)
Lemma scan_hit word sp1 sp2 c rest cur :
  ns word -> word <> [] ->
  PyStr.is_space sp1 = true -> PyStr.is_space sp2 = true ->
  PyStr.is_space c = false ->
  scan word (sp1 :: word ++ sp2 :: c :: rest) cur
  = PyStr.of_chars (rev cur) :: scan word (c :: rest) [].
Proof.
  intros Hw Hw0 H1 H2 Hc.
  remember (scan word (c :: rest) []) as parts eqn:Hparts.
  cbn [length split_combinator]. rewrite H1. cbv zeta.
  assert (Hl : PyStr.lstrip_chars (sp1 :: word ++ sp2 :: c :: rest)
               = word ++ sp2 :: c :: rest).
  { cbn [PyStr.lstrip_chars]. rewrite H1.
    destruct word as [|w word]; [done|].
    apply ns_cons in Hw as [Hw _]. by apply lstrip_head. }
  rewrite Hl, starts_with_chars_app, drop_app_length, H2.
  f_equal. cbn [PyStr.lstrip_chars]. rewrite H2, Hc. subst parts.
  apply (split_combinator_fuel word _ _ (c :: rest) []);
    rewrite ?length_app; simpl; lia.
Qed.

(** Two texts that agree up to their first white space. *)
Lemma first_space_unique t : forall w l a rest,
  ns t -> ns w -> PyStr.is_space a = true ->
  (l = [] \/ exists d l', l = d :: l' /\ PyStr.is_space d = true) ->
  t ++ l = w ++ a :: rest -> t = w.
Proof.
  induction t as [|x t IH]; intros w l a rest Ht Hw Ha Hl Heq.
  - destruct w as [|y w]; [done|]. apply ns_cons in Hw as [Hy _].
    destruct Hl as [->|(d & l' & -> & Hd)]; [done|].
    simpl in Heq. injection Heq as -> _. congruence.
  - apply ns_cons in Ht as [Hx Ht]. destruct w as [|y w].
    + simpl in Heq. injection Heq as -> _. congruence.
    + apply ns_cons in Hw as [_ Hw]. simpl in Heq. injection Heq as -> Heq.
      f_equal. by apply (IH w l a rest).
Qed.

(** White space before a word that is not the combinator: no split. *)
Lemma scan_miss word sp t l cur :
  ns word -> ns t -> t <> [] -> t <> word ->
  PyStr.is_space sp = true ->
  (l = [] \/ exists d l', l = d :: l' /\ PyStr.is_space d = true) ->
  scan word (sp :: t ++ l) cur = scan word (t ++ l) (sp :: cur).
Proof.
  intros Hw Ht Ht0 Hne Hsp Hl.
  remember (scan word (t ++ l) (sp :: cur)) as parts eqn:Hparts.
  cbn [length split_combinator]. rewrite Hsp. cbv zeta.
  assert (Hlstrip : PyStr.lstrip_chars (sp :: t ++ l) = t ++ l).
  { cbn [PyStr.lstrip_chars]. rewrite Hsp.
    destruct t as [|x t]; [done|].
    apply ns_cons in Ht as [Hx _]. by apply lstrip_head. }
  rewrite Hlstrip.
  destruct (PyStr.starts_with_chars word (t ++ l)) eqn:Hstart; [|done].
  destruct (drop (length word) (t ++ l)) as [|a rest] eqn:Hdrop; [done|].
  destruct (PyStr.is_space a) eqn:Ha; [|done].
  exfalso. apply Hne.
  apply starts_with_chars_inv in Hstart as [r Hr].
  rewrite Hr, drop_app_length in Hdrop. subst r.
  by apply (first_space_unique t word l a rest).
Qed.
End SelectorWords.

Section SelectorSentences.
Import SelectorResolver.

Local Abbreviation ns l :=
  (forallb (fun c => negb (PyStr.is_space c)) l = true).
Local Abbreviation scan word l cur :=
  (split_combinator (length l) word l cur).
Local Abbreviation sp := (" "%char).

Local Ltac list_normal :=
  rewrite ?app_nil_r;
  repeat first [ rewrite rev_app_distr | rewrite rev_involutive
               | progress cbn [rev app] | rewrite <- app_assoc
               | rewrite app_nil_r ].

Lemma match_not_inv s rest :
  match_not s = Some rest ->
  exists c r, PyStr.chars s = "n"%char :: "o"%char :: "t"%char :: c :: r /\
              PyStr.is_space c = true.
Proof.
  unfold match_not.
  destruct (PyStr.chars s) as [|c1 [|c2 [|c3 [|c4 r]]]];
    try (by repeat (case_match; try done)).
  destruct c1 as [[] [] [] [] [] [] [] []]; try done.
  destruct c2 as [[] [] [] [] [] [] [] []]; try done.
  destruct c3 as [[] [] [] [] [] [] [] []]; try done.
  destruct (PyStr.is_space c4) eqn:Hc; [|done]. intros _. by exists c4, r.
Qed.

(** A text whose first word is not [not] is no negation. *)
Lemma has_not_word A l :
  ns A -> A <> PyStr.chars "not" ->
  (l = [] \/ exists d l', l = d :: l' /\ PyStr.is_space d = true) ->
  _has_not (PyStr.of_chars (A ++ l)) = false.
Proof.
  intros HA Hne Hl. unfold _has_not.
  destruct (match_not (PyStr.of_chars (A ++ l))) as [rest|] eqn:Hm; [|done].
  apply match_not_inv in Hm as (c & r & Hchars & Hc).
  rewrite chars_of_chars in Hchars. exfalso. apply Hne.
  by apply (first_space_unique A (PyStr.chars "not") l c r).
Qed.

Lemma plain_operand_inv a :
  plain_operand a = true ->
  ns (PyStr.chars a) /\ PyStr.chars a <> [] /\
  PyStr.chars a <> PyStr.chars "not" /\
  PyStr.chars a <> PyStr.chars "and" /\
  PyStr.chars a <> PyStr.chars "or".
Proof.
  unfold plain_operand, whitespace_free. intros Ha.
  apply andb_true_iff in Ha as [Hns Hkw]. apply negb_true_iff in Hkw.
  cbn [existsb] in Hkw. rewrite !orb_false_iff in Hkw.
  destruct Hkw as (H0 & H1 & H2 & H3 & _).
  apply String.eqb_neq in H0, H1, H2, H3.
  split_and!; [done|by destruct a|..]; intros Heq%chars_inj; done.
Qed.

Lemma chars_nonempty (A : list ascii) : A <> [] -> exists c r, A = c :: r.
Proof. destruct A as [|c r]; [done|]. by exists c, r. Qed.

(** [A W B]: split at the combinator [W]. *)
Lemma split_pair W A B :
  ns W -> W <> [] -> ns A -> ns B -> B <> [] ->
  scan W (A ++ sp :: W ++ sp :: B) []
  = [PyStr.of_chars A; PyStr.of_chars B].
Proof.
  intros HW HW0 HA HB HB0.
  destruct (chars_nonempty B HB0) as (c & r & ->).
  pose proof (ns_cons _ _ HB) as [Hc _].
  rewrite scan_word, scan_hit, scan_last_word by done.
  by rewrite app_nil_r, rev_involutive.
Qed.

(** [A W B W C]: three parts. *)
Lemma split_triple W A B C :
  ns W -> W <> [] -> ns A -> ns B -> B <> [] -> ns C -> C <> [] ->
  length (scan W (A ++ sp :: W ++ sp :: B ++ sp :: W ++ sp :: C) []) = 3.
Proof.
  intros HW HW0 HA HB HB0 HC HC0.
  destruct (chars_nonempty B HB0) as (c & r & ->).
  destruct (chars_nonempty C HC0) as (c' & r' & ->).
  pose proof (ns_cons _ _ HB) as [Hc _].
  pose proof (ns_cons _ _ HC) as [Hc' _].
  rewrite scan_word by done. rewrite <- app_comm_cons, scan_hit by done.
  rewrite app_comm_cons, scan_word, scan_hit, scan_last_word by done.
  done.
Qed.

(** [A V B]: the other combinator [V] is not split at. *)
Lemma split_other W V A B :
  ns W -> ns V -> V <> [] -> V <> W -> ns A -> ns B -> B <> [] -> B <> W ->
  length (scan W (A ++ sp :: V ++ sp :: B) []) = 1.
Proof.
  intros HW HV HV0 HVW HA HB HB0 HBW.
  rewrite scan_word by done.
  rewrite scan_miss by (try done; right; by exists sp, B).
  rewrite scan_word by done.
  rewrite <- (app_nil_r B).
  rewrite scan_miss by (try done; by left).
  by rewrite app_nil_r, scan_last_word.
Qed.

(** [A V B W C]: split at [W], the left part is [A V B]. *)
Lemma split_mixed_left W V A B C :
  ns W -> W <> [] -> ns V -> V <> [] -> V <> W ->
  ns A -> ns B -> B <> [] -> B <> W -> ns C -> C <> [] ->
  scan W (A ++ sp :: V ++ sp :: B ++ sp :: W ++ sp :: C) []
  = [PyStr.of_chars (A ++ sp :: V ++ sp :: B); PyStr.of_chars C].
Proof.
  intros HW HW0 HV HV0 HVW HA HB HB0 HBW HC HC0.
  destruct (chars_nonempty C HC0) as (c' & r' & ->).
  pose proof (ns_cons _ _ HC) as [Hc' _].
  rewrite scan_word by done.
  rewrite scan_miss
    by (try done; right; by exists sp, (B ++ sp :: W ++ sp :: c' :: r')).
  rewrite scan_word by done.
  rewrite scan_miss
    by (try done; right; by exists sp, (W ++ sp :: c' :: r')).
  rewrite scan_word, scan_hit, scan_last_word by done.
  by list_normal.
Qed.

(** [A W B V C]: split at [W], the right part is [B V C]. *)
Lemma split_mixed_right W V A B C :
  ns W -> W <> [] -> ns V -> V <> [] -> V <> W ->
  ns A -> ns B -> B <> [] -> ns C -> C <> [] -> C <> W ->
  scan W (A ++ sp :: W ++ sp :: B ++ sp :: V ++ sp :: C) []
  = [PyStr.of_chars A; PyStr.of_chars (B ++ sp :: V ++ sp :: C)].
Proof.
  intros HW HW0 HV HV0 HVW HA HB HB0 HC HC0 HCW.
  destruct (chars_nonempty B HB0) as (c & r & ->).
  pose proof (ns_cons _ _ HB) as [Hc _].
  rewrite scan_word by done. rewrite <- app_comm_cons, scan_hit by done.
  rewrite app_comm_cons, scan_word by done.
  rewrite scan_miss by (try done; right; by exists sp, C).
  rewrite scan_word by done.
  rewrite <- (app_nil_r C) at 1 2.
  rewrite scan_miss by (try done; by left).
  rewrite (app_nil_r C), scan_last_word by done.
  by list_normal.
Qed.

(** [A V B V C]: the other combinator twice. *)
Lemma split_other_twice W V A B C :
  ns W -> ns V -> V <> [] -> V <> W -> ns A -> ns B -> B <> [] -> B <> W ->
  ns C -> C <> [] -> C <> W ->
  length (scan W (A ++ sp :: V ++ sp :: B ++ sp :: V ++ sp :: C) []) = 1.
Proof.
  intros HW HV HV0 HVW HA HB HB0 HBW HC HC0 HCW.
  rewrite scan_word by done.
  rewrite scan_miss
    by (try done; right; by exists sp, (B ++ sp :: V ++ sp :: C)).
  rewrite scan_word by done.
  rewrite scan_miss by (try done; right; by exists sp, (V ++ sp :: C)).
  rewrite scan_word by done.
  rewrite scan_miss by (try done; right; by exists sp, C).
  rewrite scan_word by done.
  rewrite <- (app_nil_r C).
  rewrite scan_miss by (try done; by left).
  by rewrite (app_nil_r C), scan_last_word.
Qed.
End SelectorSentences.

Section SelectorCombinators.
Import SelectorResolver.

Local Abbreviation ns l :=
  (forallb (fun c => negb (PyStr.is_space c)) l = true).
Local Abbreviation sp := (" "%char).
Local Abbreviation joined a w b := (a +:+ " " +:+ w +:+ " " +:+ b).

Local Ltac string_assoc :=
  apply chars_inj; rewrite !chars_append, <- ?app_assoc; reflexivity.

Lemma chars_joined a w b :
  PyStr.chars (joined a w b)
  = PyStr.chars a ++ sp :: PyStr.chars w ++ sp :: PyStr.chars b.
Proof. by rewrite !chars_append. Qed.

Lemma split_on_scan w s :
  split_on w s
  = split_combinator (length (PyStr.chars s)) (PyStr.chars w) (PyStr.chars s) [].
Proof. unfold split_on. by rewrite length_chars. Qed.

Lemma keyword_chars w :
  w = "and" \/ w = "or" -> ns (PyStr.chars w) /\ PyStr.chars w <> [].
Proof. by intros [-> | ->]. Qed.

Lemma operand_not_keyword a w :
  plain_operand a = true -> w = "and" \/ w = "or" ->
  PyStr.chars a <> PyStr.chars w.
Proof.
  intros (_ & _ & _ & Hand & Hor)%plain_operand_inv [-> | ->]; done.
Qed.

Lemma strip_sentence s a m b :
  s = a +:+ m +:+ b ->
  whitespace_free a = true -> a <> "" ->
  whitespace_free b = true -> b <> "" ->
  PyStr.strip s = s.
Proof.
  intros -> Ha Ha0 Hb Hb0. unfold PyStr.strip.
  rewrite !chars_append, strip_between.
  - by rewrite <- !chars_append, of_chars_chars.
  - done.
  - by destruct a.
  - done.
  - by destruct b.
Qed.

Lemma plain_operand_word a :
  plain_operand a = true -> whitespace_free a = true /\ a <> "".
Proof.
  intros Ha. pose proof (plain_operand_inv a Ha) as (Hns & H0 & _).
  split; [done|]. by intros ->.
Qed.

Lemma has_not_sentence a rest :
  plain_operand a = true -> _has_not (a +:+ " " +:+ rest) = false.
Proof.
  intros (Hns & _ & Hnot & _)%plain_operand_inv.
  rewrite <- (of_chars_chars (a +:+ " " +:+ rest)), !chars_append.
  apply has_not_word; [done..|]. right. by eexists _, _.
Qed.

Lemma has_not_operand a : plain_operand a = true -> _has_not a = false.
Proof.
  intros (Hns & _ & Hnot & _)%plain_operand_inv.
  rewrite <- (of_chars_chars a), <- (app_nil_r (PyStr.chars a)).
  apply has_not_word; [done..|]. by left.
Qed.

Lemma split_on_operand w a :
  whitespace_free a = true -> split_on w a = [a].
Proof.
  intros Ha. rewrite split_on_scan, scan_last_word by done.
  cbn [rev app]. by rewrite of_chars_chars.
Qed.

Lemma split_on_pair w a b :
  w = "and" \/ w = "or" -> plain_operand a = true -> plain_operand b = true ->
  split_on w (joined a w b) = [a; b].
Proof.
  intros [Hw Hw0]%keyword_chars (Ha & _)%plain_operand_inv
         (Hb & Hb0 & _)%plain_operand_inv.
  rewrite split_on_scan, chars_joined, split_pair by done.
  by rewrite !of_chars_chars.
Qed.

Lemma split_on_triple w a b c :
  w = "and" \/ w = "or" -> plain_operand a = true -> plain_operand b = true ->
  plain_operand c = true ->
  length (split_on w (joined a w (joined b w c))) = 3.
Proof.
  intros [Hw Hw0]%keyword_chars (Ha & _)%plain_operand_inv
         (Hb & Hb0 & _)%plain_operand_inv (Hc & Hc0 & _)%plain_operand_inv.
  rewrite split_on_scan, !chars_joined. by apply split_triple.
Qed.

Lemma split_on_other w v a b :
  w = "and" \/ w = "or" -> v = "and" \/ v = "or" -> v <> w ->
  plain_operand a = true -> plain_operand b = true ->
  length (split_on w (joined a v b)) = 1.
Proof.
  intros Hkw Hkv Hvw Ha Hb.
  pose proof (operand_not_keyword b w Hb Hkw).
  destruct (keyword_chars w Hkw) as [Hw Hw0].
  destruct (keyword_chars v Hkv) as [Hv Hv0].
  apply plain_operand_inv in Ha as (Ha & _), Hb as (Hb & Hb0 & _).
  rewrite split_on_scan, chars_joined. apply split_other; try done.
  by intros ?%chars_inj.
Qed.

Lemma split_on_mixed_left w v a b c :
  w = "and" \/ w = "or" -> v = "and" \/ v = "or" -> v <> w ->
  plain_operand a = true -> plain_operand b = true -> plain_operand c = true ->
  split_on w (joined a v (joined b w c)) = [joined a v b; c].
Proof.
  intros Hkw Hkv Hvw Ha Hb Hc.
  pose proof (operand_not_keyword b w Hb Hkw).
  destruct (keyword_chars w Hkw) as [Hw Hw0].
  destruct (keyword_chars v Hkv) as [Hv Hv0].
  apply plain_operand_inv in Ha as (Ha & _), Hb as (Hb & Hb0 & _),
    Hc as (Hc & Hc0 & _).
  rewrite split_on_scan, !chars_joined, split_mixed_left; try done.
  - by rewrite <- chars_joined, !of_chars_chars.
  - by intros ?%chars_inj.
Qed.

Lemma split_on_mixed_right w v a b c :
  w = "and" \/ w = "or" -> v = "and" \/ v = "or" -> v <> w ->
  plain_operand a = true -> plain_operand b = true -> plain_operand c = true ->
  split_on w (joined a w (joined b v c)) = [a; joined b v c].
Proof.
  intros Hkw Hkv Hvw Ha Hb Hc.
  pose proof (operand_not_keyword c w Hc Hkw).
  destruct (keyword_chars w Hkw) as [Hw Hw0].
  destruct (keyword_chars v Hkv) as [Hv Hv0].
  apply plain_operand_inv in Ha as (Ha & _), Hb as (Hb & Hb0 & _),
    Hc as (Hc & Hc0 & _).
  rewrite split_on_scan, !chars_joined, split_mixed_right; try done.
  - by rewrite <- chars_joined, !of_chars_chars.
  - by intros ?%chars_inj.
Qed.

Lemma split_on_other3 w v a b c :
  w = "and" \/ w = "or" -> v = "and" \/ v = "or" -> v <> w ->
  plain_operand a = true -> plain_operand b = true -> plain_operand c = true ->
  length (split_on w (joined a v (joined b v c))) = 1.
Proof.
  intros Hkw Hkv Hvw Ha Hb Hc.
  pose proof (operand_not_keyword b w Hb Hkw).
  pose proof (operand_not_keyword c w Hc Hkw).
  destruct (keyword_chars w Hkw) as [Hw Hw0].
  destruct (keyword_chars v Hkv) as [Hv Hv0].
  apply plain_operand_inv in Ha as (Ha & _), Hb as (Hb & Hb0 & _),
    Hc as (Hc & Hc0 & _).
  rewrite split_on_scan, !chars_joined. apply split_other_twice; try done.
  by intros ?%chars_inj.
Qed.

Lemma match_not_prefix t :
  match_not ("not " +:+ t)
  = Some (PyStr.of_chars (PyStr.lstrip_chars (PyStr.chars t))).
Proof. reflexivity. Qed.
End SelectorCombinators.

Section SelectorSemantics.
Import SelectorResolver.
Context {Feature : Type} `{Countable Feature}.
Variable geometry : @Geometry Feature.

Local Abbreviation joined a w b := (a +:+ " " +:+ w +:+ " " +:+ b).
Local Abbreviation simple a k := (_resolve_simple geometry a k).

Local Ltac string_assoc :=
  apply chars_inj; rewrite !chars_append, <- ?app_assoc; reflexivity.

Lemma has_and_from_length s n :
  length (split_on "and" s) = n -> _has_and s = (1 <? n)%nat.
Proof. unfold _has_and. by intros ->. Qed.

Lemma has_or_from_length s n :
  length (split_on "or" s) = n -> _has_or s = (1 <? n)%nat.
Proof. unfold _has_or. by intros ->. Qed.

Lemma resolve_operand a k :
  plain_operand a = true ->
  resolve geometry a k = Some (simple a k).
Proof.
  intros Ha. destruct (plain_operand_word a Ha) as [Hns _].
  rewrite resolve_unfold. unfold resolve_body.
  rewrite (ns_strip a Hns), (has_not_operand a Ha).
  rewrite (has_and_from_length a 1), (has_or_from_length a 1);
    [done|by rewrite split_on_operand..].
Qed.

(** A sentence that starts and ends with an operand and is an [and]
    of two parts. *)
Lemma resolve_as_and s a m b left_part right_part k :
  s = a +:+ " " +:+ m +:+ b ->
  plain_operand a = true -> plain_operand b = true ->
  split_on "and" s = [left_part; right_part] ->
  PyStr.strip left_part = left_part -> PyStr.strip right_part = right_part ->
  resolve geometry s k
  = match resolve geometry left_part k with
    | None => None
    | Some (Raise e) => Some (Raise e)
    | Some (Ok l) =>
        match resolve geometry right_part k with
        | None => None
        | Some (Raise e) => Some (Raise e)
        | Some (Ok r) => Some (Ok (set_intersection l r))
        end
    end.
Proof.
  intros Hs Ha Hb Hsplit Hl Hr.
  destruct (plain_operand_word a Ha) as [Ha1 Ha2].
  destruct (plain_operand_word b Hb) as [Hb1 Hb2].
  rewrite resolve_unfold. unfold resolve_body.
  rewrite (strip_sentence s a (" " +:+ m) b) by done.
  rewrite Hs at 1. rewrite has_not_sentence by done.
  rewrite (has_and_from_length s 2) by (by rewrite Hsplit).
  cbn [Nat.ltb Nat.leb]. unfold _resolve_and, resolve_pair.
  by rewrite Hsplit, Hl, Hr.
Qed.

Lemma resolve_as_or s a m b left_part right_part k :
  s = a +:+ " " +:+ m +:+ b ->
  plain_operand a = true -> plain_operand b = true ->
  length (split_on "and" s) = 1 ->
  split_on "or" s = [left_part; right_part] ->
  PyStr.strip left_part = left_part -> PyStr.strip right_part = right_part ->
  resolve geometry s k
  = match resolve geometry left_part k with
    | None => None
    | Some (Raise e) => Some (Raise e)
    | Some (Ok l) =>
        match resolve geometry right_part k with
        | None => None
        | Some (Raise e) => Some (Raise e)
        | Some (Ok r) => Some (Ok (set_union l r))
        end
    end.
Proof.
  intros Hs Ha Hb Hand Hsplit Hl Hr.
  destruct (plain_operand_word a Ha) as [Ha1 Ha2].
  destruct (plain_operand_word b Hb) as [Hb1 Hb2].
  rewrite resolve_unfold. unfold resolve_body.
  rewrite (strip_sentence s a (" " +:+ m) b) by done.
  rewrite Hs at 1. rewrite has_not_sentence by done.
  rewrite (has_and_from_length s 1) by done.
  rewrite (has_or_from_length s 2) by (by rewrite Hsplit).
  cbn [Nat.ltb Nat.leb]. unfold _resolve_or, resolve_pair.
  by rewrite Hsplit, Hl, Hr.
Qed.

Lemma resolve_and_words a b k :
  plain_operand a = true -> plain_operand b = true ->
  resolve geometry (a +:+ " and " +:+ b) k
  = Some (bind_result (simple a k) (fun l =>
          bind_result (simple b k) (fun r => Ok (set_intersection l r)))).
Proof.
  intros Ha Hb.
  destruct (plain_operand_word a Ha) as [Ha1 _].
  destruct (plain_operand_word b Hb) as [Hb1 _].
  rewrite (resolve_as_and (joined a "and" b) a "and " b a b);
    [|done|done|done|by apply split_on_pair; auto|by apply ns_strip..].
  rewrite !resolve_operand by done.
  by destruct (simple a k), (simple b k).
Qed.

Lemma resolve_or_words a b k :
  plain_operand a = true -> plain_operand b = true ->
  resolve geometry (a +:+ " or " +:+ b) k
  = Some (bind_result (simple a k) (fun l =>
          bind_result (simple b k) (fun r => Ok (set_union l r)))).
Proof.
  intros Ha Hb.
  destruct (plain_operand_word a Ha) as [Ha1 _].
  destruct (plain_operand_word b Hb) as [Hb1 _].
  rewrite (resolve_as_or (joined a "or" b) a "or " b a b);
    [|done|done|done|by apply split_on_other; auto
     |by apply split_on_pair; auto|by apply ns_strip..].
  rewrite !resolve_operand by done.
  by destruct (simple a k), (simple b k).
Qed.

(** X24.  [and] and [or] of two one-word operands: the selector
    [a and b] gives the features that both operands give, [a or b] the
    features that either gives, each listed once; the left operand is
    resolved first and its error, if any, is the error of the whole. *)
Theorem and_or_of_two_operands (a b : string) (feature_type : FeatureType)
    (Ha : plain_operand a = true) (Hb : plain_operand b = true) :
  resolve geometry (a +:+ " and " +:+ b) feature_type
  = Some (bind_result (_resolve_simple geometry a feature_type) (fun l =>
          bind_result (_resolve_simple geometry b feature_type) (fun r =>
          Ok (set_intersection l r)))) /\
  resolve geometry (a +:+ " or " +:+ b) feature_type
  = Some (bind_result (_resolve_simple geometry a feature_type) (fun l =>
          bind_result (_resolve_simple geometry b feature_type) (fun r =>
          Ok (set_union l r)))).
Proof. split; [by apply resolve_and_words|by apply resolve_or_words]. Qed.

Lemma strip_joined a w b :
  plain_operand a = true -> plain_operand b = true ->
  PyStr.strip (joined a w b) = joined a w b.
Proof.
  intros [Ha1 Ha2]%plain_operand_word [Hb1 Hb2]%plain_operand_word.
  apply (strip_sentence _ a (" " +:+ w +:+ " ") b); [string_assoc|done..].
Qed.

(** X25.  How the combinators nest.  A selector is split at [and]
    before [or], whatever the order in which they are written: [a or b
    and c] selects what is in [c] and in [a] or [b], and [a and b or c]
    selects what is in [a] and in [b] or [c].  The same combinator twice
    is an error: [a and b and c] and [a or b or c] are rejected. *)
Theorem and_is_split_before_or (a b c : string) (feature_type : FeatureType)
    (Ha : plain_operand a = true) (Hb : plain_operand b = true)
    (Hc : plain_operand c = true) :
  resolve geometry (a +:+ " or " +:+ b +:+ " and " +:+ c) feature_type
  = Some (bind_result (_resolve_simple geometry a feature_type) (fun x =>
          bind_result (_resolve_simple geometry b feature_type) (fun y =>
          bind_result (_resolve_simple geometry c feature_type) (fun z =>
          Ok (set_intersection (set_union x y) z))))) /\
  resolve geometry (a +:+ " and " +:+ b +:+ " or " +:+ c) feature_type
  = Some (bind_result (_resolve_simple geometry a feature_type) (fun x =>
          bind_result (_resolve_simple geometry b feature_type) (fun y =>
          bind_result (_resolve_simple geometry c feature_type) (fun z =>
          Ok (set_intersection x (set_union y z)))))) /\
  resolve geometry (a +:+ " and " +:+ b +:+ " and " +:+ c) feature_type
  = Some (Raise (InvalidAndExpression (a +:+ " and " +:+ b +:+ " and " +:+ c))) /\
  resolve geometry (a +:+ " or " +:+ b +:+ " or " +:+ c) feature_type
  = Some (Raise (InvalidOrExpression (a +:+ " or " +:+ b +:+ " or " +:+ c))).
Proof.
  destruct (plain_operand_word a Ha) as [Ha1 Ha2].
  destruct (plain_operand_word b Hb) as [Hb1 Hb2].
  destruct (plain_operand_word c Hc) as [Hc1 Hc2].
  assert (Hand : "and" = "and" \/ "and" = "or") by (by left).
  assert (Hor : "or" = "and" \/ "or" = "or") by (by right).
  split_and!.
  - rewrite (resolve_as_and (joined a "or" (joined b "and" c)) a
               ("or " +:+ b +:+ " and ") c (joined a "or" b) c);
      [|string_assoc|done|done|by apply split_on_mixed_left
       |by apply strip_joined|by apply ns_strip].
    change (joined a "or" b) with (a +:+ " or " +:+ b).
    rewrite resolve_or_words, resolve_operand by done.
    by destruct (simple a feature_type), (simple b feature_type),
      (simple c feature_type).
  - rewrite (resolve_as_and (joined a "and" (joined b "or" c)) a
               ("and " +:+ b +:+ " or ") c a (joined b "or" c));
      [|string_assoc|done|done|by apply split_on_mixed_right
       |by apply ns_strip|by apply strip_joined].
    change (joined b "or" c) with (b +:+ " or " +:+ c).
    rewrite resolve_or_words, resolve_operand by done.
    by destruct (simple a feature_type), (simple b feature_type),
      (simple c feature_type).
  - rewrite resolve_unfold. unfold resolve_body.
    rewrite (strip_sentence _ a (" and " +:+ b +:+ " and ") c)
      by (done || string_assoc).
    change (a +:+ " and " +:+ b +:+ " and " +:+ c)
      with (a +:+ " " +:+ ("and " +:+ b +:+ " and " +:+ c)) at 1.
    rewrite has_not_sentence by done.
    pose proof (split_on_triple "and" a b c Hand Ha Hb Hc) as Hlen.
    change (joined a "and" (joined b "and" c))
      with (a +:+ " and " +:+ b +:+ " and " +:+ c) in Hlen.
    rewrite (has_and_from_length _ 3) by done. cbn [Nat.ltb Nat.leb].
    unfold _resolve_and, resolve_pair.
    by destruct (split_on "and" _) as [|? [|? [|? [|]]]].
  - rewrite resolve_unfold. unfold resolve_body.
    rewrite (strip_sentence _ a (" or " +:+ b +:+ " or ") c)
      by (done || string_assoc).
    change (a +:+ " or " +:+ b +:+ " or " +:+ c)
      with (a +:+ " " +:+ ("or " +:+ b +:+ " or " +:+ c)) at 1.
    rewrite has_not_sentence by done.
    pose proof (split_on_triple "or" a b c Hor Ha Hb Hc) as Hlen.
    change (joined a "or" (joined b "or" c))
      with (a +:+ " or " +:+ b +:+ " or " +:+ c) in Hlen.
    rewrite (has_and_from_length _ 1)
      by (by apply (split_on_other3 "and" "or" a b c)).
    rewrite (has_or_from_length _ 3) by done. cbn [Nat.ltb Nat.leb].
    unfold _resolve_or, resolve_pair.
    by destruct (split_on "or" _) as [|? [|? [|? [|]]]].
Qed.

Lemma resolve_not_sentence t a rest k :
  t = a +:+ rest -> plain_operand a = true -> PyStr.strip t = t ->
  resolve geometry ("not " +:+ t) k
  = match all_features geometry k with
    | Raise e => Some (Raise e)
    | Ok all =>
        match resolve geometry t k with
        | None => None
        | Some (Raise e) => Some (Raise e)
        | Some (Ok matching) => Some (Ok (set_difference all matching))
        end
    end.
Proof.
  intros Ht Ha Hstrip. destruct (plain_operand_inv a Ha) as (Hns & Ha0 & _).
  assert (Hhead : PyStr.lstrip_chars (PyStr.chars t) = PyStr.chars t).
  { rewrite Ht, chars_append. destruct (PyStr.chars a) as [|x l]; [done|].
    apply ns_cons in Hns as [Hx _]. by apply lstrip_head. }
  assert (Htail : PyStr.rstrip_chars (PyStr.chars t) = PyStr.chars t).
  { unfold PyStr.strip in Hstrip. rewrite Hhead in Hstrip.
    apply (f_equal PyStr.chars) in Hstrip. by rewrite chars_of_chars in Hstrip. }
  assert (Hwhole : PyStr.strip ("not " +:+ t) = "not " +:+ t).
  { unfold PyStr.strip.
    change (PyStr.chars ("not " +:+ t))
      with ("n"%char :: "o"%char :: "t"%char :: " "%char :: PyStr.chars t).
    rewrite lstrip_head by done.
    change ("n"%char :: "o"%char :: "t"%char :: " "%char :: PyStr.chars t)
      with (["n"%char; "o"%char; "t"%char; " "%char] ++ PyStr.chars t).
    rewrite rstrip_fixed_app; [|by rewrite Ht, chars_append;
                                   destruct (PyStr.chars a)|done].
    apply chars_inj. by rewrite chars_of_chars. }
  rewrite resolve_unfold. unfold resolve_body.
  rewrite Hwhole. unfold _has_not, _resolve_not.
  rewrite match_not_prefix, Hhead, of_chars_chars, Hstrip. done.
Qed.

(** X26.  [not] applies to everything that follows it: [not a and b]
    selects the features outside the intersection of [a] and [b], and
    [not a or b] those outside their union; it never negates [a]
    alone.  The list of all features is fetched before the operands are
    resolved. *)
Theorem not_negates_the_whole_rest (a b : string) (feature_type : FeatureType)
    (Ha : plain_operand a = true) (Hb : plain_operand b = true) :
  resolve geometry ("not " +:+ a +:+ " and " +:+ b) feature_type
  = Some (bind_result (all_features geometry feature_type) (fun all =>
          bind_result (_resolve_simple geometry a feature_type) (fun x =>
          bind_result (_resolve_simple geometry b feature_type) (fun y =>
          Ok (set_difference all (set_intersection x y)))))) /\
  resolve geometry ("not " +:+ a +:+ " or " +:+ b) feature_type
  = Some (bind_result (all_features geometry feature_type) (fun all =>
          bind_result (_resolve_simple geometry a feature_type) (fun x =>
          bind_result (_resolve_simple geometry b feature_type) (fun y =>
          Ok (set_difference all (set_union x y)))))).
Proof.
  split.
  - rewrite (resolve_not_sentence (a +:+ " and " +:+ b) a (" and " +:+ b))
      by (done || by apply (strip_joined a "and" b)).
    rewrite resolve_and_words by done.
    by destruct (all_features geometry feature_type),
      (simple a feature_type), (simple b feature_type).
  - rewrite (resolve_not_sentence (a +:+ " or " +:+ b) a (" or " +:+ b))
      by (done || by apply (strip_joined a "or" b)).
    rewrite resolve_or_words by done.
    by destruct (all_features geometry feature_type),
      (simple a feature_type), (simple b feature_type).
Qed.
End SelectorSemantics.

Lemma and_or_of_two_operands_witness :
  SelectorResolver.plain_operand ">Z" = true /\
  SelectorResolver.plain_operand "<Z" = true /\
  SelectorResolver.resolve SelectorResolver.box (">Z" +:+ " and " +:+ "<Z")
    SelectorResolver.FACE
  = Some (bind_result
            (SelectorResolver._resolve_simple SelectorResolver.box ">Z"
               SelectorResolver.FACE) (fun l =>
          bind_result
            (SelectorResolver._resolve_simple SelectorResolver.box "<Z"
               SelectorResolver.FACE) (fun r =>
          Ok (SelectorResolver.set_intersection l r)))) /\
  SelectorResolver.resolve SelectorResolver.box (">Z" +:+ " or " +:+ "<Z")
    SelectorResolver.FACE
  = Some (bind_result
            (SelectorResolver._resolve_simple SelectorResolver.box ">Z"
               SelectorResolver.FACE) (fun l =>
          bind_result
            (SelectorResolver._resolve_simple SelectorResolver.box "<Z"
               SelectorResolver.FACE) (fun r =>
          Ok (SelectorResolver.set_union l r)))).
Proof.
  split; [reflexivity|]. split; [reflexivity|].
  exact (and_or_of_two_operands SelectorResolver.box ">Z" "<Z"
           SelectorResolver.FACE eq_refl eq_refl).
Defined.

Lemma and_is_split_before_or_witness :
  SelectorResolver.plain_operand ">Z" = true /\
  SelectorResolver.plain_operand "<Z" = true /\
  SelectorResolver.plain_operand "top" = true /\
  SelectorResolver.resolve SelectorResolver.box
    (">Z" +:+ " and " +:+ "<Z" +:+ " and " +:+ "top") SelectorResolver.FACE
  = Some (Raise (SelectorResolver.InvalidAndExpression
                   (">Z" +:+ " and " +:+ "<Z" +:+ " and " +:+ "top"))).
Proof.
  do 3 (split; [reflexivity|]).
  exact (proj1 (proj2 (proj2
           (and_is_split_before_or SelectorResolver.box ">Z" "<Z" "top"
              SelectorResolver.FACE eq_refl eq_refl eq_refl)))).
Defined.

Lemma not_negates_the_whole_rest_witness :
  SelectorResolver.plain_operand ">Z" = true /\
  SelectorResolver.plain_operand "<Z" = true /\
  SelectorResolver.resolve SelectorResolver.box
    ("not " +:+ ">Z" +:+ " or " +:+ "<Z") SelectorResolver.FACE
  = Some (bind_result
            (SelectorResolver.all_features SelectorResolver.box
               SelectorResolver.FACE) (fun all =>
          bind_result
            (SelectorResolver._resolve_simple SelectorResolver.box ">Z"
               SelectorResolver.FACE) (fun x =>
          bind_result
            (SelectorResolver._resolve_simple SelectorResolver.box "<Z"
               SelectorResolver.FACE) (fun y =>
          Ok (SelectorResolver.set_difference all
                (SelectorResolver.set_union x y)))))).
Proof.
  do 2 (split; [reflexivity|]).
  exact (proj2 (not_negates_the_whole_rest SelectorResolver.box ">Z" "<Z"
                  SelectorResolver.FACE eq_refl eq_refl)).
Defined.
